(** * support-bot-web: the hybrid retrieval-and-answer pipeline

    A shallow embedding of
    - [supabase/functions/ask-bot/index.ts]   (module [AskBot]),
    - the conversational revision of the same handler, kept in the
      repository as an unnamed source file (module [AskBotConversational]),
    - [supabase/sql/001_hybrid_search.sql]     (modules [Sql] and
      [HybridSearch]),
    and the properties of the pipeline specification checked against them.

    Further down, more of the repository is embedded and verified: the
    CORS headers, the error paths and the call log of the handler, the
    widgets that call it ([widget/supportbot.js],
    [src/components/SupportBotWidget.tsx]), [chunk] of
    [supabase/functions/kb-sync/index.ts] and
    [supabase/functions/create-ticket/index.ts]. *)

From Stdlib Require Import Ascii String QArith Qcanon.
From stdpp Require Import base decidable option numbers list sorting strings gmap pretty.

Set Warnings "-register-all".

Local Open Scope N_scope.

(** ** Text

    An ECMAScript string is a sequence of UTF-16 code units; PostgreSQL
    [text] is modelled the same way (one element per character of the
    Basic Multilingual Plane). *)

Abbreviation str := (list N).

(** ASCII literals of the sources, written as Rocq strings. *)
Definition lit (s : string) : str :=
  map N_of_ascii (list_ascii_of_string s).

Definition in_range (lo hi c : N) : bool := (lo <=? c) && (c <=? hi).

Definition is_upper (c : N) : bool := in_range 65 90 c.
Definition is_lower (c : N) : bool := in_range 97 122 c.
Definition is_digit (c : N) : bool := in_range 48 57 c.

(** [\w] : [A-Za-z0-9_]. *)
Definition is_word (c : N) : bool :=
  is_upper c || is_lower c || is_digit c || (c =? 95).

(** ECMAScript [\s] (WhiteSpace and LineTerminator), also what
    [String.prototype.trim] strips. *)
Definition js_space (c : N) : bool :=
  in_range 9 13 c || (c =? 32) || (c =? 160) || (c =? 5760)
  || in_range 8192 8202 c || (c =? 8232) || (c =? 8233) || (c =? 8239)
  || (c =? 8287) || (c =? 12288) || (c =? 65279).

(** PostgreSQL [\s] is [[[:space:]]]; on the characters modelled here:
    blank, tab, newline, vertical tab, form feed, carriage return. *)
Definition pg_space (c : N) : bool := in_range 9 13 c || (c =? 32).

(** ** Regular expressions

    Only the constructs that occur in the sources: literal code units,
    classes, greedy [*] on a class, greedy [?] on a literal, and the
    word-boundary assertion.  [\s+] is the class followed by its star. *)

Inductive atom :=
| Chr (c : N)
| ChrI (c : N)
| Cls (p : N → bool)
| Star (p : N → bool)
| Opt (c : N)
| WordB.

Definition regex := list atom.

Definition chars (s : string) : regex := map Chr (lit s).

(** Canonicalize of the [i] flag without [u]: upper-casing, never mapping
    a code unit above 127 below 128.  On Basic Latin this is the usual
    folding of [a-z] onto [A-Z]. *)
Definition canonicalize (c : N) : N := if is_lower c then c - 32 else c.

Definition chars_i (s : string) : regex := map ChrI (lit s).

Definition is_word_opt (o : option N) : bool :=
  match o with Some c => is_word c | None => false end.

(** [exec r prev s] runs the backtracking matcher at the current position:
    [prev] is the code unit before it, [s] the rest of the input.  The
    result is the number of code units consumed by the first successful
    alternative (greedy choices first). *)
Fixpoint exec (r : regex) (prev : option N) (s : str) {struct r} : option nat :=
  match r with
  | [] => Some O
  | a :: r' =>
    match a with
    | Chr c =>
      match s with
      | x :: s' => if x =? c then S <$> exec r' (Some x) s' else None
      | [] => None
      end
    | ChrI c =>
      match s with
      | x :: s' =>
        if canonicalize x =? canonicalize c
        then S <$> exec r' (Some x) s' else None
      | [] => None
      end
    | Cls p =>
      match s with
      | x :: s' => if p x then S <$> exec r' (Some x) s' else None
      | [] => None
      end
    | Star p =>
      (fix star (prev : option N) (s : str) {struct s} : option nat :=
         match s with
         | x :: s' =>
           if p x then
             match star (Some x) s' with
             | Some n => Some (S n)
             | None => exec r' prev s
             end
           else exec r' prev s
         | [] => exec r' prev s
         end) prev s
    | Opt c =>
      match s with
      | x :: s' =>
        if x =? c then
          match exec r' (Some x) s' with
          | Some n => Some (S n)
          | None => exec r' prev s
          end
        else exec r' prev s
      | [] => exec r' prev s
      end
    | WordB =>
      if xorb (is_word_opt prev) (is_word_opt (head s))
      then exec r' prev s else None
    end
  end.

(** [RegExp.prototype.test] (no [g] flag): some position matches. *)
Fixpoint test_from (r : regex) (prev : option N) (s : str) : bool :=
  match exec r prev s with
  | Some _ => true
  | None =>
    match s with
    | [] => false
    | x :: s' => test_from r (Some x) s'
    end
  end.

Definition test (r : regex) (s : str) : bool := test_from r None s.

(** [String.prototype.replace] with a [g] regex and a literal replacement
    (also [regexp_replace(_, _, _, 'g')]): matches are taken left to right
    on the original input and do not overlap.  [skip] counts the code units
    of the current match that are still to be dropped.  An empty match
    inserts the replacement and moves on by one code unit. *)
Fixpoint replace_from (r : regex) (rep : str)
    (prev : option N) (skip : nat) (s : str) : str :=
  match s with
  | [] =>
    match skip, exec r prev [] with
    | O, Some _ => rep
    | _, _ => []
    end
  | x :: s' =>
    match skip with
    | S k => replace_from r rep (Some x) k s'
    | O =>
      match exec r prev s with
      | Some (S n) => rep ++ replace_from r rep (Some x) n s'
      | Some O => rep ++ x :: replace_from r rep (Some x) O s'
      | None => x :: replace_from r rep (Some x) O s'
      end
    end
  end.

Definition replace_all (r : regex) (rep : string) (s : str) : str :=
  replace_from r (lit rep) None O s.

(** Stripping a class from both ends. *)
Fixpoint trim_start (p : N → bool) (s : str) : str :=
  match s with
  | x :: s' => if p x then trim_start p s' else s
  | [] => []
  end.

Definition trim_end (p : N → bool) (s : str) : str :=
  reverse (trim_start p (reverse s)).

Definition trim_both (p : N → bool) (s : str) : str :=
  trim_end p (trim_start p s).

(** ** Platform text primitives

    [String.prototype.toLowerCase], [String.prototype.normalize("NFKD")],
    PostgreSQL's [lower] and the [unaccent] extension belong to the
    platforms, not to the repository.  They are modelled on Basic Latin,
    the Latin-1 Supplement and U+2122; every other code unit is left as it
    is by the model.  The statements below that evaluate the normalizers do
    so on inputs inside this fragment. *)
Module Unicode.

Definition to_lower_cu (c : N) : N :=
  if is_upper c then c + 32
  else if in_range 192 222 c && negb (c =? 215) then c + 32
  else c.

Definition toLowerCase (s : str) : str := map to_lower_cu s.

(** Lower-case Latin-1 letters with a canonical decomposition:
    code unit, base letter, combining mark. *)
Definition latin1_marks : list (N * (N * N)) :=
  [ (224, (97, 768)); (225, (97, 769)); (226, (97, 770)); (227, (97, 771));
    (228, (97, 776)); (229, (97, 778)); (231, (99, 807));
    (232, (101, 768)); (233, (101, 769)); (234, (101, 770)); (235, (101, 776));
    (236, (105, 768)); (237, (105, 769)); (238, (105, 770)); (239, (105, 776));
    (241, (110, 771));
    (242, (111, 768)); (243, (111, 769)); (244, (111, 770)); (245, (111, 771));
    (246, (111, 776));
    (249, (117, 768)); (250, (117, 769)); (251, (117, 770)); (252, (117, 776));
    (253, (121, 769)); (255, (121, 776)) ].

(** Compatibility decompositions of the fragment that are not a letter
    plus a mark; U+2122 TRADE MARK SIGN decomposes to the capitals TM. *)
Definition compat_table : list (N * str) :=
  [ (160, [32]); (168, [32; 776]); (170, [97]); (175, [32; 772]);
    (178, [50]); (179, [51]); (180, [32; 769]); (181, [956]);
    (184, [32; 807]); (185, [49]); (186, [111]);
    (188, [49; 8260; 52]); (189, [49; 8260; 50]); (190, [51; 8260; 52]);
    (8482, [84; 77]) ].

Definition assoc {V} (c : N) (t : list (N * V)) : option V :=
  snd <$> find (λ kv, fst kv =? c) t.

Definition decompose (c : N) : str :=
  match assoc c compat_table with
  | Some d => d
  | None =>
    match assoc c latin1_marks with
    | Some (b, m) => [b; m]
    | None =>
      if in_range 192 221 c then
        match assoc (c + 32) latin1_marks with
        | Some (b, m) => [b - 32; m]
        | None => [c]
        end
      else [c]
    end
  end.

Definition normalize_NFKD (s : str) : str := flat_map decompose s.

(** PostgreSQL [lower] (the locale's; here as [toLowerCase]). *)
Definition lower (s : str) : str := toLowerCase s.

(** [unaccent]: the accented Latin-1 letters lose their accent. *)
Definition unaccent_cu (c : N) : N :=
  match assoc c latin1_marks with
  | Some (b, _) => b
  | None =>
    if in_range 192 221 c then
      match assoc (c + 32) latin1_marks with
      | Some (b, _) => b - 32
      | None => c
      end
    else c
  end.

Definition unaccent (s : str) : str := map unaccent_cu s.

End Unicode.

(** ** Query-time normalization: [normalizeLocal] of ask-bot/index.ts *)

Definition re_combining : regex := [Cls (in_range 768 879)].
Definition re_control4 : regex :=
  chars "control" ++ [Star js_space] ++ chars "4" ++ [WordB].
Definition re_4sight : regex :=
  [WordB] ++ chars "4" ++ [Star js_space] ++ chars "sight" ++ [WordB].
Definition re_os3 : regex :=
  [WordB] ++ chars "os" ++ [Star js_space; Opt 118] ++ chars "3" ++ [WordB].
Definition re_spaces : regex := [Cls js_space; Star js_space].

Definition normalizeLocal (s : str) : str :=
  let s := Unicode.toLowerCase s in
  let s := Unicode.normalize_NFKD s in
  let s := replace_all re_combining "" s in
  let s := replace_all re_control4 "control4" s in
  let s := replace_all re_4sight "4sight" s in
  let s := replace_all re_os3 "os3" s in
  let s := replace_all re_spaces " " s in
  trim_both js_space s.

(** ** Index-time normalization: [normalize_text] of 001_hybrid_search.sql

    The patterns of the SQL function write [\b].  PostgreSQL's advanced
    regular expressions read [\b] as the backspace character (code 8);
    their word-boundary escape is [\y].  The author's comments ("fix common
    variants") and the edge function use [\b] as a word boundary.  The
    function is therefore modelled over the atom [b] that stands for [\b]:
    [normalize_text] is PostgreSQL's reading, [normalize_text_wordb] the
    word-boundary reading.  What is proved below is proved for both. *)
Module Sql.

Section patterns.
Variable b : atom.

Definition re_control4 : regex :=
  [b] ++ chars "control" ++ [Star pg_space] ++ chars "4" ++ [b].
Definition re_c4 : regex := [b] ++ chars "c4" ++ [b].
Definition re_4sight : regex :=
  [b] ++ chars "4" ++ [Star pg_space] ++ chars "sight" ++ [b].
Definition re_os_3 : regex :=
  [b] ++ chars "os" ++ [Star pg_space] ++ chars "3" ++ [b].
Definition re_os_v3 : regex :=
  [b] ++ chars "os" ++ [Star pg_space; Opt 118] ++ chars "3" ++ [b].
Definition re_login : regex :=
  [b] ++ chars "log" ++ [Star pg_space] ++ chars "in" ++ [b].
(** The source writes the apostrophe of this pattern with a backslash. *)
Definition re_cant : regex := [b] ++ chars "can't" ++ [b].
Definition re_spaces : regex := [Cls pg_space; Star pg_space].

(** [trim(input)] strips blanks (code 32) only. *)
Definition normalize_text_with (input : option str) : str :=
  match input with
  | None => []
  | Some input =>
    let input := Unicode.lower input in
    let input := trim_both (N.eqb 32) input in
    let input := Unicode.unaccent input in
    let input := replace_all re_control4 "control4" input in
    let input := replace_all re_c4 "control4" input in
    let input := replace_all re_4sight "4sight" input in
    let input := replace_all re_os_3 "os3" input in
    let input := replace_all re_os_v3 "os3" input in
    let input := replace_all re_login "login" input in
    let input := replace_all re_cant "cannot" input in
    replace_all re_spaces " " input
  end.
End patterns.

Definition normalize_text : option str → str := normalize_text_with (Chr 8).
Definition normalize_text_wordb : option str → str := normalize_text_with WordB.

End Sql.

(** ** Hybrid retrieval: [search_kb_hybrid] of 001_hybrid_search.sql

    [double precision] scores are modelled by exact rationals ([Qc]); the
    rounding of IEEE arithmetic is not modelled. *)
Module HybridSearch.
Local Open Scope Qc_scope.

Definition qc (n : Z) (d : positive) : Qc := Q2Qc (n # d).

(** The columns of [public.kb_chunks] that the function returns; the
    columns [embedding], [content_norm] and [content_tsv] are read only
    through the operators of the section below. *)
Record kb_chunk := { kb_id : Z; kb_content : str }.

(** A row of a candidate list: [id] and the signal's score. *)
Abbreviation candidate := (Z * Qc)%type.

Record candidates := {
  sem : list candidate;
  lex : list candidate;
  tri : list candidate
}.

Record fused_row := {
  f_id : Z;
  f_content : str;
  f_sem_score : Qc;
  f_lex_score : Qc;
  f_tri_score : Qc
}.

(** A row of the returned table. *)
Record result := {
  id : Z;
  content : str;
  score : Qc;
  sem_score : Qc;
  lex_score : Qc;
  tri_score : Qc
}.

(** [ORDER BY]: the rows of the input in some order that respects the
    sort key; the order of rows with equal keys is not fixed by SQL. *)
Definition order_by {A} (R : relation A) (input output : list A) : Prop :=
  output ≡ₚ input ∧ Sorted R output.

(** [LIMIT n] for [0 ≤ n]; a negative [n] makes PostgreSQL raise an
    error, which the callers below rule out first. *)
Definition limit {A} (n : Z) (l : list A) : list A := take (Z.to_nat n) l.

(** [l LEFT JOIN r ON on]: every row of [l], once per matching row of
    [r], or once with NULLs when nothing matches. *)
Definition left_join {A B} (on : A → B → bool)
    (l : list A) (r : list B) : list (A * option B) :=
  flat_map (λ a,
    match filter (λ b, on a b = true) r with
    | [] => [(a, None)]
    | ms => (λ b, (a, Some b)) <$> ms
    end) l.

Definition coalesce (o : option candidate) (d : Qc) : Qc :=
  match o with Some c => c.2 | None => d end.

Definition greatest (x y : Qc) : Qc := if decide (x ≤ y) then y else x.

Section query.
(** The operators of pgvector, full-text search and pg_trgm applied to
    a stored row and the query of the call ([q_embedding], and
    [params.qn], [params.tsq] computed from [normalize_text(q_text)]). *)
Variable cosine_distance : kb_chunk → Qc.  (* kb.embedding <=> q_embedding *)
Variable tsv_matches : kb_chunk → bool.     (* kb.content_tsv @@ p.tsq *)
Variable ts_rank_cd : kb_chunk → Qc.        (* ts_rank_cd(kb.content_tsv, p.tsq, 1) *)
Variable trgm_matches : kb_chunk → bool.    (* kb.content_norm % p.qn *)
Variable similarity : kb_chunk → Qc.        (* similarity(kb.content_norm, p.qn) *)

Variables w_semantic w_lexical w_trigram : Qc.
Variable k : Z.

Definition by_distance : relation kb_chunk :=
  λ a b, cosine_distance a ≤ cosine_distance b.
Definition lex_score_of (c : kb_chunk) : Qc := ts_rank_cd c.
Definition by_lex_desc : relation kb_chunk :=
  λ a b, lex_score_of b ≤ lex_score_of a.
Definition tri_score_of (c : kb_chunk) : Qc := greatest (similarity c) 0.
Definition by_tri_desc : relation kb_chunk :=
  λ a b, tri_score_of b ≤ tri_score_of a.

#[global] Instance by_distance_dec : RelDecision by_distance :=
  λ a b, decide (cosine_distance a ≤ cosine_distance b).
#[global] Instance by_lex_desc_dec : RelDecision by_lex_desc :=
  λ a b, decide (lex_score_of b ≤ lex_score_of a).
#[global] Instance by_tri_desc_dec : RelDecision by_tri_desc :=
  λ a b, decide (tri_score_of b ≤ tri_score_of a).

Definition sem_rows (sorted : list kb_chunk) : list candidate :=
  (λ c, (kb_id c, 1 - cosine_distance c)) <$> limit (k * 10) sorted.
Definition lex_rows (sorted : list kb_chunk) : list candidate :=
  (λ c, (kb_id c, lex_score_of c)) <$> limit (k * 10) sorted.
Definition tri_rows (sorted : list kb_chunk) : list candidate :=
  (λ c, (kb_id c, tri_score_of c)) <$> limit (k * 10) sorted.

(** The CTE [fused]: all of [kb_chunks], left-joined with the three
    candidate lists [using(id)]. *)
Definition fused (kb : list kb_chunk) (c : candidates) : list fused_row :=
  (λ '(r, s, l, t),
     {| f_id := kb_id r; f_content := kb_content r;
        f_sem_score := coalesce s 0;
        f_lex_score := coalesce l 0;
        f_tri_score := coalesce t 0 |})
  <$> left_join (λ '(r, _, _) t, (kb_id r =? t.1)%Z)
        (left_join (λ '(r, _) l, (kb_id r =? l.1)%Z)
           (left_join (λ r s, (kb_id r =? s.1)%Z) kb (sem c))
           (lex c))
        (tri c).

Definition select (f : fused_row) : result :=
  {| id := f_id f; content := f_content f;
     score := w_semantic * f_sem_score f + w_lexical * f_lex_score f
              + w_trigram * f_tri_score f;
     sem_score := f_sem_score f;
     lex_score := f_lex_score f;
     tri_score := f_tri_score f |}.

Definition by_score_desc : relation result := λ a b, score b ≤ score a.
#[global] Instance by_score_desc_dec : RelDecision by_score_desc :=
  λ a b, decide (score b ≤ score a).

(** *** The query as SQL defines it: a relation between the table
    and the admissible results. *)
Definition candidates_rel (kb : list kb_chunk) (c : candidates) : Prop :=
  ∃ s l t,
    order_by by_distance kb s ∧
    order_by by_lex_desc (filter (λ r, tsv_matches r = true) kb) l ∧
    order_by by_tri_desc (filter (λ r, trgm_matches r = true) kb) t ∧
    c = {| sem := sem_rows s; lex := lex_rows l; tri := tri_rows t |}.

Definition rank_rel (kb : list kb_chunk) (c : candidates)
    (out : list result) : Prop :=
  ∃ f, order_by by_score_desc (select <$> fused kb c) f ∧ out = limit k f.

Definition search_kb_hybrid_rel (kb : list kb_chunk)
    (out : list result) : Prop :=
  (0 ≤ k)%Z ∧ ∃ c, candidates_rel kb c ∧ rank_rel kb c out.

(** *** An executable instance: every [ORDER BY] done by merge sort. *)
Definition candidates_of (kb : list kb_chunk) : candidates :=
  {| sem := sem_rows (merge_sort by_distance kb);
     lex := lex_rows (merge_sort by_lex_desc
                        (filter (λ r, tsv_matches r = true) kb));
     tri := tri_rows (merge_sort by_tri_desc
                        (filter (λ r, trgm_matches r = true) kb)) |}.

Definition rank (kb : list kb_chunk) (c : candidates) : list result :=
  limit k (merge_sort by_score_desc (select <$> fused kb c)).

Definition search_kb_hybrid (kb : list kb_chunk) : option (list result) :=
  if decide (0 ≤ k)%Z then Some (rank kb (candidates_of kb)) else None.

(** *** The ordering the specification asks for. *)
Definition by_score_then_id : relation result :=
  λ a b, score b < score a ∨ (score a = score b ∧ (id a < id b)%Z).

End query.

(** A passage is surfaced when some candidate list holds its id. *)
Definition surfaced (c : candidates) (i : Z) : Prop :=
  i ∈ fst <$> sem c ∨ i ∈ fst <$> lex c ∨ i ∈ fst <$> tri c.

(** The component score [v] of passage [i] for one signal: the
    candidate's score, or 0 when the signal did not surface [i]. *)
Definition signal (cands : list candidate) (i : Z) (v : Qc) : Prop :=
  (i, v) ∈ cands ∨ ((i ∉ fst <$> cands) ∧ v = 0).

(** *** Two stored tables used as concrete inputs below. *)

(** Two passages at the same distance from the query, matched by neither
    the lexical nor the trigram search. *)
Definition tie_kb : list kb_chunk :=
  [ {| kb_id := 2; kb_content := lit "pairing a remote" |};
    {| kb_id := 1; kb_content := lit "resetting a remote" |} ].
Definition tie_distance (r : kb_chunk) : Qc := qc 1 2.

(** Eleven passages: ten at cosine distance 3/2 (similarity -1/2) and
    passage 11 at distance 2, none matched lexically or by trigrams. *)
Definition far_kb : list kb_chunk :=
  (λ i, {| kb_id := i; kb_content := lit "passage" |}) <$> seqZ 1 11.
Definition far_distance (r : kb_chunk) : Qc :=
  if (kb_id r =? 11)%Z then qc 2 1 else qc 3 2.

Definition no_match (r : kb_chunk) : bool := false.
Definition no_score (r : kb_chunk) : Qc := 0.
End HybridSearch.

(** ** ECMAScript values of the edge function *)

(** Numbers: finite values as exact rationals, the infinities and NaN
    (signed zero and rounding are not modelled). *)
Inductive number := Fin (q : Qc) | PosInf | NegInf | NaN.

(** A parsed JSON value.  A numeric literal outside the double range
    (parsed to an infinity) is not modelled. *)
Inductive json :=
| JNull
| JBool (b : bool)
| JNumber (q : Qc)
| JString (s : str)
| JArray (l : list json)
| JObject (fields : gmap string json).

Module Js.
Local Open Scope Qc_scope.

(** [v?.key]: [None] is [undefined]. Only own properties of objects are
    modelled (the keys read by the handler are not properties of arrays
    or primitives). *)
Definition get (v : json) (key : string) : option json :=
  match v with
  | JObject fields => fields !! key
  | _ => None
  end.

(** [v ?? d]. *)
Definition nullish (v : option json) (d : json) : json :=
  match v with
  | None | Some JNull => d
  | Some v => v
  end.

(** ToBoolean. *)
Definition truthy (v : option json) : bool :=
  match v with
  | None | Some JNull => false
  | Some (JBool b) => b
  | Some (JNumber q) => negb (bool_decide (q = 0))
  | Some (JString s) => negb (bool_decide (s = []))
  | Some (JArray _) | Some (JObject _) => true
  end.

Definition Math_min (a b : number) : number :=
  match a, b with
  | NaN, _ | _, NaN => NaN
  | NegInf, _ | _, NegInf => NegInf
  | PosInf, x | x, PosInf => x
  | Fin x, Fin y => Fin (if decide (x ≤ y) then x else y)
  end.

Definition Math_max (a b : number) : number :=
  match a, b with
  | NaN, _ | _, NaN => NaN
  | PosInf, _ | _, PosInf => PosInf
  | NegInf, x | x, NegInf => x
  | Fin x, Fin y => Fin (if decide (x ≤ y) then y else x)
  end.

(** [n > 0]. *)
Definition positive (n : number) : bool :=
  match n with
  | Fin q => bool_decide (0 < q)
  | PosInf => true
  | NegInf | NaN => false
  end.

Definition times (n : number) (c : Qc) : number :=
  match n with
  | Fin q => Fin (q * c)
  | PosInf => if decide (0 < c) then PosInf else if decide (c < 0) then NegInf else NaN
  | NegInf => if decide (0 < c) then NegInf else if decide (c < 0) then PosInf else NaN
  | NaN => NaN
  end.

Definition of_nat (n : nat) : number := Fin (Qc_of_Z (Z.of_nat n)).

(** [n1 <= n2] on numbers (false when either is NaN). *)
Definition le (a b : number) : bool :=
  match a, b with
  | NaN, _ | _, NaN => false
  | NegInf, _ | _, PosInf => true
  | _, NegInf | PosInf, _ => false
  | Fin x, Fin y => bool_decide (x ≤ y)
  end.

(** Truncation toward zero. *)
Definition trunc (q : Qc) : Z := Z.quot (Qnum q) (Zpos (Qden q)).

(** The relative index of [Array.prototype.slice]: ToIntegerOrInfinity,
    negative values counted from the end, clamped to [0, len]. *)
Definition relative_index (n : number) (len : nat) : nat :=
  match n with
  | NaN | NegInf => O
  | PosInf => len
  | Fin q =>
    let z := trunc q in
    if (z <? 0)%Z then Z.to_nat (Z.max (Z.of_nat len + z) 0)
    else Z.to_nat (Z.min z (Z.of_nat len))
  end.

(** [l.slice(0, end)] and [l.slice(start)]. *)
Definition slice_to {A} (l : list A) (end_ : number) : list A :=
  take (relative_index end_ (length l)) l.
Definition slice_from {A} (l : list A) (start : number) : list A :=
  drop (relative_index start (length l)) l.

(** [Array.prototype.join]. *)
Fixpoint join (sep : str) (l : list str) : str :=
  match l with
  | [] => []
  | [x] => x
  | x :: l' => x ++ sep ++ join sep l'
  end.

(** Template-literal rendering of [i + 1] for an array index [i]. *)
Definition decimal (n : nat) : str := lit (pretty n).

Definition nl : str := [10].
Definition dq : str := [34].
End Js.

(** ** The request, the response and the world around the handler *)
Module Api.

Record request := {
  method : string;
  origin : option str;
  json_body : option json   (* [None]: [req.json()] rejects *)
}.

Record KBRow := {
  row_id : option json;
  row_content : option str;
  row_score : option number;
  source_url : option str;
  source_title : option str;
  updated_at : option str
}.

Record Citation := {
  index : nat;
  title : str;
  url : str;
  snippet : str;
  cite_score : number;
  cite_updated_at : option str
}.

Record AnswerResult := {
  answer : str;
  citations : list Citation;
  sources : list KBRow;
  needs_human_help : bool;
  session_id : json
}.

Inductive response_body :=
| NoBody
| OkTrue
| ErrorBody (error : str) (details : option json) (upstream_status : option N)
| AnswerBody (a : AnswerResult).

(** The CORS headers ([corsHeaders]) are the same on every response and
    are left out. *)
Record response := { status : N; body : response_body }.

Record message := { role : str; msg_content : str }.

Record chat_request := { temperature : Qc; messages : list message }.

Record rpc_args := {
  q_text : str;
  q_embedding : list Qc;
  arg_w_semantic : Qc;
  arg_w_lexical : Qc;
  arg_w_trigram : Qc;
  arg_k : number
}.

Record chat_row := {
  row_session_id : json;
  row_role : str;
  row_message : str;
  row_timestamp : str
}.

Inductive embeddings_outcome :=
| EmbeddingsThrows (e : str)
| EmbeddingsReplied (http_status : N) (embedding : option (list Qc))
                    (error : option json).

Inductive rpc_outcome :=
| RpcError (message : str)
| RpcData (rows : option (list KBRow)).   (* [None]: data is not an array *)

Inductive select_outcome :=
| SelectThrows (e : str)
| SelectError (message : str)
| SelectData (historyData : option (list message)).

Inductive chat_outcome :=
| ChatThrows (e : str)                   (* fetch or [json()] rejects *)
| ChatReplied (content : option str).    (* choices[0].message.content *)

(** Everything the handler reads from outside its own code: platform
    coercions that depend on IEEE-754 parsing and printing, the
    environment, and the answers of the services it calls. *)
Record world := {
  ToNumber_other : json → number;  (* ToNumber of a string, array or object *)
  toFixed3 : number → str;         (* Number.prototype.toFixed(3) *)
  env : gmap string str;           (* Deno.env *)
  randomUUID : str;
  clock : nat → str;               (* successive [new Date().toISOString()] *)
  embeddings : str → embeddings_outcome;
  search_kb_hybrid_rpc : rpc_args → rpc_outcome;
  select_history : json → number → select_outcome;
  chat_completion : chat_request → chat_outcome;
  insert_message : chat_row → option str   (* [Some e]: the insert throws *)
}.

(** Calls to the external services, in the order they are made. *)
Inductive call :=
| CallEmbeddings (input : str)
| CallSearch (args : rpc_args)
| CallHistory (session : json) (limit : number)
| CallChat (req : chat_request)
| CallInsert (row : chat_row).

End Api.
Import Api.

(** The answer of the session store to the query the handler issues,
    [.eq('session_id', s).order('timestamp', { ascending: true }).limit(n)],
    for a session whose messages are [rows], oldest first: the first [n] of
    them.  A limit that is not a finite number is rejected. *)
Definition ascending_limit (rows : list message) (limit : number) : select_outcome :=
  match limit with
  | Fin q => SelectData (Some (take (Z.to_nat (Js.trunc q)) rows))
  | _ => SelectError (lit "invalid limit")
  end.

(** The chat completion requests of a log. *)
Definition chat_requests (t : list call) : list chat_request :=
  omap (λ c, match c with CallChat req => Some req | _ => None end) t.

(** ** Control flow of the handler: early [return], [throw], and the log of
    service calls. *)
Inductive outcome (A : Type) :=
| Value (a : A)
| Returned (r : response)
| Thrown (e : str).
Arguments Value {A} a.
Arguments Returned {A} r.
Arguments Thrown {A} e.

Definition M (A : Type) : Type := list call → outcome A * list call.

#[global] Instance M_ret : MRet M := λ A a t, (Value a, t).
#[global] Instance M_bind : MBind M := λ A B f m t,
  match m t with
  | (Value a, t') => f a t'
  | (Returned r, t') => (Returned r, t')
  | (Thrown e, t') => (Thrown e, t')
  end.

Definition respond {A} (r : response) : M A := λ t, (Returned r, t).
Definition throw {A} (e : str) : M A := λ t, (Thrown e, t).
Definition perform (c : call) : M unit := λ t, (Value tt, t ++ [c]).

Definition try_catch {A} (m : M A) (handler : str → M A) : M A := λ t,
  match m t with
  | (Thrown e, t') => handler e t'
  | r => r
  end.

Definition json_response (st : N) (b : response_body) : response :=
  {| status := st; body := b |}.

(** Two judgments about a computation of the handler.

    [hoare m Q R C]: from any log, [m] only appends calls that satisfy [C];
    a value it produces satisfies [Q], a response it returns satisfies [R].

    [yields m o]: from any log, the outcome of [m] is [o]. *)
Definition hoare {A} (m : M A) (Q : A → Prop) (R : response → Prop)
    (C : call → Prop) : Prop :=
  ∀ t, (∃ new, (m t).2 = t ++ new ∧ Forall C new) ∧
       match (m t).1 with
       | Value a => Q a
       | Returned r => R r
       | Thrown _ => True
       end.

Definition yields {A} (m : M A) (o : outcome A) : Prop := ∀ t, (m t).1 = o.

(** ** Steps shared by both revisions of the ask-bot handler *)
Module Edge.
Local Open Scope Qc_scope.

(** [Number(v)]. *)
Definition Number_ (w : world) (v : json) : number :=
  match v with
  | JNull => Fin 0
  | JBool b => Fin (if b then 1 else 0)
  | JNumber q => Fin q
  | JString _ | JArray _ | JObject _ => ToNumber_other w v
  end.

(** [body?.health === true]. *)
Definition health (body : json) : bool :=
  match Js.get body "health" with
  | Some (JBool true) => true
  | _ => false
  end.

(** [Math.max(1, Math.min(Number(body?.top_k ?? 10), 25))]. *)
Definition topK (w : world) (body : json) : number :=
  Js.Math_max (Fin (Qc_of_Z 1))
    (Js.Math_min
       (Number_ w (Js.nullish (Js.get body "top_k") (JNumber (Qc_of_Z 10))))
       (Fin (Qc_of_Z 25))).

(** A number inside the interval [1, 25]. *)
Definition in_1_25 (n : number) : Prop :=
  ∃ q, n = Fin q ∧ Qc_of_Z 1 ≤ q ∧ q ≤ Qc_of_Z 25.

(** [Number.isFinite(body?.key) ? body.key : d]. *)
Definition weight (body : json) (key : string) (d : Qc) : Qc :=
  match Js.get body key with
  | Some (JNumber q) => q
  | _ => d
  end.

(** [body?.session_id || crypto.randomUUID()]. *)
Definition sessionId (w : world) (body : json) : json :=
  match Js.get body "session_id" with
  | Some v => if Js.truthy (Some v) then v else JString (randomUUID w)
  | None => JString (randomUUID w)
  end.

Definition error_response {A} (st : N) (msg : string)
    (details : option json) (upstream : option N) : M A :=
  respond (json_response st (ErrorBody (lit msg) details upstream)).

(** [if (!query || typeof query !== "string")]. *)
Definition require_query (query : option json) : M str :=
  match query with
  | Some (JString q) =>
    if bool_decide (q = []) then error_response 400 "Missing 'query' (string)" None None
    else mret q
  | _ => error_response 400 "Missing 'query' (string)" None None
  end.

(** The three environment checks. *)
Definition require_env (w : world) : M unit :=
  let SUPABASE_URL := default [] (env w !! "SUPABASE_URL") in
  let SERVICE_ROLE :=
    match env w !! "SERVICE_ROLE_KEY" with
    | Some v => v
    | None => default [] (env w !! "SUPABASE_SERVICE_ROLE_KEY")
    end in
  let OPENAI_API_KEY := default [] (env w !! "OPENAI_API_KEY") in
  if bool_decide (SUPABASE_URL = []) then
    error_response 500 "Missing SUPABASE_URL env" None None
  else if bool_decide (SERVICE_ROLE = []) then
    error_response 500 "Missing SERVICE_ROLE_KEY env" None None
  else if bool_decide (OPENAI_API_KEY = []) then
    error_response 500 "Missing OPENAI_API_KEY env" None None
  else mret tt.

(** 1) Embed the normalized query. *)
Definition embed (w : world) (qNorm : str) : M (list Qc) :=
  _ ← perform (CallEmbeddings qNorm);
  match embeddings w qNorm with
  | EmbeddingsThrows e => throw e
  | EmbeddingsReplied _ (Some embedding) _ => mret embedding
  | EmbeddingsReplied st None err =>
    error_response 502 "Failed to get embedding"
      (Some (default JNull err)) (Some st)
  end.

(** 2) The hybrid search RPC; [hits] is [[]] when the data is not an
    array. *)
Definition search (w : world) (args : rpc_args) : M (list KBRow) :=
  _ ← perform (CallSearch args);
  match search_kb_hybrid_rpc w args with
  | RpcError msg =>
    error_response 502 "Hybrid search failed" (Some (JString msg)) None
  | RpcData rows => mret (default [] rows)
  end.

(** What the first half of the handler has established when the search
    has answered. *)
Record retrieved := {
  r_body : json;
  r_query : str;
  r_topK : number;
  r_sessionId : json;
  r_hits : list KBRow
}.

(** The handler from the method check to [hits] (the same statements in
    both revisions). *)
Definition retrieve (w : world) (req : request) : M retrieved :=
  if negb (String.eqb (method req) "POST") then
    respond (json_response 405 (ErrorBody (lit "Use POST") None None))
  else
    let body := default (JObject ∅) (json_body req) in
    if health body then respond (json_response 200 OkTrue)
    else
      let query := Js.get body "query" in
      let topK := topK w body in
      let w_semantic := weight body "w_semantic" (Q2Qc (55 # 100)) in
      let w_lexical := weight body "w_lexical" (Q2Qc (35 # 100)) in
      let w_trigram := weight body "w_trigram" (Q2Qc (1 # 10)) in
      let sessionId := sessionId w body in
      query ← require_query query;
      _ ← require_env w;
      let qNorm := normalizeLocal query in
      embedding ← embed w qNorm;
      hits ← search w {| q_text := qNorm; q_embedding := embedding;
                          arg_w_semantic := w_semantic;
                          arg_w_lexical := w_lexical;
                          arg_w_trigram := w_trigram;
                          arg_k := topK |};
      mret {| r_body := body; r_query := query; r_topK := topK;
              r_sessionId := sessionId; r_hits := hits |}.

(** [hits.slice(0, Math.min(hits.length, topK))]. *)
Definition topForLLM (hits : list KBRow) (topK : number) : list KBRow :=
  Js.slice_to hits (Js.Math_min (Js.of_nat (length hits)) topK).

(** [Number(r.score ?? 0)]. *)
Definition score_of (r : KBRow) : number := default (Fin 0) (row_score r).

(** [${r.content}]. *)
Definition content_text (r : KBRow) : str :=
  default (lit "undefined") (row_content r).

Definition marker (w : world) (i : nat) (r : KBRow) : str :=
  lit "[#" ++ Js.decimal (i + 1) ++ lit " | score="
  ++ toFixed3 w (score_of r) ++ lit "]".

Definition context_entry (w : world) (i : nat) (r : KBRow) : str :=
  marker w i r ++ Js.nl ++ content_text r.

Definition context (w : world) (topForLLM : list KBRow) : str :=
  Js.join (Js.nl ++ Js.nl) (imap (context_entry w) topForLLM).

(** 3) The chat completion call. *)
Definition chat (w : world) (req : chat_request) : M (option str) :=
  _ ← perform (CallChat req);
  match chat_completion w req with
  | ChatThrows e => throw e
  | ChatReplied content => mret content
  end.

Definition noAnswerPatterns : list regex :=
  [ chars_i "I don't know";
    chars_i "I couldn't find that";
    chars_i "I'm not sure";
    chars_i "I don't have information";
    chars_i "not in our knowledge base";
    chars_i "I don't have enough information";
    chars_i "I can't answer";
    chars_i "I can't provide";
    chars_i "I'm unable to" ].

(** [noAnswerPatterns.some(pattern => pattern.test(answer))]. *)
Definition non_answer (answer : str) : bool :=
  existsb (λ pattern, test pattern answer) noAnswerPatterns.

Definition safeUrl (r : KBRow) : str := default (lit "#") (source_url r).

(** 4) Citations that match [#1..#n]; [ellipsis] is the marker appended
    to a cut snippet. *)
Definition citation (ellipsis : str) (i : nat) (r : KBRow) : Citation :=
  {| index := i + 1;
     title := match source_title r with
              | Some t => if bool_decide (t = []) then lit "Knowledge Base Article" else t
              | None => lit "Knowledge Base Article"
              end;
     url := safeUrl r;
     snippet :=
       let c := default [] (row_content r) in
       take 240 c ++ (if bool_decide (240 < length c)%nat then ellipsis else []);
     cite_score := score_of r;
     cite_updated_at := updated_at r |}.

Definition citations (ellipsis : str) (topForLLM : list KBRow) : list Citation :=
  imap (citation ellipsis) topForLLM.

Definition insert (w : world) (row : chat_row) : M unit :=
  _ ← perform (CallInsert row);
  match insert_message w row with
  | Some e => throw e
  | None => mret tt
  end.

(** Storing the turn: failures are logged and swallowed. *)
Definition store (w : world) (sessionId : json) (query answer : str) : M unit :=
  if Js.truthy (Some sessionId) then
    try_catch
      (_ ← insert w {| row_session_id := sessionId; row_role := lit "user";
                       row_message := query; row_timestamp := clock w 0 |};
       insert w {| row_session_id := sessionId; row_role := lit "assistant";
                   row_message := answer; row_timestamp := clock w 1 |})
      (λ dbError, mret tt)
  else mret tt.

(** The outer [try]/[catch] and the preflight answer. *)
Definition run (handle : M response) : response * list call :=
  match try_catch handle
          (λ e, mret (json_response 500
                        (ErrorBody (lit "Unhandled error") (Some (JString e)) None)))
          [] with
  | (Value r, t) | (Returned r, t) => (r, t)
  | (Thrown e, t) =>
    (json_response 500 (ErrorBody (lit "Unhandled error") (Some (JString e)) None), t)
  end.

Definition serve_with (handle : request → M response) (req : request)
    : response * list call :=
  if String.eqb (method req) "OPTIONS" then (json_response 204 NoBody, [])
  else run (handle req).
End Edge.

(** ** [supabase/functions/ask-bot/index.ts] *)
Module AskBot.
Import Edge.
Local Open Scope Qc_scope.

Definition system : str :=
  lit "You are a concise support assistant. Answer using only CONTEXT. If unsure, say you don't know. Always cite like [#n].".

Definition prompt (query context : str) : str :=
  lit "USER QUESTION:" ++ Js.nl ++ query ++ Js.nl ++ Js.nl
  ++ lit "CONTEXT:" ++ Js.nl ++ context.

(** [content ?? (hits.length ? ... : ...)]. *)
Definition answer (content : option str) (hits : list KBRow) : str :=
  match content with
  | Some a => a
  | None =>
    if bool_decide (hits = []) then lit "I couldn't find that in our knowledge base."
    else lit "I don't know."
  end.

Definition needsHumanHelp (answer : str) (hits : list KBRow) : bool :=
  non_answer answer || bool_decide (length hits = O).

Definition ellipsis : str := [8230].

(** The body of the chat completion call. *)
Definition completion (w : world) (r : retrieved) : chat_request :=
  let topForLLM := topForLLM (r_hits r) (r_topK r) in
  let context := context w topForLLM in
  {| temperature := Q2Qc (2 # 10);
     messages := [ {| role := lit "system"; msg_content := system |};
                   {| role := lit "user";
                      msg_content := prompt (r_query r) context |} ] |}.

(** The success response, given the content of the chat reply. *)
Definition result (r : retrieved) (chatRes : option str) : AnswerResult :=
  let hits := r_hits r in
  let topForLLM := topForLLM hits (r_topK r) in
  let answer := answer chatRes hits in
  let needsHumanHelp := needsHumanHelp answer hits in
  let citations := citations ellipsis topForLLM in
  {| Api.answer := answer;
     Api.citations := citations;
     sources := hits;
     needs_human_help := needsHumanHelp;
     session_id := r_sessionId r |}.

(** The handler from the context block to the response. *)
Definition generate (w : world) (r : retrieved) : M response :=
  chatRes ← chat w (completion w r);
  _ ← store w (r_sessionId r) (r_query r) (answer chatRes (r_hits r));
  mret (json_response 200 (AnswerBody (result r chatRes))).

Definition handle (w : world) (req : request) : M response :=
  r ← retrieve w req; generate w r.

Definition serve (w : world) (req : request) : response * list call :=
  serve_with (handle w) req.
End AskBot.

(** ** The conversational revision of the ask-bot handler (the second
    document of the unnamed source file that holds two revisions of
    ask-bot/index.ts) *)
Module AskBotConversational.
Import Edge.
Local Open Scope Qc_scope.

Definition system : str :=
  Js.join Js.nl
  [ lit "You are TylerBot 5000, a friendly, helpful support assistant for a technology company that specializes in Control4 home automation systems. ";
    lit "      ";
    lit "Your primary goal is to provide accurate, helpful information based on the CONTEXT provided, but you should respond in a conversational, engaging manner.";
    [];
    lit "Guidelines:";
    lit "- Be warm and personable in your tone";
    lit "- Use simple, clear language that non-technical users can understand";
    lit "- When appropriate, ask clarifying questions to better understand the user's issue";
    lit "- Acknowledge the user's frustration or confusion when they're having problems";
    lit "- Always cite your sources using [#n] notation when providing technical information";
    lit "- If you don't know a technical answer, be honest and offer to create a support ticket";
    lit "- Maintain a helpful, positive tone throughout the conversation";
    [];
    lit "IMPORTANT: For basic social interactions (greetings, how are you, thanks, etc.), respond naturally without requiring CONTEXT. For example:";
    lit "- If asked " ++ Js.dq ++ lit "How are you?" ++ Js.dq ++ lit ", respond positively like " ++ Js.dq ++ lit "I'm doing great, thanks for asking! How can I help you today?" ++ Js.dq;
    lit "- If greeted with " ++ Js.dq ++ lit "Hello" ++ Js.dq ++ lit " or " ++ Js.dq ++ lit "Hi" ++ Js.dq ++ lit ", respond with a friendly greeting";
    lit "- If thanked, acknowledge with " ++ Js.dq ++ lit "You're welcome" ++ Js.dq ++ lit " or similar";
    lit "- If asked your name, remind them you are TylerBot 5000, a digital assistant";
    [];
    lit "For all technical questions about Control4, alarms, remotes, or system setup, use ONLY information from the provided CONTEXT and cite your sources.";
    [];
    lit "Remember that you're speaking with end users who may not be technically savvy, so avoid jargon unless it's in the CONTEXT." ].

(** [Number(body?.max_history ?? 4)]. *)
Definition maxHistoryMessages (w : world) (body : json) : number :=
  Number_ w (Js.nullish (Js.get body "max_history") (JNumber (Qc_of_Z 4))).

(** The history fetch: best effort, [[]] on any failure. *)
Definition conversationHistory (w : world) (sessionId : json)
    (maxHistoryMessages : number) : M (list message) :=
  if Js.truthy (Some sessionId) && Js.positive maxHistoryMessages then
    try_catch
      (let limit := Js.times maxHistoryMessages 2 in
       _ ← perform (CallHistory sessionId limit);
       match select_history w sessionId limit with
       | SelectThrows e => throw e
       | SelectError _ => mret []
       | SelectData None => mret []
       | SelectData (Some historyData) =>
         mret ((λ msg, {| role := role msg; msg_content := msg_content msg |})
               <$> historyData)
       end)
      (λ historyErr, mret [])
  else mret [].

Definition contextMessage (context : str) : str :=
  lit "CONTEXT:" ++ Js.nl ++ context.

(** The message sequence: the system instruction, the history window,
    the final user turn. *)
Definition messages (conversationHistory : list message)
    (maxHistoryMessages : number) (query context : str) : list message :=
  [ {| role := lit "system"; msg_content := system |} ]
  ++ (if bool_decide (0 < length conversationHistory)%nat
      then Js.slice_from conversationHistory
             (Js.times maxHistoryMessages (-2))
      else [])
  ++ [ {| role := lit "user";
          msg_content := query ++ Js.nl ++ Js.nl ++ contextMessage context |} ].

Definition answer (content : option str) (hits : list KBRow) : str :=
  match content with
  | Some a => a
  | None =>
    if bool_decide (hits = []) then
      lit "I couldn't find specific information about that in our knowledge base. Is there something else about your Control4 system I can help with?"
    else
      lit "I'm not sure about that, but I'd be happy to help with any Control4 or home automation questions you might have!"
  end.

Definition socialPatterns : list regex :=
  [ chars_i "how are you";
    chars_i "hello";
    chars_i "hi there";
    chars_i "good morning";
    chars_i "good afternoon";
    chars_i "good evening";
    chars_i "hey";
    chars_i "thanks";
    chars_i "thank you";
    chars_i "your name";
    chars_i "who are you";
    chars_i "what are you";
    chars_i "how is your day" ].

Definition isSocialQuestion (query : str) : bool :=
  existsb (λ pattern, test pattern query) socialPatterns.

Definition needsHumanHelp (query answer : str) (hits : list KBRow) : bool :=
  negb (isSocialQuestion query)
  && (non_answer answer || bool_decide (length hits = O)).

(** The cut-snippet marker as the file has it (three code units). *)
Definition ellipsis : str := [226; 8364; 166].

(** The body of the chat completion call. *)
Definition completion (w : world) (r : retrieved)
    (conversationHistory : list message) : chat_request :=
  let topForLLM := topForLLM (r_hits r) (r_topK r) in
  let context := context w topForLLM in
  {| temperature := Q2Qc (7 # 10);
     Api.messages :=
       messages conversationHistory (maxHistoryMessages w (r_body r))
         (r_query r) context |}.

(** The success response, given the content of the chat reply. *)
Definition result (r : retrieved) (chatRes : option str) : AnswerResult :=
  let hits := r_hits r in
  let topForLLM := topForLLM hits (r_topK r) in
  let answer := answer chatRes hits in
  let needsHumanHelp := needsHumanHelp (r_query r) answer hits in
  let citations := citations ellipsis topForLLM in
  {| Api.answer := answer;
     Api.citations := citations;
     sources := hits;
     needs_human_help := needsHumanHelp;
     session_id := r_sessionId r |}.

(** The handler from the context block to the response. *)
Definition generate (w : world) (r : retrieved) : M response :=
  conversationHistory ←
    conversationHistory w (r_sessionId r) (maxHistoryMessages w (r_body r));
  chatRes ← chat w (completion w r conversationHistory);
  _ ← store w (r_sessionId r) (r_query r) (answer chatRes (r_hits r));
  mret (json_response 200 (AnswerBody (result r chatRes))).

Definition handle (w : world) (req : request) : M response :=
  r ← retrieve w req; generate w r.

Definition serve (w : world) (req : request) : response * list call :=
  serve_with (handle w) req.
End AskBotConversational.

(** ** Concrete worlds and requests used as inputs below *)
Module Examples.
Local Open Scope Qc_scope.

Definition pad3 (s : str) : str :=
  replicate (3 - length s)%nat 48%N ++ s.

(** [toFixed(3)] on finite values below 10^21 (decimal notation, ties
    rounded up in magnitude), and on the non-finite values. *)
Definition toFixed3_decimal (n : number) : str :=
  match n with
  | NaN => lit "NaN"
  | PosInf => lit "Infinity"
  | NegInf => lit "-Infinity"
  | Fin q =>
    let a := Z.abs (Qnum q) in
    let d := Zpos (Qden q) in
    let m := ((2 * 1000 * a + d) / (2 * d))%Z in
    (if decide (q < 0) then lit "-" else [])
    ++ lit (pretty (m / 1000)%Z) ++ lit "."
    ++ pad3 (lit (pretty (m mod 1000)%Z))
  end.

Definition demo_env : gmap string str :=
  {[ "SUPABASE_URL" := lit "https://project.supabase.co";
     "SERVICE_ROLE_KEY" := lit "service-role";
     "OPENAI_API_KEY" := lit "sk-test" ]}.

(** A world whose services answer: the search returns [rows], the
    history query [history], the chat completion [reply].  None of the
    strings, arrays or objects of the requests below is numeric, so
    [ToNumber] of each is NaN. *)
Definition demo_world (rows : list KBRow) (history : select_outcome)
    (reply : chat_outcome) : world :=
  {| ToNumber_other := λ _, NaN;
     toFixed3 := toFixed3_decimal;
     env := demo_env;
     randomUUID := lit "3f2b6c1e-0000-4000-8000-000000000001";
     clock := λ n, lit "2025-01-01T00:00:0" ++ Js.decimal n ++ lit ".000Z";
     embeddings := λ _, EmbeddingsReplied 200 (Some [Q2Qc (1 # 10); Q2Qc (2 # 10)]) None;
     search_kb_hybrid_rpc := λ _, RpcData (Some rows);
     select_history := λ _ _, history;
     chat_completion := λ _, reply;
     insert_message := λ _, None |}.

Definition post (body : json) : request :=
  {| method := "POST"; origin := None; json_body := Some body |}.

Definition ask (query : string) : request :=
  post (JObject {[ "query" := JString (lit query) ]}).

Definition passage (text : string) (s : Qc) : KBRow :=
  {| row_id := None; row_content := Some (lit text); row_score := Some (Fin s);
     source_url := None; source_title := None; updated_at := None |}.

Definition two_passages : list KBRow :=
  [ passage "Hold the pairing button for five seconds." (Q2Qc (8125 # 10000));
    passage "Replace the batteries of the remote." (Q2Qc (1 # 2)) ].

(** Ten stored messages of one session, oldest first. *)
Definition turn (n : nat) : message :=
  {| role := if Nat.odd n then lit "user" else lit "assistant";
     msg_content := lit "message " ++ Js.decimal n |}.
Definition stored_turns : list message := turn <$> seq 1 10.

(** A world whose session store holds [stored_turns] for every session. *)
Definition history_world (reply : chat_outcome) : world :=
  {| ToNumber_other := λ _, NaN;
     toFixed3 := toFixed3_decimal;
     env := demo_env;
     randomUUID := lit "3f2b6c1e-0000-4000-8000-000000000001";
     clock := λ n, lit "2025-01-01T00:00:0" ++ Js.decimal n ++ lit ".000Z";
     embeddings := λ _, EmbeddingsReplied 200 (Some [Q2Qc (1 # 10); Q2Qc (2 # 10)]) None;
     search_kb_hybrid_rpc := λ _, RpcData (Some two_passages);
     select_history := λ _ limit, ascending_limit stored_turns limit;
     chat_completion := λ _, reply;
     insert_message := λ _, None |}.

(** A follow-up question in a session that has ten stored messages, with
    [max_history] 4. *)
Definition follow_up : request :=
  post (JObject {[ "query" := JString (lit "and the other remote?");
                   "session_id" := JString (lit "session-1");
                   "max_history" := JNumber (Qc_of_Z 4) ]}).
End Examples.

(** * More of the code: definitions *)

(** ** Shapes of normalized text *)

(** Every member of the class [p] in [o] is a blank, and no two members
    of the class are adjacent. *)
Definition single_spaced (p : N → bool) (o : str) : Prop :=
  Forall (λ c, p c = true → c = 32) o ∧
  ∀ i a b, o !! i = Some a → o !! S i = Some b → p a = true → p b = false.

(** [o] neither starts nor ends with a member of the class [p]. *)
Definition trimmed (p : N → bool) (o : str) : Prop :=
  (∀ x, head o = Some x → p x = false) ∧ (∀ x, last o = Some x → p x = false).

(** Basic Latin without capital letters. *)
Definition lower_ascii (c : N) : Prop := c < 128 ∧ is_upper c = false.

(** [s] contains [phrase], letters of Basic Latin compared without
    regard to case. *)
Definition contains_ci (phrase s : str) : Prop :=
  ∃ pre mid post,
    s = pre ++ mid ++ post ∧ map canonicalize mid = map canonicalize phrase.

(** The phrases of [noAnswerPatterns] and of [socialPatterns]. *)
Definition noAnswerPhrases : list string :=
  [ "I don't know"; "I couldn't find that"; "I'm not sure";
    "I don't have information"; "not in our knowledge base";
    "I don't have enough information"; "I can't answer"; "I can't provide";
    "I'm unable to" ].

Definition socialPhrases : list string :=
  [ "how are you"; "hello"; "hi there"; "good morning"; "good afternoon";
    "good evening"; "hey"; "thanks"; "thank you"; "your name"; "who are you";
    "what are you"; "how is your day" ].

(** ** Requests and configurations of the ask-bot handler, as the
    handler classifies them *)
Module Pipeline.
Import Edge.

(** [SERVICE_ROLE_KEY ?? SUPABASE_SERVICE_ROLE_KEY ?? ""]. *)
Definition service_role (w : world) : str :=
  match env w !! "SERVICE_ROLE_KEY" with
  | Some v => v
  | None => default [] (env w !! "SUPABASE_SERVICE_ROLE_KEY")
  end.

(** The three settings the handler checks are all non-empty. *)
Definition configured (w : world) : Prop :=
  default [] (env w !! "SUPABASE_URL") ≠ [] ∧
  service_role w ≠ [] ∧
  default [] (env w !! "OPENAI_API_KEY") ≠ [].

#[global] Instance configured_dec w : Decision (configured w).
Proof. unfold configured. apply _. Defined.

(** The parsed body (the empty object when parsing fails). *)
Definition body_of (req : request) : json :=
  default (JObject ∅) (json_body req).

(** A POST that is not a health check and carries the non-empty string
    [q] as its [query]. *)
Definition valid_query (req : request) (q : str) : Prop :=
  method req = "POST" ∧ health (body_of req) = false ∧
  Js.get (body_of req) "query" = Some (JString q) ∧ q ≠ [].

(** The arguments of the [search_kb_hybrid] call for the query [q] of
    [body] and its embedding. *)
Definition search_args (w : world) (body : json) (q : str)
    (embedding : list Qc) : rpc_args :=
  {| q_text := normalizeLocal q;
     q_embedding := embedding;
     arg_w_semantic := weight body "w_semantic" (Q2Qc (55 # 100));
     arg_w_lexical := weight body "w_lexical" (Q2Qc (35 # 100));
     arg_w_trigram := weight body "w_trigram" (Q2Qc (1 # 10));
     arg_k := topK w body |}.

(** What the first half of the handler hands to the second when the
    search has answered with [rows]. *)
Definition retrieved_of (w : world) (req : request) (q : str)
    (rows : option (list KBRow)) : retrieved :=
  {| r_body := body_of req; r_query := q;
     r_topK := topK w (body_of req);
     r_sessionId := sessionId w (body_of req);
     r_hits := default [] rows |}.

(** The two revisions of the handler. *)
Definition revision (serve : world → request → response * list call) : Prop :=
  serve = AskBot.serve ∨ serve = AskBotConversational.serve.

(** The service a call goes to. *)
Inductive service := Embeddings | Search | History | Chat | Insert.

#[global] Instance service_eq_dec : EqDecision service.
Proof. solve_decision. Defined.

Definition service_of (c : call) : service :=
  match c with
  | CallEmbeddings _ => Embeddings
  | CallSearch _ => Search
  | CallHistory _ _ => History
  | CallChat _ => Chat
  | CallInsert _ => Insert
  end.

(** The world [w] with another session store behind its inserts. *)
Definition with_insert_message (w : world) (f : chat_row → option str) : world :=
  {| ToNumber_other := ToNumber_other w;
     toFixed3 := toFixed3 w;
     env := env w;
     randomUUID := randomUUID w;
     clock := clock w;
     embeddings := embeddings w;
     search_kb_hybrid_rpc := search_kb_hybrid_rpc w;
     select_history := select_history w;
     chat_completion := chat_completion w;
     insert_message := f |}.

(** The rows the handler writes for one turn. *)
Definition user_row (w : world) (sessionId : json) (query : str) : chat_row :=
  {| row_session_id := sessionId; row_role := lit "user";
     row_message := query; row_timestamp := clock w 0 |}.
Definition assistant_row (w : world) (sessionId : json) (answer : str) : chat_row :=
  {| row_session_id := sessionId; row_role := lit "assistant";
     row_message := answer; row_timestamp := clock w 1 |}.

(** The inserts [Edge.store] makes: none without a session id, the
    user's row, and the assistant's row unless the first insert threw. *)
Definition store_calls (w : world) (sessionId : json) (query answer : str)
    : list call :=
  if Js.truthy (Some sessionId) then
    CallInsert (user_row w sessionId query)
    :: match insert_message w (user_row w sessionId query) with
       | Some _ => []
       | None => [CallInsert (assistant_row w sessionId answer)]
       end
  else [].

(** The history query [AskBotConversational.conversationHistory] makes,
    and the history it ends up with. *)
Definition history_calls (sessionId : json) (maxHistoryMessages : number)
    : list call :=
  if Js.truthy (Some sessionId) && Js.positive maxHistoryMessages
  then [CallHistory sessionId (Js.times maxHistoryMessages 2)]
  else [].

Definition fetched_history (w : world) (sessionId : json)
    (maxHistoryMessages : number) : list message :=
  if Js.truthy (Some sessionId) && Js.positive maxHistoryMessages then
    match select_history w sessionId (Js.times maxHistoryMessages 2) with
    | SelectData (Some historyData) => historyData
    | _ => []
    end
  else [].
End Pipeline.

(** ** More concrete worlds and requests *)
Module Examples2.
Import Examples.

Definition answering_world : world :=
  demo_world two_passages (SelectData None)
    (ChatReplied (Some (lit "Hold the pairing button [#1]."))).

Definition with_env (w : world) (e : gmap string str) : world :=
  {| ToNumber_other := ToNumber_other w;
     toFixed3 := toFixed3 w;
     env := e;
     randomUUID := randomUUID w;
     clock := clock w;
     embeddings := embeddings w;
     search_kb_hybrid_rpc := search_kb_hybrid_rpc w;
     select_history := select_history w;
     chat_completion := chat_completion w;
     insert_message := insert_message w |}.



End Examples2.

(** ** [corsHeaders] of ask-bot/index.ts (the same function is in
    create-ticket/index.ts) *)
Module Cors.

(** [String.prototype.split] with a separator of one code unit. *)
Fixpoint split (sep : N) (s : str) : list str :=
  match s with
  | [] => [[]]
  | x :: s' =>
    if x =? sep then [] :: split sep s'
    else match split sep s' with
         | h :: t => (x :: h) :: t
         | [] => [[x]]
         end
  end.

Record headers := {
  Access_Control_Allow_Origin : str;
  Access_Control_Allow_Methods : str;
  Access_Control_Allow_Headers : str;
  Vary : str;
  Content_Type : str
}.

(** [(Deno.env.get("ALLOWED_ORIGINS") || "").split(",")
      .map((s) => s.trim()).filter(Boolean)]. *)
Definition allowList (w : world) : list str :=
  filter (λ s, s ≠ [])
    (map (trim_both js_space)
       (split 44 (default [] (env w !! "ALLOWED_ORIGINS")))).

Definition corsHeaders (w : world) (origin : option str) : headers :=
  let allowList := allowList w in
  let allow :=
    if bool_decide (length allowList = 0%nat) then lit "*"
    else match origin with
         | Some o =>
           if negb (bool_decide (o = [])) && bool_decide (o ∈ allowList)
           then o else lit "null"
         | None => lit "null"
         end in
  {| Access_Control_Allow_Origin := allow;
     Access_Control_Allow_Methods := lit "POST, OPTIONS";
     Access_Control_Allow_Headers :=
       lit "authorization, apikey, content-type, x-client-info";
     Vary := lit "Origin";
     Content_Type := lit "application/json" |}.

(** A deployment that lists two origins. *)
Definition two_origins_env : gmap string str :=
  {[ "ALLOWED_ORIGINS" := lit "https://a.example, https://b.example" ]}.
End Cors.

(** ** The callers of the handler *)

(** [src/components/SupportBotWidget.tsx] *)
Module ReactWidget.

(** [escapeHtml]. *)
Definition escapeHtml (s : str) : str :=
  let s := replace_all [Chr 38] "&amp;" s in
  let s := replace_all [Chr 60] "&lt;" s in
  let s := replace_all [Chr 62] "&gt;" s in
  let s := replace_all [Chr 34] "&quot;" s in
  replace_all [Chr 39] "&#039;" s.

(** The text that stands for one code unit after [escapeHtml]. *)
Definition entity (c : N) : str :=
  if c =? 38 then lit "&amp;"
  else if c =? 60 then lit "&lt;"
  else if c =? 62 then lit "&gt;"
  else if c =? 34 then lit "&quot;"
  else if c =? 39 then lit "&#039;"
  else [c].

(** [String.prototype.replace] with a [g] regex and a replacement
    computed from the matched text (as [replace_from], which takes a
    literal replacement). *)
Fixpoint replace_with (r : regex) (f : str → str)
    (prev : option N) (skip : nat) (s : str) : str :=
  match s with
  | [] =>
    match skip, exec r prev [] with
    | O, Some _ => f []
    | _, _ => []
    end
  | x :: s' =>
    match skip with
    | S k => replace_with r f (Some x) k s'
    | O =>
      match exec r prev s with
      | Some (S n) => f (take (S n) s) ++ replace_with r f (Some x) n s'
      | Some O => f [] ++ x :: replace_with r f (Some x) O s'
      | None => x :: replace_with r f (Some x) O s'
      end
    end
  end.

(** [/\[#(\d+)\]/g]. *)
Definition re_marker : regex :=
  [Chr 91; Chr 35; Cls is_digit; Star is_digit; Chr 93].

(** [(_m, n) => `<sup>[${n}]</sup>`]: the group [n] is the match without
    its first two code units and its last one. *)
Definition sup (m : str) : str :=
  lit "<sup>[" ++ take (length m - 3) (drop 2 m) ++ lit "]</sup>".

(** [renderAnswerHtml]. *)
Definition renderAnswerHtml (raw : str) : str :=
  let safe := escapeHtml raw in
  let withSup := replace_with re_marker sup None 0 safe in
  replace_all [Chr 10] "<br/>" withSup.

(** The pieces a rendered answer is made of: a code unit that is none of
    [<], [>], the quotes and the line feed; a line break; a superscript
    marker around a decimal number. *)
Inductive piece : str → Prop :=
| piece_text c : c ∉ [60; 62; 34; 39; 10] → piece [c]
| piece_br : piece (lit "<br/>")
| piece_sup ds :
    ds ≠ [] → Forall (λ d, is_digit d = true) ds →
    piece (lit "<sup>[" ++ ds ++ lit "]</sup>").

(** The request [send] posts for the text of the input box, or nothing
    when the trimmed text is empty. *)
Definition send (origin : option str) (input sessionId : str) : option request :=
  let q := trim_both js_space input in
  if bool_decide (q = []) then None
  else Some {| method := "POST"; origin := origin;
               json_body := Some (JObject {[ "query" := JString q;
                                             "top_k" := JNumber (Qc_of_Z 10);
                                             "session_id" := JString sessionId ]}) |}.

(** [/^https?:\/\//i.test(u)]: the pattern is anchored at the start; its
    optional [s] is written as the two alternatives. *)
Definition is_http_url (u : str) : bool :=
  bool_decide (is_Some (exec (chars_i "https://") None u))
  || bool_decide (is_Some (exec (chars_i "http://") None u)).

(** [json.citations.filter((c) => c.url && /^https?:\/\//i.test(c.url))]. *)
Definition shown_citations (cs : list Citation) : list Citation :=
  filter (λ c, url c ≠ [] ∧ is_http_url (url c) = true) cs.

(** The session id the widget keeps after a response:
    [if (typeof json?.session_id === 'string' && json.session_id)
       setSessionId(json.session_id)]. *)
Definition next_session (sessionId : str) (resp : response) : str :=
  match body resp with
  | AnswerBody a =>
    match session_id a with
    | JString s => if bool_decide (s = []) then sessionId else s
    | _ => sessionId
    end
  | _ => sessionId
  end.
End ReactWidget.

(** [widget/supportbot.js] and its later revision (an unnamed source
    file) *)
Module PlainWidget.

(** The body the first revision posts: the question under [message]. *)
Definition ask_first (q sessionId : str) : request :=
  {| method := "POST"; origin := None;
     json_body := Some (JObject {[ "message" := JString q;
                                   "session_id" := JString sessionId ]}) |}.

(** [res.answer || "Sorry, I couldn't find that."] (the apostrophe of the
    source is U+2019). *)
Definition shown_answer (resp : response) : str :=
  match body resp with
  | AnswerBody a =>
    if bool_decide (answer a = [])
    then lit "Sorry, I couldn" ++ [8217] ++ lit "t find that."
    else answer a
  | _ => lit "Sorry, I couldn" ++ [8217] ++ lit "t find that."
  end.

(** [send.onclick]: the trimmed input, when it is not empty. *)
Definition send (input sessionId : str) : option request :=
  let q := trim_both js_space input in
  if bool_decide (q = []) then None else Some (ask_first q sessionId).

(** The later revision:
    [res.citations.map(c => c.url).filter(url => url && url !== '#')]. *)
Definition citeUrls (cs : list Citation) : list str :=
  filter (λ u, u ≠ [] ∧ u ≠ lit "#") (map url cs).
End PlainWidget.

(** A row of the table [search_kb_hybrid] returns, as the handler reads
    it: the function returns [id], [content], [score] and the three
    component scores, and none of [source_url], [source_title],
    [updated_at]. *)
Definition row_of_result (r : HybridSearch.result) : KBRow :=
  {| row_id := Some (JNumber (Qc_of_Z (HybridSearch.id r)));
     row_content := Some (HybridSearch.content r);
     row_score := Some (Fin (HybridSearch.score r));
     source_url := None; source_title := None; updated_at := None |}.

(** ** [chunk] of kb-sync/index.ts *)
Module KbSync.

(** The loop of [chunk] from position [i]; [fuel] bounds the number of
    iterations. *)
Fixpoint chunk_from (fuel : nat) (text : str) (max step i : nat) : list str :=
  match fuel with
  | O => []
  | S fuel =>
    if bool_decide (i < length text)%nat
    then take max (drop i text) :: chunk_from fuel text max step (i + step)
    else []
  end.

(** [chunk(text, max, overlap)] for non-negative integers [max] and
    [overlap]; the step is [Math.max(1, max - overlap)], so the loop ends
    within [text.length] iterations. *)
Definition chunk (text : str) (max overlap : nat) : list str :=
  chunk_from (length text) text max (Nat.max 1 (max - overlap)) 0.

(** Putting the chunks together again: the first chunk, then every later
    chunk without its overlap. *)
Definition reassemble (overlap : nat) (parts : list str) : str :=
  match parts with
  | [] => []
  | p :: ps => p ++ flat_map (drop overlap) ps
  end.
End KbSync.

(** ** [supabase/functions/create-ticket/index.ts]

    [createClient] is taken not to throw, as for the ask-bot handler. *)
Module CreateTicket.

Record ticket_data := {
  td_name : json;
  td_email : json;
  td_subject : json;
  td_description : str;
  td_status : N;
  td_priority : N;
  td_source : N;
  td_session_id : json     (* custom_fields.session_id *)
}.

Record freshdesk_request := {
  fd_url : str;
  fd_authorization : str;
  fd_body : ticket_data
}.

(** What [fetch] and [freshdeskResponse.json()] give; [ok] is a status
    from 200 to 299. *)
Inductive freshdesk_outcome :=
| FreshdeskThrows (e : str)
| FreshdeskReplied (http_status : N) (freshdeskResult : json).

Record ticket_row := {
  tr_session_id : json;
  tr_freshdesk_ticket_id : option json;
  tr_customer_name : json;
  tr_customer_email : json;
  tr_subject : json;
  tr_transcript : str;
  tr_created_at : str
}.

Inductive ticket_call :=
| CallFreshdesk (req : freshdesk_request)
| CallTicketInsert (row : ticket_row).

(** What reaches the [catch] block: an error the engine raises at the
    named expression, or the rejection of an awaited call. *)
Inductive thrown :=
| TypeError (at_ : string)
| RangeError (at_ : string)
| InvalidCharacterError (at_ : string)
| Rejected (e : str).

Inductive ticket_body :=
| TNoBody
| TError (error : str)
| TMissingFields (required : list str)
| TFreshdeskFailed (details : json)
| TUnhandled (e : thrown)
| TSuccess (ticket_id : option json) (ticket_url : str).

Record ticket_response := { t_status : N; t_body : ticket_body }.

Record ticket_world := {
  ct_env : gmap string str;                 (* Deno.env *)
  number_to_string : Qc → str;              (* Number::toString *)
  btoa : str → option str;                  (* [None]: a code unit above 255 *)
  stringify : json → str;                   (* JSON.stringify *)
  toISOString : str;                        (* new Date().toISOString() *)
  freshdesk : freshdesk_request → freshdesk_outcome;
  insert_ticket : ticket_row → option str   (* [Some e]: the insert throws *)
}.

Definition is_null (v : json) : bool :=
  match v with JNull => true | _ => false end.

(** ToString, as a template literal applies it; [None] when it throws
    (an object whose own [toString] is not callable, as every value of a
    parsed JSON text is). *)
Fixpoint ToString (w : ticket_world) (v : json) : option str :=
  match v with
  | JNull => Some (lit "null")
  | JBool b => Some (if b then lit "true" else lit "false")
  | JNumber q => Some (number_to_string w q)
  | JString s => Some s
  | JArray l =>
    Js.join (lit ",")
    <$> mapM (λ e, match e with JNull => Some [] | _ => ToString w e end) l
  | JObject fields =>
    match fields !! "toString" with
    | Some _ => None
    | None => Some (lit "[object Object]")
    end
  end.

Definition ToString_opt (w : ticket_world) (v : option json) : option str :=
  match v with
  | None => Some (lit "undefined")
  | Some v => ToString w v
  end.

(** One entry of the transcript; [None] when it throws ([msg] is null,
    or a conversion to string throws). *)
Definition format_message (w : ticket_world) (msg : json) : option str :=
  match msg with
  | JString s => Some s
  | JNull => None
  | _ =>
    timestamp ←
      (if Js.truthy (Js.get msg "timestamp")
       then ts ← ToString_opt w (Js.get msg "timestamp");
            Some (lit "[" ++ ts ++ lit "] ")
       else Some []);
    content ← ToString_opt w (Js.get msg "content");
    Some (timestamp
          ++ match Js.get msg "role" with
             | Some (JString role) =>
               if bool_decide (role = lit "user") then lit "Customer" else lit "Bot"
             | _ => lit "Bot"
             end
          ++ lit ": " ++ content)
  end.

(** [transcript.map(...).join("\n\n")]; [None] when it throws: the
    transcript is not an array, or an entry throws. *)
Definition formattedTranscript (w : ticket_world) (transcript : json)
    : option str :=
  match transcript with
  | JArray l => Js.join (Js.nl ++ Js.nl) <$> mapM (format_message w) l
  | _ => None
  end.

Definition ticketDescription (w : ticket_world) (description : json)
    (formattedTranscript : str) : option str :=
  description ← ToString w description;
  Some (Js.nl ++ description ++ Js.nl ++ Js.nl
        ++ lit "--- Chat Transcript ---" ++ Js.nl ++ Js.nl
        ++ formattedTranscript ++ Js.nl).

Definition required : list str :=
  [ lit "name"; lit "email"; lit "subject"; lit "description";
    lit "transcript"; lit "session_id" ].

Definition unhandled (e : thrown) (t : list ticket_call)
    : ticket_response * list ticket_call :=
  ({| t_status := 500; t_body := TUnhandled e |}, t).

(** The handler: the response and the calls it made, in order. *)
Definition serve (w : ticket_world) (req : request)
    : ticket_response * list ticket_call :=
  if String.eqb (method req) "OPTIONS" then
    ({| t_status := 204; t_body := TNoBody |}, [])
  else if negb (String.eqb (method req) "POST") then
    ({| t_status := 405; t_body := TError (lit "Use POST") |}, [])
  else
    let body := default (JObject ∅) (json_body req) in
    if is_null body then unhandled (TypeError "const { name, ... } = body") []
    else
      let name := Js.get body "name" in
      let email := Js.get body "email" in
      let subject := Js.get body "subject" in
      let description := Js.get body "description" in
      let transcript := Js.get body "transcript" in
      let session_id := Js.get body "session_id" in
      match name, email, subject, description, transcript, session_id with
      | Some name, Some email, Some subject, Some description,
        Some transcript, Some session_id =>
        if negb (Js.truthy (Some name)) || negb (Js.truthy (Some email))
           || negb (Js.truthy (Some subject))
           || negb (Js.truthy (Some description))
           || negb (Js.truthy (Some transcript))
           || negb (Js.truthy (Some session_id))
        then ({| t_status := 400; t_body := TMissingFields required |}, [])
        else
          let FRESHDESK_API_KEY := default [] (ct_env w !! "FRESHDESK_API_KEY") in
          let FRESHDESK_DOMAIN := default [] (ct_env w !! "FRESHDESK_DOMAIN") in
          let SUPABASE_URL := default [] (ct_env w !! "SUPABASE_URL") in
          let SERVICE_ROLE :=
            let k := default [] (ct_env w !! "SERVICE_ROLE_KEY") in
            if bool_decide (k = [])
            then default [] (ct_env w !! "SUPABASE_SERVICE_ROLE_KEY")
            else k in
          if bool_decide (FRESHDESK_API_KEY = [])
             || bool_decide (FRESHDESK_DOMAIN = [])
          then ({| t_status := 500;
                   t_body := TError (lit "Missing Freshdesk configuration") |}, [])
          else
            match formattedTranscript w transcript with
            | None => unhandled (TypeError "transcript.map") []
            | Some formatted =>
              match ticketDescription w description formatted with
              | None => unhandled (TypeError "${description}") []
              | Some ticketDescription =>
              match btoa w (FRESHDESK_API_KEY ++ lit ":X") with
              | None => unhandled (InvalidCharacterError "btoa") []
              | Some auth =>
                let fd :=
                  {| fd_url := lit "https://" ++ FRESHDESK_DOMAIN
                               ++ lit ".freshdesk.com/api/v2/tickets";
                     fd_authorization := lit "Basic " ++ auth;
                     fd_body :=
                       {| td_name := name; td_email := email;
                          td_subject := subject;
                          td_description := ticketDescription;
                          td_status := 2; td_priority := 2; td_source := 3;
                          td_session_id := session_id |} |} in
                match freshdesk w fd with
                | FreshdeskThrows e => unhandled (Rejected e) [CallFreshdesk fd]
                | FreshdeskReplied st freshdeskResult =>
                  if negb (in_range 200 299 st) then
                    (* new Response(..., { status: freshdeskResponse.status }) *)
                    if negb (in_range 200 599 st) then
                      unhandled (RangeError "new Response") [CallFreshdesk fd]
                    else if st =? 304 then
                      unhandled (TypeError "new Response") [CallFreshdesk fd]
                    else
                      ({| t_status := st;
                          t_body := TFreshdeskFailed freshdeskResult |},
                       [CallFreshdesk fd])
                  else
                    if is_null freshdeskResult then
                      unhandled (TypeError "freshdeskResult.id") [CallFreshdesk fd]
                    else
                      let id := Js.get freshdeskResult "id" in
                      let respond t :=
                        match ToString_opt w id with
                        | None => unhandled (TypeError "${freshdeskResult.id}") t
                        | Some id_text =>
                          ({| t_status := 200;
                              t_body :=
                                TSuccess id
                                  (lit "https://" ++ FRESHDESK_DOMAIN
                                   ++ lit ".freshdesk.com/a/tickets/"
                                   ++ id_text) |}, t)
                        end in
                      if negb (bool_decide (SUPABASE_URL = []))
                         && negb (bool_decide (SERVICE_ROLE = []))
                      then
                        let row :=
                          {| tr_session_id := session_id;
                             tr_freshdesk_ticket_id := id;
                             tr_customer_name := name;
                             tr_customer_email := email;
                             tr_subject := subject;
                             tr_transcript := stringify w transcript;
                             tr_created_at := toISOString w |} in
                        match insert_ticket w row with
                        | Some e =>
                          unhandled (Rejected e)
                            [CallFreshdesk fd; CallTicketInsert row]
                        | None => respond [CallFreshdesk fd; CallTicketInsert row]
                        end
                      else respond [CallFreshdesk fd]
                end
              end
              end
            end
      | _, _, _, _, _, _ =>
        ({| t_status := 400; t_body := TMissingFields required |}, [])
      end.

(** A field of the body is present and truthy. *)
Definition given (body : json) (key : string) : Prop :=
  Js.truthy (Js.get body key) = true.

(** A Freshdesk that accepts every ticket, and a request of the plain
    widget's ticket form. *)
Definition accepting_world : ticket_world :=
  {| ct_env := {[ "FRESHDESK_API_KEY" := lit "key";
                  "FRESHDESK_DOMAIN" := lit "support";
                  "SUPABASE_URL" := lit "https://project.supabase.co";
                  "SUPABASE_SERVICE_ROLE_KEY" := lit "service-role" ]};
     number_to_string := λ q, lit (pretty (Qnum q));
     btoa := λ s, Some s;
     stringify := λ _, lit "[]";
     toISOString := lit "2025-01-01T00:00:00.000Z";
     freshdesk := λ _, FreshdeskReplied 201 (JObject {[ "id" := JNumber (Qc_of_Z 42) ]});
     insert_ticket := λ _, None |}.

Definition form_request : request :=
  {| method := "POST"; origin := None;
     json_body := Some (JObject {[ "name" := JString (lit "Ada");
                                   "email" := JString (lit "ada@example.org");
                                   "subject" := JString (lit "Remote");
                                   "description" := JString (lit "It will not pair.");
                                   "transcript" := JArray [];
                                   "session_id" := JString (lit "s1") ]}) |}.
End CreateTicket.

(** * Properties *)

(** ** Hybrid retrieval *)
Module HybridSearchFacts.
Import HybridSearch.
Local Open Scope Qc_scope.

Lemma order_by_merge_sort {A} (R : relation A) `{∀ x y, Decision (R x y)} :
  Total R → ∀ l, order_by R l (merge_sort R l).
Proof.
  intros HT l. split.
  - apply merge_sort_Permutation.
  - by apply Sorted_merge_sort.
Qed.

Lemma order_by_elem_of {A} (R : relation A) l l' x :
  order_by R l l' → x ∈ l' → x ∈ l.
Proof. intros [Hp _] Hx. by rewrite <- Hp. Qed.

Lemma limit_length {A} (n : Z) (l : list A) :
  (length (limit n l) ≤ Z.to_nat n)%nat.
Proof. unfold limit. rewrite length_take. lia. Qed.

Lemma limit_elem_of {A} (n : Z) (l : list A) x : x ∈ limit n l → x ∈ l.
Proof. unfold limit. apply subseteq_take. Qed.

Lemma Sorted_take {A} (R : relation A) (l : list A) n :
  Sorted R l → Sorted R (take n l).
Proof.
  intros Hs. revert n. induction Hs as [|x l Hs IH Hhd]; intros [|n]; simpl;
    try constructor; auto.
  destruct Hhd as [|y l Hxy]; destruct n; simpl; constructor; done.
Qed.

(** Membership in a left join. *)
Lemma elem_of_left_join {A B} (on : A → B → bool) l r a o :
  (a, o) ∈ left_join on l r ↔
  a ∈ l ∧ match o with
          | None => ∀ b, b ∈ r → on a b = false
          | Some b => b ∈ r ∧ on a b = true
          end.
Proof.
  unfold left_join. rewrite list_elem_of_In, in_flat_map. split.
  - intros (a' & Ha' & Hin). apply list_elem_of_In in Ha', Hin.
    destruct (filter (λ b, on a' b = true) r) as [|m ms] eqn:Hf.
    + apply list_elem_of_singleton in Hin. injection Hin as -> ->.
      split; [done|].
      intros b Hb. destruct (on a' b) eqn:Hon; [|done].
      assert (b ∈ filter (λ b, on a' b = true) r) as Hbf
        by (apply list_elem_of_filter; done).
      rewrite Hf in Hbf. by apply elem_of_nil in Hbf.
    + apply list_elem_of_fmap in Hin as (b & Heq & Hb).
      injection Heq as -> ->.
      rewrite <- Hf in Hb. apply list_elem_of_filter in Hb as [Hon Hb]. done.
  - intros [Ha Ho]. exists a. split; [by apply list_elem_of_In|].
    apply list_elem_of_In.
    destruct (filter (λ b, on a b = true) r) as [|m ms] eqn:Hf.
    + destruct o as [b|].
      * destruct Ho as [Hb Hon].
        assert (b ∈ filter (λ b, on a b = true) r) as Hbf
          by (apply list_elem_of_filter; done).
        rewrite Hf in Hbf. by apply elem_of_nil in Hbf.
      * apply list_elem_of_singleton. done.
    + destruct o as [b|].
      * destruct Ho as [Hb Hon]. rewrite <- Hf.
        apply list_elem_of_fmap. exists b. split; [done|].
        apply list_elem_of_filter. done.
      * exfalso. assert (m ∈ filter (λ b, on a b = true) r) as Hm
          by (rewrite Hf; left).
        apply list_elem_of_filter in Hm as [Hon Hm].
        rewrite (Ho m Hm) in Hon. done.
Qed.

Section query_facts.
Variable cosine_distance : kb_chunk → Qc.
Variable tsv_matches : kb_chunk → bool.
Variable ts_rank_cd : kb_chunk → Qc.
Variable trgm_matches : kb_chunk → bool.
Variable similarity : kb_chunk → Qc.
Variables w_semantic w_lexical w_trigram : Qc.
Variable k : Z.

#[local] Abbreviation select := (select w_semantic w_lexical w_trigram).
#[local] Abbreviation rank_rel := (rank_rel w_semantic w_lexical w_trigram k).
#[local] Abbreviation candidates_rel :=
  (candidates_rel cosine_distance tsv_matches ts_rank_cd trgm_matches
     similarity k).
#[local] Abbreviation search_kb_hybrid_rel :=
  (search_kb_hybrid_rel cosine_distance tsv_matches ts_rank_cd trgm_matches
     similarity w_semantic w_lexical w_trigram k).
#[local] Abbreviation search_kb_hybrid :=
  (search_kb_hybrid cosine_distance tsv_matches ts_rank_cd trgm_matches
     similarity w_semantic w_lexical w_trigram k).

#[local] Instance flip_Qcle_trans : Transitive (flip Qcle).
Proof. intros x y z Hxy Hyz. unfold flip in *. by etrans. Qed.
#[local] Instance flip_Qcle_antisymm : AntiSymm (=) (flip Qcle).
Proof. intros x y Hxy Hyx. unfold flip in *. by apply Qcle_antisym. Qed.

(** The merge-sort instance is one of the admissible results. *)
Lemma candidates_of_rel kb :
  candidates_rel kb
    (candidates_of cosine_distance tsv_matches ts_rank_cd trgm_matches
       similarity k kb).
Proof.
  eexists _, _, _. repeat split; try reflexivity;
    first [ apply merge_sort_Permutation
          | apply Sorted_merge_sort; intros a b; apply Qc_le_total ].
Qed.

Lemma rank_sound kb c :
  rank_rel kb c (rank w_semantic w_lexical w_trigram k kb c).
Proof.
  eexists. split; [|reflexivity]. split.
  - apply merge_sort_Permutation.
  - apply Sorted_merge_sort. intros a b. apply Qc_le_total.
Qed.

Lemma search_kb_hybrid_sound kb out :
  search_kb_hybrid kb = Some out → search_kb_hybrid_rel kb out.
Proof.
  unfold HybridSearch.search_kb_hybrid. case_decide as Hk; [|done].
  intros [= <-]. split; [done|].
  eexists. split; [apply candidates_of_rel | apply rank_sound].
Qed.

Lemma rank_rel_sorted kb c out :
  rank_rel kb c out → Sorted by_score_desc out.
Proof. intros (f & [_ Hs] & ->). by apply Sorted_take. Qed.

Lemma rank_rel_scores kb c out out' :
  rank_rel kb c out → rank_rel kb c out' → score <$> out' = score <$> out.
Proof.
  intros (f & [Hp Hs] & ->) (f' & [Hp' Hs'] & ->).
  unfold limit. rewrite !fmap_take. f_equal.
  apply (Sorted_unique (flip Qcle)).
  - eapply Sorted_fmap; [|exact Hs']. by intros a b.
  - eapply Sorted_fmap; [|exact Hs]. by intros a b.
  - by rewrite Hp, Hp'.
Qed.

Lemma elem_of_fused kb c (f : fused_row) :
  f ∈ fused kb c →
  ∃ row, row ∈ kb ∧ f_id f = kb_id row ∧ f_content f = kb_content row ∧
         signal (sem c) (f_id f) (f_sem_score f) ∧
         signal (lex c) (f_id f) (f_lex_score f) ∧
         signal (tri c) (f_id f) (f_tri_score f).
Proof.
  unfold fused. intros Hf.
  apply list_elem_of_fmap in Hf as ([[[row s] l] t] & -> & Hj). simpl.
  apply elem_of_left_join in Hj as [Hj Ht].
  apply elem_of_left_join in Hj as [Hj Hl].
  apply elem_of_left_join in Hj as [Hrow Hs].
  assert (∀ cands (o : option candidate),
            match o with
            | None => ∀ b, b ∈ cands → (kb_id row =? b.1)%Z = false
            | Some b => b ∈ cands ∧ (kb_id row =? b.1)%Z = true
            end → signal cands (kb_id row) (coalesce o 0)) as Hsig.
  { intros cands [[i v]|] Ho; simpl in *.
    - destruct Ho as [Hin Heq]. apply Z.eqb_eq in Heq as ->. by left.
    - right. split; [|done]. intros Hin.
      apply list_elem_of_fmap in Hin as (b & Hb1 & Hb).
      specialize (Ho b Hb). apply Z.eqb_neq in Ho. done. }
  exists row. repeat split; auto.
Qed.

(** C2 (as amended): the rows returned by [search_kb_hybrid] are in
    non-increasing order of fused score and at most [k]; for fixed
    candidate lists every admissible result carries the same sequence of
    scores.  The order of rows with equal scores is not fixed. *)
Theorem search_kb_hybrid_nonincreasing kb out :
  search_kb_hybrid_rel kb out →
  StronglySorted by_score_desc out ∧
  (length out ≤ Z.to_nat k)%nat ∧
  ∀ c out', rank_rel kb c out → rank_rel kb c out' →
            score <$> out' = score <$> out.
Proof.
  intros (Hk & c & Hc & Hr). split; [|split].
  - apply Sorted_StronglySorted.
    + intros x y z Hxy Hyz. unfold by_score_desc in *. by etrans.
    + by eapply rank_rel_sorted.
  - destruct Hr as (f & _ & ->). apply limit_length.
  - intros c' out' H1 H2. by eapply rank_rel_scores.
Qed.

(** C7 (as amended): every returned row is a row of [kb_chunks]; each
    component score is the candidate's score when that signal surfaced
    the passage and 0 otherwise, and the fused score is their weighted
    sum.  Passages surfaced by no signal are not filtered out. *)
Theorem search_kb_hybrid_rows kb out r :
  search_kb_hybrid_rel kb out → r ∈ out →
  ∃ c row,
    candidates_rel kb c ∧ row ∈ kb ∧
    id r = kb_id row ∧ content r = kb_content row ∧
    signal (sem c) (id r) (sem_score r) ∧
    signal (lex c) (id r) (lex_score r) ∧
    signal (tri c) (id r) (tri_score r) ∧
    score r = w_semantic * sem_score r + w_lexical * lex_score r
              + w_trigram * tri_score r.
Proof.
  intros (Hk & c & Hc & f & Hf & ->) Hr.
  apply limit_elem_of in Hr. eapply order_by_elem_of in Hr; [|exact Hf].
  apply list_elem_of_fmap in Hr as (fr & -> & Hfr).
  apply elem_of_fused in Hfr as (row & Hrow & Hid & Hcontent & Hs & Hl & Ht).
  exists c, row. simpl. repeat split; auto.
Qed.
End query_facts.

Ltac qc_compare :=
  vm_compute; first [ discriminate | reflexivity | intros ?; discriminate ].

(** C2, counterexample: two passages with the same fused score.  Both
    orders are admissible results of the query; the one the merge-sort
    instance returns lists passage 2 before passage 1. *)
Lemma search_kb_hybrid_tie_not_by_id :
  ∃ out out',
    search_kb_hybrid_rel tie_distance no_match no_score no_match no_score
      (qc 55 100) (qc 35 100) (qc 1 10) 5 tie_kb out ∧
    search_kb_hybrid_rel tie_distance no_match no_score no_match no_score
      (qc 55 100) (qc 35 100) (qc 1 10) 5 tie_kb out' ∧
    search_kb_hybrid tie_distance no_match no_score no_match no_score
      (qc 55 100) (qc 35 100) (qc 1 10) 5 tie_kb = Some out ∧
    id <$> out = [2; 1]%Z ∧ id <$> out' = [1; 2]%Z ∧
    ¬ Sorted by_score_then_id out.
Proof.
  set (c := candidates_of tie_distance no_match no_score no_match no_score 5 tie_kb).
  set (f := merge_sort (by_score_desc)
              (select (qc 55 100) (qc 35 100) (qc 1 10) <$> fused tie_kb c)).
  exists (limit 5 f), (limit 5 (reverse f)).
  assert (Sorted by_score_desc (reverse f)) as Hrev.
  { vm_compute. repeat constructor. qc_compare. }
  split; [|split; [|split; [|split; [|split]]]].
  - apply search_kb_hybrid_sound. reflexivity.
  - split; [done|]. exists c. split; [apply candidates_of_rel|].
    exists (reverse f). split; [|reflexivity]. split; [|exact Hrev].
    rewrite reverse_Permutation. apply merge_sort_Permutation.
  - reflexivity.
  - vm_compute. reflexivity.
  - vm_compute. reflexivity.
  - intros Hs. apply Sorted_inv in Hs as [_ Hhd].
    cbv in Hhd. apply HdRel_inv in Hhd as [Hlt | [_ Hid]].
    + revert Hlt. qc_compare.
    + revert Hid. qc_compare.
Qed.

(** C7, counterexample: with the default weights and [k = 1], the ten
    nearest passages have similarity -1/2 and fused score -11/40, while
    passage 11, surfaced by no signal, has fused score 0 and is the row
    returned. *)
Lemma search_kb_hybrid_unsurfaced_row :
  ∃ c out r,
    candidates_rel far_distance no_match no_score no_match no_score 1 far_kb c ∧
    rank_rel (qc 55 100) (qc 35 100) (qc 1 10) 1 far_kb c out ∧
    search_kb_hybrid far_distance no_match no_score no_match no_score
      (qc 55 100) (qc 35 100) (qc 1 10) 1 far_kb = Some out ∧
    out = [r] ∧ id r = 11%Z ∧ score r = 0 ∧ ¬ surfaced c (id r).
Proof.
  set (c := candidates_of far_distance no_match no_score no_match no_score 1 far_kb).
  exists c, (rank (qc 55 100) (qc 35 100) (qc 1 10) 1 far_kb c).
  eexists. split; [apply candidates_of_rel|].
  split; [apply rank_sound|]. split; [reflexivity|].
  split; [vm_compute; reflexivity|].
  split; [reflexivity|]. split; [apply Qc_is_canon; reflexivity|].
  intros Hs. unfold surfaced in Hs. rewrite !list_elem_of_In in Hs.
  vm_compute in Hs. intuition discriminate.
Qed.

Lemma search_kb_hybrid_nonincreasing_witness :
  let out := rank (qc 55 100) (qc 35 100) (qc 1 10) 5 tie_kb
               (candidates_of tie_distance no_match no_score no_match no_score
                  5 tie_kb) in
  search_kb_hybrid_rel tie_distance no_match no_score no_match no_score
    (qc 55 100) (qc 35 100) (qc 1 10) 5 tie_kb out ∧
  StronglySorted by_score_desc out ∧ (length out ≤ Z.to_nat 5)%nat.
Proof.
  intros out.
  assert (search_kb_hybrid_rel tie_distance no_match no_score no_match no_score
            (qc 55 100) (qc 35 100) (qc 1 10) 5 tie_kb out) as H.
  { apply search_kb_hybrid_sound. reflexivity. }
  split; [exact H|].
  destruct (search_kb_hybrid_nonincreasing tie_distance no_match no_score
              no_match no_score (qc 55 100) (qc 35 100) (qc 1 10) 5
              tie_kb out H) as (Hs & Hl & _).
  split; [exact Hs|exact Hl].
Defined.

Lemma search_kb_hybrid_rows_witness :
  ∃ out r,
    search_kb_hybrid_rel far_distance no_match no_score no_match no_score
      (qc 55 100) (qc 35 100) (qc 1 10) 1 far_kb out ∧
    r ∈ out ∧
    ∃ c row,
      candidates_rel far_distance no_match no_score no_match no_score 1 far_kb c ∧
      row ∈ far_kb ∧ id r = kb_id row ∧ content r = kb_content row ∧
      signal (sem c) (id r) (sem_score r) ∧
      signal (lex c) (id r) (lex_score r) ∧
      signal (tri c) (id r) (tri_score r) ∧
      score r = qc 55 100 * sem_score r + qc 35 100 * lex_score r
                + qc 1 10 * tri_score r.
Proof.
  pose (out := rank (qc 55 100) (qc 35 100) (qc 1 10) 1 far_kb
                 (candidates_of far_distance no_match no_score no_match
                    no_score 1 far_kb)).
  assert (search_kb_hybrid_rel far_distance no_match no_score no_match no_score
            (qc 55 100) (qc 35 100) (qc 1 10) 1 far_kb out) as H.
  { apply search_kb_hybrid_sound. reflexivity. }
  destruct out as [|r out'] eqn:E; [vm_compute in E; discriminate E|].
  exists (r :: out'), r. split; [exact H|]. split; [left|].
  apply (search_kb_hybrid_rows far_distance no_match no_score no_match
           no_score (qc 55 100) (qc 35 100) (qc 1 10) 1 far_kb
           (r :: out') r H). left.
Defined.
End HybridSearchFacts.

(** ** The edge function: request parsing, context and citations *)
Module EdgeFacts.
Import Edge.
Local Open Scope Qc_scope.



Lemma clamp_in_range (n : number) :
  n ≠ NaN →
  in_1_25 (Js.Math_max (Fin (Qc_of_Z 1)) (Js.Math_min n (Fin (Qc_of_Z 25)))).
Proof.
  assert (Qc_of_Z 1 ≤ Qc_of_Z 25) as H125 by (by vm_compute).
  intros Hn. destruct n as [q| | |]; try done;
    unfold Js.Math_min, Js.Math_max; repeat case_decide;
    eexists; (split; [reflexivity|]); split; done || reflexivity.
Qed.

(** When [top_k] is absent or null the effective value is 10; when it is
    a JSON number it is that number clamped into [1, 25]; in both cases,
    and whenever the coercion of [top_k] is not NaN, the value lies in
    [1, 25]. *)
Lemma topK_numeric w body :
  match Js.get body "top_k" with
  | None | Some JNull => topK w body = Fin (Qc_of_Z 10)
  | Some (JNumber q) =>
    topK w body
    = Js.Math_max (Fin (Qc_of_Z 1)) (Js.Math_min (Fin q) (Fin (Qc_of_Z 25)))
    ∧ in_1_25 (topK w body)
  | Some v => Number_ w v ≠ NaN → in_1_25 (topK w body)
  end.
Proof.
  unfold topK. destruct (Js.get body "top_k") as [[]|] eqn:E;
    unfold Js.nullish, Number_.
  all: try (intros Hn; by apply clamp_in_range).
  all: try (split; [reflexivity|]; by apply clamp_in_range).
  all: by vm_compute.
Qed.
End EdgeFacts.

(** ** Rules of the two judgments *)
Module Rules.

Lemma hoare_ret {A} (a : A) (Q : A → Prop) R C :
  Q a → hoare (mret a) Q R C.
Proof. intros Ha t. split; [|done]. exists []. by rewrite app_nil_r. Qed.

Lemma hoare_respond {A} (r : response) (Q : A → Prop) (R : response → Prop) C :
  R r → hoare (respond r) Q R C.
Proof. intros Hr t. split; [|done]. exists []. by rewrite app_nil_r. Qed.

Lemma hoare_throw {A} (e : str) (Q : A → Prop) R C :
  hoare (throw e) Q R C.
Proof. intros t. split; [|done]. exists []. by rewrite app_nil_r. Qed.

Lemma hoare_perform (c : call) (Q : unit → Prop) R (C : call → Prop) :
  C c → Q tt → hoare (perform c) Q R C.
Proof. intros Hc HQ t. split; [|done]. exists [c]. split; [done|]. by constructor. Qed.

Lemma hoare_bind {A B} (m : M A) (f : A → M B) (Q' : A → Prop) Q R C :
  hoare m Q' R C → (∀ a, Q' a → hoare (f a) Q R C) → hoare (m ≫= f) Q R C.
Proof.
  intros Hm Hf t. specialize (Hm t). unfold mbind, M_bind.
  destruct (m t) as [[a|r|e] t'] eqn:E; simpl in *;
    destruct Hm as [(new & -> & Hnew) Hout]; try (split; [eauto|done]).
  specialize (Hf a Hout (t ++ new)).
  destruct Hf as [(new' & -> & Hnew') Hout']. split; [|done].
  exists (new ++ new'). rewrite app_assoc. split; [done|].
  by apply Forall_app.
Qed.

Lemma hoare_try_catch {A} (m : M A) (h : str → M A) Q R C :
  hoare m Q R C → (∀ e, hoare (h e) Q R C) → hoare (try_catch m h) Q R C.
Proof.
  intros Hm Hh t. specialize (Hm t). unfold try_catch.
  destruct (m t) as [[a|r|e] t'] eqn:E; simpl in *;
    destruct Hm as [(new & -> & Hnew) Hout]; try (split; [eauto|done]).
  specialize (Hh e (t ++ new)).
  destruct Hh as [(new' & -> & Hnew') Hout']. split; [|done].
  exists (new ++ new'). rewrite app_assoc. split; [done|].
  by apply Forall_app.
Qed.

Lemma hoare_weaken {A} (m : M A) (Q Q' : A → Prop) R C :
  hoare m Q' R C → (∀ a, Q' a → Q a) → hoare m Q R C.
Proof.
  intros Hm HQ t. specialize (Hm t) as [Ht Hout]. split; [done|].
  destruct (m t).1; auto.
Qed.

Lemma yields_ret {A} (a : A) : yields (mret a) (Value a).
Proof. by intros t. Qed.

Lemma yields_respond {A} r : yields (@respond A r) (Returned r).
Proof. by intros t. Qed.

Lemma yields_throw {A} e : yields (@throw A e) (Thrown e).
Proof. by intros t. Qed.

Lemma yields_perform c : yields (perform c) (Value tt).
Proof. by intros t. Qed.

Lemma yields_bind {A B} (m : M A) (f : A → M B) a o :
  yields m (Value a) → yields (f a) o → yields (m ≫= f) o.
Proof.
  intros Hm Hf t. specialize (Hm t). unfold mbind, M_bind.
  destruct (m t) as [out t']. simpl in Hm. subst out. apply Hf.
Qed.

Lemma yields_bind_returned {A B} (m : M A) (f : A → M B) r :
  yields m (Returned r) → yields (m ≫= f) (Returned r).
Proof.
  intros Hm t. specialize (Hm t). unfold mbind, M_bind.
  destruct (m t) as [out t']. simpl in Hm. by subst out.
Qed.

Lemma yields_bind_thrown {A B} (m : M A) (f : A → M B) e :
  yields m (Thrown e) → yields (m ≫= f) (Thrown e).
Proof.
  intros Hm t. specialize (Hm t). unfold mbind, M_bind.
  destruct (m t) as [out t']. simpl in Hm. by subst out.
Qed.

Lemma yields_try_catch_value {A} (m : M A) h a :
  yields m (Value a) → yields (try_catch m h) (Value a).
Proof.
  intros Hm t. specialize (Hm t). unfold try_catch.
  destruct (m t) as [out t']. simpl in Hm. by subst out.
Qed.

Lemma yields_try_catch_thrown {A} (m : M A) h e o :
  yields m (Thrown e) → yields (h e) o → yields (try_catch m h) o.
Proof.
  intros Hm Hh t. specialize (Hm t). unfold try_catch.
  destruct (m t) as [out t']. simpl in Hm. subst out. apply Hh.
Qed.

(** The response of the whole handler. *)
Lemma run_value handle r :
  yields handle (Value r) → (Edge.run handle).1 = r.
Proof.
  intros H. unfold Edge.run.
  pose proof (yields_try_catch_value handle
    (λ e, mret (json_response 500
                  (ErrorBody (lit "Unhandled error") (Some (JString e)) None)))
    r H []) as Hr.
  destruct (try_catch _ _ []) as [[?|?|?] ?]; simpl in *; congruence.
Qed.

Lemma run_returned handle r :
  yields handle (Returned r) → (Edge.run handle).1 = r.
Proof.
  intros H. unfold Edge.run, try_catch. specialize (H []).
  destruct (handle []) as [[?|?|?] ?]; simpl in *; congruence.
Qed.

Lemma run_thrown handle e :
  yields handle (Thrown e) →
  (Edge.run handle).1
  = json_response 500 (ErrorBody (lit "Unhandled error") (Some (JString e)) None).
Proof.
  intros H. unfold Edge.run, try_catch. specialize (H []).
  destruct (handle []) as [[?|?|?] ?]; simpl in *; simplify_eq. done.
Qed.

Lemma run_hoare handle (R : response → Prop) C :
  hoare handle R R C →
  (R (Edge.run handle).1 ∨
   ∃ e, (Edge.run handle).1
        = json_response 500 (ErrorBody (lit "Unhandled error") (Some (JString e)) None))
  ∧ Forall C (Edge.run handle).2.
Proof.
  intros H. unfold Edge.run, try_catch. specialize (H []).
  destruct (handle []) as [[r|r|e] t]; simpl in *;
    destruct H as [(new & -> & Hnew) Hout]; eauto.
Qed.
End Rules.

(** ** The steps of the handler *)
Module StepFacts.
Import Edge Rules.

(** A property of responses that every error response satisfies. *)
Abbreviation error_ok R :=
  (∀ st e d u, R (json_response st (ErrorBody e d u))).

Section steps.
Context (w : world) (R : response → Prop) (C : call → Prop).
Hypothesis Herr : error_ok R.

Lemma hoare_require_query query (Q : str → Prop) :
  (∀ q, query = Some (JString q) → q ≠ [] → Q q) →
  hoare (require_query query) Q R C.
Proof.
  intros HQ. unfold require_query, error_response.
  destruct query as [[| | |q| |]|]; try by apply hoare_respond.
  case_bool_decide; [by apply hoare_respond|]. apply hoare_ret. by apply HQ.
Qed.

Lemma hoare_require_env (Q : unit → Prop) :
  Q tt → hoare (require_env w) Q R C.
Proof.
  intros HQ. unfold require_env, error_response.
  repeat case_bool_decide; try by apply hoare_respond. by apply hoare_ret.
Qed.

Lemma hoare_embed qNorm (Q : list Qc → Prop) :
  C (CallEmbeddings qNorm) → (∀ e, Q e) → hoare (embed w qNorm) Q R C.
Proof.
  intros HC HQ. unfold embed, error_response.
  eapply hoare_bind; [by apply (hoare_perform _ (λ _, True))|]. intros _ _.
  destruct (embeddings w qNorm) as [e|st [emb|] err].
  - apply hoare_throw.
  - by apply hoare_ret.
  - by apply hoare_respond.
Qed.

Lemma hoare_search args (Q : list KBRow → Prop) :
  C (CallSearch args) →
  (∀ rows, search_kb_hybrid_rpc w args = RpcData rows → Q (default [] rows)) →
  hoare (search w args) Q R C.
Proof.
  intros HC HQ. unfold search, error_response.
  eapply hoare_bind; [by apply (hoare_perform _ (λ _, True))|]. intros _ _.
  destruct (search_kb_hybrid_rpc w args) as [msg|rows].
  - by apply hoare_respond.
  - apply hoare_ret. by apply HQ.
Qed.

Lemma hoare_chat creq (Q : option str → Prop) :
  C (CallChat creq) →
  (∀ content, chat_completion w creq = ChatReplied content → Q content) →
  hoare (chat w creq) Q R C.
Proof.
  intros HC HQ. unfold chat.
  eapply hoare_bind; [by apply (hoare_perform _ (λ _, True))|]. intros _ _.
  destruct (chat_completion w creq) as [e|content].
  - apply hoare_throw.
  - apply hoare_ret. by apply HQ.
Qed.

Lemma hoare_insert row (Q : unit → Prop) :
  C (CallInsert row) → Q tt → hoare (insert w row) Q R C.
Proof.
  intros HC HQ. unfold insert.
  eapply hoare_bind; [by apply (hoare_perform _ (λ _, True))|]. intros _ _.
  destruct (insert_message w row); [apply hoare_throw | by apply hoare_ret].
Qed.

Lemma hoare_store sessionId query answer (Q : unit → Prop) :
  (∀ row, C (CallInsert row)) → Q tt →
  hoare (store w sessionId query answer) Q R C.
Proof.
  intros HC HQ. unfold store.
  destruct (Js.truthy (Some sessionId)); [|by apply hoare_ret].
  apply hoare_try_catch; [|intros e; by apply hoare_ret].
  eapply hoare_bind; [by apply (hoare_insert _ (λ _, True))|]. intros _ _.
  by apply hoare_insert.
Qed.

Lemma hoare_conversationHistory sessionId n (Q : list message → Prop) :
  (∀ s l, C (CallHistory s l)) → (∀ h, Q h) →
  hoare (AskBotConversational.conversationHistory w sessionId n) Q R C.
Proof.
  intros HC HQ. unfold AskBotConversational.conversationHistory.
  destruct (_ && _); [|by apply hoare_ret].
  apply hoare_try_catch; [|intros e; by apply hoare_ret].
  eapply hoare_bind; [by apply (hoare_perform _ (λ _, True))|]. intros _ _.
  destruct (select_history w sessionId _) as [e|msg|[h|]];
    [apply hoare_throw | by apply hoare_ret..].
Qed.

(** The first half of the handler: what is known of its result, and
    that its search call carries the effective top-K. *)
Lemma hoare_retrieve req :
  let body := default (JObject ∅) (json_body req) in
  R (json_response 200 OkTrue) →
  (∀ input, C (CallEmbeddings input)) →
  (∀ args, arg_k args = topK w body → C (CallSearch args)) →
  hoare (retrieve w req)
    (λ r, r_body r = body ∧
          Js.get body "query" = Some (JString (r_query r)) ∧
          r_query r ≠ [] ∧
          r_topK r = topK w body ∧
          r_sessionId r = sessionId w body)
    R C.
Proof.
  intros body Hok Hemb Hsearch. unfold retrieve. fold body.
  destruct (negb _); [by apply hoare_respond|].
  destruct (health body); [by apply hoare_respond|].
  eapply hoare_bind; [apply (hoare_require_query _
    (λ q, Js.get body "query" = Some (JString q) ∧ q ≠ [])); by auto|].
  intros q [Hq Hne].
  eapply hoare_bind; [by apply (hoare_require_env (λ _, True))|]. intros _ _.
  eapply hoare_bind; [by apply (hoare_embed _ (λ _, True))|]. intros emb _.
  eapply hoare_bind;
    [apply (hoare_search _ (λ _, True)); [by apply Hsearch|done]|].
  intros hits _. by apply hoare_ret.
Qed.
End steps.
End StepFacts.

(** ** The handler as a whole *)
Module HandlerFacts.
Import Edge Rules StepFacts EdgeFacts Examples.
Local Open Scope Qc_scope.

Lemma yields_chat_replied w creq content :
  chat_completion w creq = ChatReplied content →
  yields (chat w creq) (Value content).
Proof.
  intros H. unfold chat. eapply yields_bind; [apply yields_perform|].
  rewrite H. apply yields_ret.
Qed.

Lemma yields_chat_throws w creq e :
  chat_completion w creq = ChatThrows e → yields (chat w creq) (Thrown e).
Proof.
  intros H. unfold chat. eapply yields_bind; [apply yields_perform|].
  rewrite H. apply yields_throw.
Qed.

(** Storing the turn never fails the request. *)
Lemma yields_store w sessionId query answer :
  yields (store w sessionId query answer) (Value tt).
Proof.
  intros t. unfold store, try_catch, insert, perform, throw, mbind, M_bind,
    mret, M_ret.
  destruct (Js.truthy _); [|done].
  repeat (destruct (insert_message w _); simpl; try done).
Qed.

(** The history fetch never fails the request. *)
Lemma yields_conversationHistory w sessionId n :
  ∃ h, yields (AskBotConversational.conversationHistory w sessionId n) (Value h) ∧
       (Js.truthy (Some sessionId) && Js.positive n = true →
        match select_history w sessionId (Js.times n 2) with
        | SelectData (Some historyData) => h = historyData
        | _ => h = []
        end).
Proof.
  unfold AskBotConversational.conversationHistory, try_catch, perform, throw,
    mbind, M_bind, mret, M_ret, yields.
  destruct (_ && _); [|by exists []].
  destruct (select_history w sessionId _) as [e|msg|[h|]] eqn:E; simpl.
  - by exists [].
  - by exists [].
  - exists ((λ msg, {| role := role msg; msg_content := msg_content msg |}) <$> h).
    split; [done|]. intros _. rewrite <- (list_fmap_id h) at 2.
    apply list_fmap_ext. by intros i [] _.
  - by exists [].
Qed.

Lemma serve_POST handle req :
  method req = "POST" → serve_with handle req = run (handle req).
Proof. intros H. unfold serve_with. by rewrite H. Qed.


(** *** What a success response is made of *)

Lemma AskBot_hoare_generate w r (R : response → Prop) (C : call → Prop) :
  (∀ creq, C (CallChat creq)) → (∀ row, C (CallInsert row)) →
  (∀ content, chat_completion w (AskBot.completion w r) = ChatReplied content →
              R (json_response 200 (AnswerBody (AskBot.result r content)))) →
  hoare (AskBot.generate w r) R R C.
Proof.
  intros Hchat Hins HR. unfold AskBot.generate.
  eapply hoare_bind; [by apply (hoare_chat w R C _
    (λ content, chat_completion w (AskBot.completion w r) = ChatReplied content))|].
  intros content Hc.
  eapply hoare_bind; [by apply (hoare_store w R C _ _ _ (λ _, True))|].
  intros _ _. apply hoare_ret. by apply HR.
Qed.

Lemma AskBotConversational_hoare_generate w r (R : response → Prop)
    (C : call → Prop) :
  (∀ creq, C (CallChat creq)) → (∀ row, C (CallInsert row)) →
  (∀ s l, C (CallHistory s l)) →
  (∀ content, R (json_response 200
                   (AnswerBody (AskBotConversational.result r content)))) →
  hoare (AskBotConversational.generate w r) R R C.
Proof.
  intros Hchat Hins Hhist HR. unfold AskBotConversational.generate.
  eapply hoare_bind;
    [by apply (hoare_conversationHistory w R C _ _ (λ _, True))|].
  intros h _.
  eapply hoare_bind; [by apply (hoare_chat w R C _ (λ _, True))|].
  intros content _.
  eapply hoare_bind; [by apply (hoare_store w R C _ _ _ (λ _, True))|].
  intros _ _. by apply hoare_ret.
Qed.

(** Every success response of [AskBot.serve] is [AskBot.result] of a
    validated request and the chat reply. *)
Lemma AskBot_answer_inv w req st a :
  (AskBot.serve w req).1 = json_response st (AnswerBody a) →
  let body := default (JObject ∅) (json_body req) in
  ∃ r content,
    r_body r = body ∧ Js.get body "query" = Some (JString (r_query r)) ∧
    r_query r ≠ [] ∧ r_topK r = topK w body ∧
    r_sessionId r = sessionId w body ∧
    chat_completion w (AskBot.completion w r) = ChatReplied content ∧
    st = 200%N ∧ a = AskBot.result r content.
Proof.
  intros Hserve body. unfold AskBot.serve, serve_with in Hserve.
  destruct (String.eqb (method req) "OPTIONS"); [done|].
  destruct (run_hoare (AskBot.handle w req)
    (λ resp, ∀ st a, resp = json_response st (AnswerBody a) →
       ∃ r content,
         r_body r = body ∧ Js.get body "query" = Some (JString (r_query r)) ∧
         r_query r ≠ [] ∧ r_topK r = topK w body ∧
         r_sessionId r = sessionId w body ∧
         chat_completion w (AskBot.completion w r) = ChatReplied content ∧
         st = 200%N ∧ a = AskBot.result r content)
    (λ _, True)) as [[HR|[e He]] _].
  - unfold AskBot.handle. eapply hoare_bind.
    + apply hoare_retrieve; done.
    + intros r (Hb & Hq & Hne & Hk & Hs).
      apply AskBot_hoare_generate; try done.
      intros content Hc st' a' [= <- <-]. by exists r, content.
  - by apply HR.
  - rewrite He in Hserve. done.
Qed.

Lemma AskBotConversational_answer_inv w req st a :
  (AskBotConversational.serve w req).1 = json_response st (AnswerBody a) →
  let body := default (JObject ∅) (json_body req) in
  ∃ r content,
    r_body r = body ∧ Js.get body "query" = Some (JString (r_query r)) ∧
    r_query r ≠ [] ∧ r_topK r = topK w body ∧
    r_sessionId r = sessionId w body ∧
    st = 200%N ∧ a = AskBotConversational.result r content.
Proof.
  intros Hserve body. unfold AskBotConversational.serve, serve_with in Hserve.
  destruct (String.eqb (method req) "OPTIONS"); [done|].
  destruct (run_hoare (AskBotConversational.handle w req)
    (λ resp, ∀ st a, resp = json_response st (AnswerBody a) →
       ∃ r content,
         r_body r = body ∧ Js.get body "query" = Some (JString (r_query r)) ∧
         r_query r ≠ [] ∧ r_topK r = topK w body ∧
         r_sessionId r = sessionId w body ∧
         st = 200%N ∧ a = AskBotConversational.result r content)
    (λ _, True)) as [[HR|[e He]] _].
  - unfold AskBotConversational.handle. eapply hoare_bind.
    + apply hoare_retrieve; done.
    + intros r (Hb & Hq & Hne & Hk & Hs).
      apply AskBotConversational_hoare_generate; try done.
      intros content st' a' [= <- <-]. by exists r, content.
  - by apply HR.
  - rewrite He in Hserve. done.
Qed.

(** The search call of either revision carries the effective top-K. *)
Lemma search_call_k w req args :
  CallSearch args ∈ (AskBot.serve w req).2 ∨
  CallSearch args ∈ (AskBotConversational.serve w req).2 →
  arg_k args = topK w (default (JObject ∅) (json_body req)).
Proof.
  set (body := default (JObject ∅) (json_body req)).
  set (C := λ c, ∀ args, c = CallSearch args → arg_k args = topK w body).
  assert (∀ t, Forall C t → CallSearch args ∈ t → arg_k args = topK w body)
    as Hall.
  { intros t Ht Hin. rewrite Forall_forall in Ht. by apply (Ht _ Hin). }
  unfold AskBot.serve, AskBotConversational.serve, serve_with.
  destruct (String.eqb (method req) "OPTIONS");
    [intros [H|H]; by apply elem_of_nil in H|].
  intros [Hin|Hin]; eapply Hall; try exact Hin.
  - apply (run_hoare _ (λ _, True) C). unfold AskBot.handle.
    eapply hoare_bind.
    + apply hoare_retrieve; try done. intros a Ha ? [= <-]. done.
    + intros r _. by apply AskBot_hoare_generate.
  - apply (run_hoare _ (λ _, True) C). unfold AskBotConversational.handle.
    eapply hoare_bind.
    + apply hoare_retrieve; try done. intros a Ha ? [= <-]. done.
    + intros r _. by apply AskBotConversational_hoare_generate.
Qed.

(** Inside the request type: when the body has no [top_k] (or a null
    one) the effective top-K is 10; when [top_k] is a number it is that
    number clamped into [1, 25]; in both cases the value lies in [1, 25],
    and it is the [k] of the search call. *)
Lemma topK_default_and_clamp w req :
  let body := default (JObject ∅) (json_body req) in
  (Js.get body "top_k" = None ∨ Js.get body "top_k" = Some JNull ∨
   ∃ q, Js.get body "top_k" = Some (JNumber q)) →
  in_1_25 (topK w body) ∧
  (Js.get body "top_k" = None ∨ Js.get body "top_k" = Some JNull →
   topK w body = Fin (Qc_of_Z 10)) ∧
  (∀ q, Js.get body "top_k" = Some (JNumber q) →
        topK w body
        = Fin (if decide (q ≤ Qc_of_Z 1) then Qc_of_Z 1
               else if decide (Qc_of_Z 25 ≤ q) then Qc_of_Z 25 else q)) ∧
  (∀ args, CallSearch args ∈ (AskBot.serve w req).2 ∨
           CallSearch args ∈ (AskBotConversational.serve w req).2 →
           arg_k args = topK w body).
Proof.
  intros body Hnum. pose proof (topK_numeric w body) as Hk.
  split; [|split; [|split]].
  - destruct Hnum as [H|[H|[q H]]]; rewrite H in Hk.
    + rewrite Hk. exists (Qc_of_Z 10).
      split; [reflexivity|split; by vm_compute].
    + rewrite Hk. exists (Qc_of_Z 10).
      split; [reflexivity|split; by vm_compute].
    + by destruct Hk.
  - intros [H|H]; by rewrite H in Hk.
  - intros q H. rewrite H in Hk. destruct Hk as [-> _].
    unfold Js.Math_min, Js.Math_max. f_equal.
    assert (Qc_of_Z 1 ≤ Qc_of_Z 25) as H125 by (by vm_compute).
    destruct (decide (q ≤ Qc_of_Z 25)) as [Hle|Hgt].
    + destruct (decide (Qc_of_Z 1 ≤ q)) as [H1|H1].
      * destruct (decide (q ≤ Qc_of_Z 1)); [by apply Qcle_antisym|].
        destruct (decide (Qc_of_Z 25 ≤ q)); [by apply Qcle_antisym|done].
      * destruct (decide (q ≤ Qc_of_Z 1)) as [Ha|Ha]; [done|].
        exfalso. apply Ha. apply Qclt_le_weak. by apply Qclt_nge.
    + rewrite decide_True by done.
      destruct (decide (q ≤ Qc_of_Z 1)) as [Ha|Ha].
      { exfalso. apply Hgt. by etrans. }
      destruct (decide (Qc_of_Z 25 ≤ q)) as [Hb|Hb]; [done|].
      exfalso. apply Hb. apply Qclt_le_weak. by apply Qclt_nge.
  - apply search_call_k.
Qed.

(** A [top_k] that does not convert to a number is not clamped. *)
Lemma topK_non_numeric w body v :
  Js.get body "top_k" = Some v → Number_ w v = NaN → topK w body = NaN.
Proof.
  intros Hv Hn. unfold topK. rewrite Hv.
  destruct v; simpl in *; try done; by rewrite Hn.
Qed.

(** C9, on index.ts: the body carries [top_k: "abc"]; [Number("abc")] is
    NaN, [Math.min] and [Math.max] propagate it, and the search is called
    with [k = NaN] instead of a value in [1, 25]. *)
Theorem topK_not_clamped_when_not_a_number :
  let w := demo_world two_passages (SelectData None)
             (ChatReplied (Some (lit "Hold the pairing button."))) in
  let req := post (JObject {[ "query" := JString (lit "remote");
                              "top_k" := JString (lit "abc") ]}) in
  ToNumber_other w (JString (lit "abc")) = NaN ∧
  topK w (default (JObject ∅) (json_body req)) = NaN ∧
  ∃ args, (AskBot.serve w req).2 !! 1%nat = Some (CallSearch args) ∧
          arg_k args = NaN.
Proof.
  split; [reflexivity|]. split; [by vm_compute|].
  eexists. split; [vm_compute; reflexivity|]. reflexivity.
Qed.

(** *** Context block and citations *)

Lemma trunc_of_nat (n : nat) : Js.trunc (Qc_of_Z (Z.of_nat n)) = Z.of_nat n.
Proof. unfold Js.trunc. simpl. apply Z.quot_1_r. Qed.

Lemma topForLLM_all (hits : list KBRow) (k : number) :
  Js.le (Js.of_nat (length hits)) k = true → topForLLM hits k = hits.
Proof.
  intros Hle. unfold topForLLM.
  assert (Js.Math_min (Js.of_nat (length hits)) k = Js.of_nat (length hits))
    as ->.
  { unfold Js.of_nat in *. destruct k as [q| | |]; simpl in *; try done.
    apply bool_decide_eq_true in Hle. by rewrite decide_True. }
  unfold Js.slice_to, Js.of_nat, Js.relative_index. rewrite trunc_of_nat.
  destruct (Z.ltb_spec (Z.of_nat (length hits)) 0); [lia|].
  rewrite Z.min_id, Nat2Z.id. by apply take_ge.
Qed.




(** In a success response of index.ts the citations are those of the
    returned sources, in their order, whenever the search returned at most
    top-K rows. *)
Lemma AskBot_citations w req st a :
  (AskBot.serve w req).1 = json_response st (AnswerBody a) →
  Js.le (Js.of_nat (length (sources a)))
        (topK w (default (JObject ∅) (json_body req))) = true →
  Api.citations a = imap (citation AskBot.ellipsis) (sources a).
Proof.
  intros Hs Hle. apply AskBot_answer_inv in Hs
    as (r & content & _ & _ & _ & Hk & _ & _ & _ & ->).
  simpl in *. rewrite <- Hk in Hle. by rewrite (topForLLM_all _ _ Hle).
Qed.

(** *** Handoff *)

(** The conversational revision: the handoff flag of every success
    response is [NOT social AND (non-answer OR no hits)]. *)
Lemma AskBotConversational_handoff w req st a :
  (AskBotConversational.serve w req).1 = json_response st (AnswerBody a) →
  ∃ q, Js.get (default (JObject ∅) (json_body req)) "query" = Some (JString q) ∧
       needs_human_help a
       = negb (AskBotConversational.isSocialQuestion q)
         && (non_answer (answer a) || bool_decide (length (sources a) = O)).
Proof.
  intros Hs. apply AskBotConversational_answer_inv in Hs
    as (r & content & _ & Hq & _ & _ & _ & _ & ->).
  by exists (r_query r).
Qed.

(** index.ts: the handoff flag of every success response is
    [non-answer OR no hits]; the query is not looked at. *)
Lemma AskBot_handoff w req st a :
  (AskBot.serve w req).1 = json_response st (AnswerBody a) →
  needs_human_help a
  = non_answer (answer a) || bool_decide (length (sources a) = O).
Proof.
  intros Hs. apply AskBot_answer_inv in Hs
    as (r & content & _ & _ & _ & _ & _ & _ & _ & ->). done.
Qed.

Example conversational_greeting :
  ∃ a, (AskBotConversational.serve
          (demo_world [] (SelectData None)
             (ChatReplied (Some (lit "Hello! How can I help you today?"))))
          (ask "hi there")).1 = json_response 200 (AnswerBody a) ∧
       sources a = [] ∧ needs_human_help a = false.
Proof. eexists. split; [vm_compute; reflexivity|]. done. Qed.

Example conversational_technical :
  ∃ a, (AskBotConversational.serve
          (demo_world [] (SelectData None)
             (ChatReplied (Some (lit "Try holding the pairing button."))))
          (ask "my remote won't pair")).1 = json_response 200 (AnswerBody a) ∧
       sources a = [] ∧ needs_human_help a = true.
Proof. eexists. split; [vm_compute; reflexivity|]. done. Qed.

(** C1, on index.ts: the query "hi there" matches the social patterns,
    the search returns no candidate and the reply is a plain greeting, yet
    the response carries [needs_human_help = true]; the conversational
    revision answers the same request with [false]. *)
Theorem AskBot_greeting_flagged :
  let w := demo_world [] (SelectData None)
             (ChatReplied (Some (lit "Hello! How can I help you today?"))) in
  AskBotConversational.isSocialQuestion (lit "hi there") = true ∧
  ∃ a a',
    (AskBot.serve w (ask "hi there")).1 = json_response 200 (AnswerBody a) ∧
    sources a = [] ∧ non_answer (answer a) = false ∧
    needs_human_help a = true ∧
    (AskBotConversational.serve w (ask "hi there")).1
    = json_response 200 (AnswerBody a') ∧
    needs_human_help a' = false.
Proof.
  split; [by vm_compute|]. eexists _, _.
  split; [vm_compute; reflexivity|]. split; [done|]. split; [by vm_compute|].
  split; [done|]. split; [vm_compute; reflexivity|]. done.
Qed.

(** *** Failure of the generation service *)

Lemma fallback_flagged (hits : list KBRow) :
  AskBot.needsHumanHelp (AskBot.answer None hits) hits = true.
Proof.
  unfold AskBot.needsHumanHelp, AskBot.answer.
  destruct hits as [|r hits]; [done|].
  rewrite bool_decide_eq_false_2 by done. by vm_compute.
Qed.

(** C5 (as amended), on index.ts, for a request that reaches the
    generation call: when the call throws, the response is 500 "Unhandled
    error"; when it replies, the response is 200, and a reply without
    content is replaced by a fallback answer flagged for handoff. *)
Theorem generation_failure_outcomes w req r :
  method req = "POST" →
  yields (retrieve w req) (Value r) →
  match chat_completion w (AskBot.completion w r) with
  | ChatThrows e =>
    (AskBot.serve w req).1
    = json_response 500 (ErrorBody (lit "Unhandled error") (Some (JString e)) None)
  | ChatReplied content =>
    (AskBot.serve w req).1 = json_response 200 (AnswerBody (AskBot.result r content)) ∧
    (content = None →
     answer (AskBot.result r content)
     = (if bool_decide (r_hits r = [])
        then lit "I couldn't find that in our knowledge base."
        else lit "I don't know.") ∧
     needs_human_help (AskBot.result r content) = true)
  end.
Proof.
  intros Hm Hr. unfold AskBot.serve. rewrite serve_POST by done.
  unfold AskBot.handle.
  destruct (chat_completion w (AskBot.completion w r)) as [e|content] eqn:E.
  - apply run_thrown. eapply yields_bind; [exact Hr|].
    unfold AskBot.generate. apply yields_bind_thrown.
    by apply yields_chat_throws.
  - split.
    + apply run_value. eapply yields_bind; [exact Hr|].
      unfold AskBot.generate.
      eapply yields_bind; [by apply yields_chat_replied|].
      eapply yields_bind; [apply yields_store|]. apply yields_ret.
    + intros ->. split; [done|]. apply fallback_flagged.
Qed.

(** C5, counterexample: the completion payload has no content; the
    request is answered 200 with the fallback "I don't know.". *)
Lemma generation_without_content_is_200 :
  ∃ a, (AskBot.serve (demo_world two_passages (SelectData None) (ChatReplied None))
          (ask "my remote won't pair")).1
       = json_response 200 (AnswerBody a) ∧
       answer a = lit "I don't know." ∧ needs_human_help a = true.
Proof. eexists. split; [vm_compute; reflexivity|]. split; by vm_compute. Qed.

(** *** Conversation history *)

(** A failed history fetch (a thrown error, an error result, or no data)
    is not fatal: generation runs on the system instruction and the user
    turn alone, and the request is answered normally. *)
Lemma history_failure_not_fatal w req r content :
  method req = "POST" →
  yields (retrieve w req) (Value r) →
  match select_history w (r_sessionId r)
          (Js.times (AskBotConversational.maxHistoryMessages w (r_body r)) 2) with
  | SelectData (Some _) => False
  | _ => True
  end →
  chat_completion w (AskBotConversational.completion w r []) = ChatReplied content →
  (AskBotConversational.serve w req).1
  = json_response 200 (AnswerBody (AskBotConversational.result r content)) ∧
  length (messages (AskBotConversational.completion w r [])) = 2%nat.
Proof.
  intros Hm Hr Hsel Hchat. split; [|done].
  unfold AskBotConversational.serve. rewrite serve_POST by done.
  unfold AskBotConversational.handle. apply run_value.
  eapply yields_bind; [exact Hr|]. unfold AskBotConversational.generate.
  destruct (yields_conversationHistory w (r_sessionId r)
              (AskBotConversational.maxHistoryMessages w (r_body r)))
    as (h & Hh & Hcase).
  assert (h = []) as ->.
  { unfold AskBotConversational.conversationHistory in Hh.
    destruct (_ && _) eqn:Hc.
    - specialize (Hcase eq_refl).
      destruct (select_history w _ _) as [?|?|[?|]]; done.
    - specialize (Hh []). by injection Hh. }
  eapply yields_bind; [exact Hh|].
  eapply yields_bind; [by apply yields_chat_replied|].
  eapply yields_bind; [apply yields_store|]. apply yields_ret.
Qed.

Lemma trunc_of_Z (z : Z) : Js.trunc (Qc_of_Z z) = z.
Proof. unfold Js.trunc. simpl. apply Z.quot_1_r. Qed.

(** The history window of the conversational revision: when the session
    holds [rows] (oldest first) and [max_history] is the positive integer
    [n], the messages sent to generation are the system instruction, the
    first [2 n] of [rows], and the user turn. *)
Lemma history_is_oldest_prefix w r rows (n : nat) :
  Js.truthy (Some (r_sessionId r)) = true →
  AskBotConversational.maxHistoryMessages w (r_body r) = Fin (Qc_of_Z (Z.of_nat n)) →
  (0 < n)%nat →
  select_history w (r_sessionId r) = ascending_limit rows →
  ∃ h,
    yields (AskBotConversational.conversationHistory w (r_sessionId r)
              (AskBotConversational.maxHistoryMessages w (r_body r))) (Value h) ∧
    h = take (2 * n) rows ∧
    drop 1 (messages (AskBotConversational.completion w r h))
    = take (2 * n) rows
      ++ [ {| role := lit "user";
              msg_content :=
                r_query r ++ Js.nl ++ Js.nl
                ++ AskBotConversational.contextMessage
                     (context w (topForLLM (r_hits r) (r_topK r))) |} ].
Proof.
  intros Hs Hmax Hn Hsel.
  destruct (yields_conversationHistory w (r_sessionId r)
              (AskBotConversational.maxHistoryMessages w (r_body r)))
    as (h & Hh & Hcase).
  assert (Js.times (Fin (Qc_of_Z (Z.of_nat n))) 2 = Fin (Qc_of_Z (Z.of_nat (2 * n))))
    as Htimes.
  { unfold Js.times. f_equal.
    replace (Z.of_nat (2 * n)) with (Z.of_nat n * 2)%Z by lia.
    by rewrite Z2Qc_inj_mul, Z2Qc_inj_2. }
  assert (Js.times (Fin (Qc_of_Z (Z.of_nat n))) (-2)
          = Fin (Qc_of_Z (- Z.of_nat (2 * n)))) as Hneg.
  { unfold Js.times. f_equal.
    replace (- Z.of_nat (2 * n))%Z with (Z.of_nat n * -2)%Z by lia.
    rewrite Z2Qc_inj_mul. f_equal. }
  rewrite Hmax in Hcase. rewrite Hs in Hcase. simpl andb in Hcase.
  assert (Js.positive (Fin (Qc_of_Z (Z.of_nat n))) = true) as Hpos.
  { unfold Js.positive. apply bool_decide_eq_true. rewrite <- Z2Qc_inj_0.
    apply (proj1 (Z2Qc_inj_lt 0 (Z.of_nat n))). lia. }
  specialize (Hcase Hpos). rewrite Htimes, Hsel in Hcase.
  unfold ascending_limit in Hcase. rewrite trunc_of_Z, Nat2Z.id in Hcase.
  subst h.
  exists (take (2 * n) rows). split; [done|]. split; [done|].
  unfold AskBotConversational.completion. cbn [messages].
  rewrite Hmax. unfold AskBotConversational.messages. rewrite Hneg.
  remember (2 * n)%nat as m eqn:Em.
  change (drop 1 ([?x] ++ ?l)) with l. f_equal.
  case_bool_decide as Hlen.
  - unfold Js.slice_from, Js.relative_index. rewrite trunc_of_Z.
    destruct (Z.ltb_spec (- Z.of_nat m) 0) as [Hlt|Hge]; [|lia].
    rewrite length_take. replace (Z.to_nat _) with O by lia. done.
  - destruct (take m rows); [done|]. simpl in Hlen. lia.
Qed.

(** C6, on the conversational revision: the session holds ten messages
    and [max_history] is 4; the generation call receives messages 1 to 8
    (the oldest eight), while the most recent eight are messages 3
    to 10. *)
Theorem history_window_is_oldest :
  let w := history_world (ChatReplied (Some (lit "Use the same steps."))) in
  ∃ creq,
    chat_requests (AskBotConversational.serve w follow_up).2 = [creq] ∧
    length (messages creq) = 10%nat ∧
    take 8 (drop 1 (messages creq)) = turn <$> seq 1 8 ∧
    drop 2 stored_turns = turn <$> seq 3 8 ∧
    turn <$> seq 1 8 ≠ turn <$> seq 3 8.
Proof.
  eexists. split; [vm_compute; reflexivity|].
  split; [by vm_compute|]. split; [by vm_compute|]. split; [by vm_compute|].
  vm_compute. discriminate.
Qed.

(** *** The theorems above at concrete inputs *)



Lemma generation_failure_outcomes_witness :
  let w := demo_world two_passages (SelectData None) (ChatReplied None) in
  let req := ask "my remote won't pair" in
  let body := default (JObject ∅) (json_body req) in
  let r := {| r_body := body; r_query := lit "my remote won't pair";
              r_topK := topK w body; r_sessionId := sessionId w body;
              r_hits := two_passages |} in
  method req = "POST" ∧ yields (retrieve w req) (Value r) ∧
  (AskBot.serve w req).1 = json_response 200 (AnswerBody (AskBot.result r None)).
Proof.
  intros w req body r.
  assert (yields (retrieve w req) (Value r)) as Hy by (intros t; reflexivity).
  split; [reflexivity|]. split; [exact Hy|].
  exact (proj1 (generation_failure_outcomes w req r eq_refl Hy)).
Defined.
End HandlerFacts.

(** ** Normalization *)
Module NormalizeFacts.

Example normalizeLocal_control4 :
  normalizeLocal (lit "  Control 4   App  won't login ")
  = lit "control4 app won't login".
Proof. reflexivity. Qed.

Example normalizeLocal_variants :
  normalizeLocal (lit "OS v3 and 4 Sight on Control4")
  = lit "os3 and 4sight on control4".
Proof. reflexivity. Qed.

Example normalizeLocal_accents :
  normalizeLocal [67; 97; 102; 233] = lit "cafe".
Proof. reflexivity. Qed.

Example normalize_text_wordb_variants :
  Sql.normalize_text_wordb (Some (lit " I can't log in to C4 "))
  = lit "i cannot login to control4".
Proof. reflexivity. Qed.

Example normalize_text_backspace_reading :
  Sql.normalize_text (Some (lit " I can't log in to C4 "))
  = lit "i can't log in to c4".
Proof. reflexivity. Qed.

(** C4: the two normalizers disagree.  On tab + "a" the edge function
    gives "a" and the database function " a" (it trims blanks only, and
    before collapsing whitespace), under either reading of [\b]; under
    the word-boundary reading they also disagree on "c4", under
    PostgreSQL's reading on "control 4". *)
Theorem normalizeLocal_normalize_text_differ :
  normalizeLocal [9; 97] = lit "a" ∧
  Sql.normalize_text (Some [9; 97]) = lit " a" ∧
  Sql.normalize_text_wordb (Some [9; 97]) = lit " a" ∧
  normalizeLocal (lit "c4") = lit "c4" ∧
  Sql.normalize_text_wordb (Some (lit "c4")) = lit "control4" ∧
  normalizeLocal (lit "control 4") = lit "control4" ∧
  Sql.normalize_text (Some (lit "control 4")) = lit "control 4".
Proof. repeat split; reflexivity. Qed.

(** C8: neither normalizer is idempotent.  The database function maps
    tab + "a" to " a" and " a" to "a" (either reading of [\b]); the edge
    function maps U+2122 to "TM" (NFKD after lower-casing) and "TM" to
    "tm". *)
Theorem normalize_not_idempotent :
  Sql.normalize_text (Some [9; 97]) = lit " a" ∧
  Sql.normalize_text (Some (Sql.normalize_text (Some [9; 97]))) = lit "a" ∧
  Sql.normalize_text_wordb (Some [9; 97]) = lit " a" ∧
  Sql.normalize_text_wordb (Some (Sql.normalize_text_wordb (Some [9; 97]))) = lit "a" ∧
  normalizeLocal [8482] = lit "TM" ∧
  normalizeLocal (normalizeLocal [8482]) = lit "tm".
Proof. repeat split; reflexivity. Qed.
End NormalizeFacts.

(** * Properties of more of the code *)

Module RegexFacts.

Lemma exec_cls p prev s :
  exec [Cls p] prev s
  = match s with x :: _ => if p x then Some 1%nat else None | [] => None end.
Proof. destruct s as [|x s]; simpl; [done|]. by destruct (p x). Qed.

Lemma replace_from_cls p rep s prev :
  replace_from [Cls p] rep prev 0 s
  = flat_map (λ x, if p x then rep else [x]) s.
Proof.
  revert prev. induction s as [|x s IH]; intros prev; [done|].
  cbn [replace_from]. rewrite exec_cls. cbn [flat_map].
  destruct (p x); rewrite IH; done.
Qed.

(** Every code unit of the result of a replacement comes from the input
    or from the replacement text. *)
Lemma replace_from_Forall (P : N → Prop) r rep s prev k :
  Forall P rep → Forall P s → Forall P (replace_from r rep prev k s).
Proof.
  intros Hrep. revert prev k. induction s as [|x s IH]; intros prev k Hs.
  - simpl. destruct k, (exec r prev []); done.
  - apply Forall_cons in Hs as [Hx Hs]. cbn [replace_from].
    destruct k as [|k]; [|by apply IH].
    destruct (exec r prev (x :: s)) as [[|n]|].
    + apply Forall_app. split; [done|]. constructor; [done|]. by apply IH.
    + apply Forall_app. split; [done|]. by apply IH.
    + constructor; [done|]. by apply IH.
Qed.

Lemma trim_start_length p s : (length (trim_start p s) ≤ length s)%nat.
Proof. induction s as [|x s IH]; simpl; [done|]. destruct (p x); simpl; lia. Qed.

Lemma trim_start_drop p s :
  trim_start p s = drop (length s - length (trim_start p s)) s.
Proof.
  induction s as [|x s IH]; [done|]. simpl. destruct (p x) eqn:E.
  - pose proof (trim_start_length p s).
    replace (S (length s) - length (trim_start p s))%nat
      with (S (length s - length (trim_start p s))) by lia.
    simpl. done.
  - simpl. by rewrite Nat.sub_diag.
Qed.

Lemma trim_start_head p s x : head (trim_start p s) = Some x → p x = false.
Proof.
  induction s as [|y s IH]; simpl; [done|]. destruct (p y) eqn:E; [done|].
  simpl. by intros [= <-].
Qed.

Lemma trim_start_Forall p s : Forall (λ c, p c = true) s → trim_start p s = [].
Proof. induction 1 as [|x s Hx _ IH]; simpl; [done|]. by rewrite Hx. Qed.

Lemma trim_start_id p s :
  (∀ x, head s = Some x → p x = false) → trim_start p s = s.
Proof. destruct s as [|x s]; simpl; [done|]. intros H. by rewrite (H x). Qed.

Lemma exec_star p prev s :
  exec [Star p] prev s = Some (length s - length (trim_start p s))%nat.
Proof.
  revert prev. induction s as [|y s IH]; intros prev; [done|].
  change (exec [Star p] prev (y :: s))
    with (if p y then
            match exec [Star p] (Some y) s with
            | Some n => Some (S n)
            | None => exec [] prev (y :: s)
            end
          else exec [] prev (y :: s)).
  rewrite IH. cbn [trim_start]. destruct (p y).
  - pose proof (trim_start_length p s). f_equal. simpl. lia.
  - simpl. by rewrite Nat.sub_diag.
Qed.

(** [\s+] at a position: the whole run of class members. *)
Lemma exec_plus p prev s :
  exec [Cls p; Star p] prev s
  = match s with
    | x :: s' =>
      if p x then Some (S (length s' - length (trim_start p s'))) else None
    | [] => None
    end.
Proof.
  destruct s as [|x s]; [done|].
  change (exec [Cls p; Star p] prev (x :: s))
    with (if p x then S <$> exec [Star p] (Some x) s else None).
  rewrite exec_star. done.
Qed.

Lemma replace_from_plus_prev p rep s k prev prev' :
  replace_from [Cls p; Star p] rep prev k s
  = replace_from [Cls p; Star p] rep prev' k s.
Proof.
  destruct s as [|x s]; cbn [replace_from]; rewrite ?exec_plus; done.
Qed.

Lemma replace_from_plus_skip p rep s k prev :
  (k ≤ length s)%nat →
  replace_from [Cls p; Star p] rep prev k s
  = replace_from [Cls p; Star p] rep None 0 (drop k s).
Proof.
  revert k prev. induction s as [|x s IH]; intros k prev Hk.
  - simpl in Hk. replace k with 0%nat by lia. done.
  - destruct k as [|k].
    + simpl drop. apply replace_from_plus_prev.
    + simpl in Hk. cbn [replace_from drop]. apply IH. lia.
Qed.

Lemma replace_from_plus_cons p rep x s prev :
  replace_from [Cls p; Star p] rep prev 0 (x :: s)
  = if p x then rep ++ replace_from [Cls p; Star p] rep None 0 (trim_start p s)
    else x :: replace_from [Cls p; Star p] rep None 0 s.
Proof.
  cbn [replace_from]. rewrite exec_plus. destruct (p x).
  - rewrite replace_from_plus_skip by lia. by rewrite <- trim_start_drop.
  - f_equal. apply replace_from_plus_prev.
Qed.


Lemma Sorted_drop {A} (R : relation A) (l : list A) n :
  Sorted R l → Sorted R (drop n l).
Proof.
  revert l. induction n as [|n IH]; intros l Hs; [by rewrite drop_0|].
  destruct l as [|x l]; [done|]. simpl. apply IH. by apply Sorted_inv in Hs as [? _].
Qed.

Lemma Sorted_lookup {A} (R : relation A) (l : list A) i a b :
  Sorted R l → l !! i = Some a → l !! S i = Some b → R a b.
Proof.
  intros Hs. revert i. induction Hs as [|x l Hs IH Hhd]; intros i; [done|].
  destruct i as [|i]; simpl.
  - intros [= ->] Hb. destruct Hhd as [|y l Hxy]; [done|].
    simpl in Hb. by injection Hb as ->.
  - apply IH.
Qed.

Lemma trim_end_take p s : trim_end p s = take (length (trim_end p s)) s.
Proof.
  unfold trim_end. rewrite (trim_start_drop p (reverse s)) at 1.
  rewrite reverse_drop, reverse_involutive, !length_reverse.
  pose proof (trim_start_length p (reverse s)) as H. rewrite length_reverse in H.
  f_equal. lia.
Qed.

Lemma trim_end_last p s x : last (trim_end p s) = Some x → p x = false.
Proof. unfold trim_end. rewrite last_reverse. apply trim_start_head. Qed.

Lemma trim_both_sub p s :
  ∃ n m, trim_both p s = take m (drop n s).
Proof.
  unfold trim_both. eexists _, _. rewrite trim_end_take.
  rewrite (trim_start_drop p s) at 2. done.
Qed.

Lemma trim_both_trimmed p s : trimmed p (trim_both p s).
Proof.
  split; intros x Hx.
  - unfold trim_both in Hx. rewrite trim_end_take in Hx.
    apply (trim_start_head p s). destruct (length _); [done|].
    by destruct (trim_start p s).
  - by apply trim_end_last in Hx.
Qed.

Lemma trim_both_Forall (P : N → Prop) p s : Forall P s → Forall P (trim_both p s).
Proof.
  intros H. destruct (trim_both_sub p s) as (n & m & ->).
  by apply Forall_take, Forall_drop.
Qed.

(** The shape of a text after [replace(/\s+/g, " ")]. *)
Lemma replace_plus_shape p s :
  p 32 = true →
  let o := replace_from [Cls p; Star p] [32] None 0 s in
  Forall (λ c, p c = true → c = 32) o ∧
  Sorted (λ a b, p a = true → p b = false) o ∧
  (∀ y, head o = Some y → p y = true → ∃ x, head s = Some x ∧ p x = true).
Proof.
  intros Hp. remember (length s) as n eqn:Hn. revert s Hn.
  induction n as [n IH] using lt_wf_ind. intros [|x s] Hn o; subst o.
  { simpl. split; [constructor|]. split; [constructor|]. done. }
  rewrite replace_from_plus_cons. destruct (p x) eqn:Hx.
  - pose proof (trim_start_length p s) as Hl. simpl in Hn.
    destruct (IH (length (trim_start p s)) ltac:(lia) _ eq_refl)
      as (HF & HS & HH).
    split; [|split].
    + constructor; done.
    + constructor; [done|]. simpl.
      destruct (replace_from _ _ _ _ (trim_start p s)) as [|y o'] eqn:Eo;
        constructor. intros _.
      destruct (p y) eqn:Hy; [|done]. destruct (HH y eq_refl Hy) as (z & Hz & Hpz).
      apply trim_start_head in Hz. congruence.
    + intros y _ _. by exists x.
  - simpl in Hn. destruct (IH (length s) ltac:(lia) _ eq_refl) as (HF & HS & HH).
    split; [|split].
    + constructor; [congruence|done].
    + constructor; [done|].
      destruct (replace_from _ _ _ _ s); constructor. congruence.
    + simpl. intros y [= <-] Hy. congruence.
Qed.

Lemma single_spaced_sub p o n m :
  Forall (λ c, p c = true → c = 32) o →
  Sorted (λ a b, p a = true → p b = false) o →
  single_spaced p (take m (drop n o)).
Proof.
  intros HF HS. split.
  - by apply Forall_take, Forall_drop.
  - intros i a b Ha Hb.
    apply (Sorted_lookup (λ a b, p a = true → p b = false)
             (take m (drop n o)) i a b); [|done..].
    by apply HybridSearchFacts.Sorted_take, Sorted_drop.
Qed.

End RegexFacts.

Module NormalizeShape.
Import RegexFacts.

Lemma Forall_lit (P : N → Prop) (s : string) :
  Forall P (lit s) → ∀ r prev k t, Forall P t →
  Forall P (replace_from r (lit s) prev k t).
Proof. intros Hs r prev k t Ht. by apply replace_from_Forall. Qed.

(** X1: whatever the input, the text [normalizeLocal] returns has single
    blanks as its only white space, neither starts nor ends with white
    space, and holds no combining mark of U+0300..U+036F. *)
Theorem normalizeLocal_shape s :
  single_spaced js_space (normalizeLocal s) ∧
  trimmed js_space (normalizeLocal s) ∧
  Forall (λ c, in_range 768 879 c = false) (normalizeLocal s).
Proof.
  unfold normalizeLocal.
  set (s3 := replace_all re_combining "" _).
  set (s6 := replace_all re_os3 "os3" _).
  split; [|split].
  - destruct (trim_both_sub js_space (replace_all re_spaces " " s6))
      as (n & m & ->).
    destruct (replace_plus_shape js_space s6 eq_refl) as (HF & HS & _).
    by apply single_spaced_sub.
  - apply trim_both_trimmed.
  - apply trim_both_Forall.
    assert (Forall (λ c, in_range 768 879 c = false) s3) as H3.
    { unfold s3, replace_all, re_combining. rewrite replace_from_cls.
      apply Forall_forall. intros c Hc. apply list_elem_of_In in Hc.
      apply in_flat_map in Hc as (x & _ & Hx).
      destruct (in_range 768 879 x) eqn:E; [by destruct Hx|].
      destruct Hx as [<-|[]]. done. }
    unfold s6, replace_all.
    do 4 (apply replace_from_Forall; [by repeat constructor|]). exact H3.
Qed.


Lemma to_lower_cu_ascii c : c < 128 → lower_ascii (Unicode.to_lower_cu c).
Proof.
  intros Hc. unfold lower_ascii, Unicode.to_lower_cu, is_upper, in_range.
  repeat match goal with
         | |- context [?a <=? ?b] => destruct (N.leb_spec a b); simpl
         | |- context [?a =? ?b] => destruct (N.eqb_spec a b); simpl
         end; try (split; [lia|done]); lia.
Qed.

Lemma assoc_None {V} c (t : list (N * V)) :
  Forall (λ kv, kv.1 ≠ c) t → Unicode.assoc c t = None.
Proof.
  unfold Unicode.assoc. induction 1 as [|[k v] t Hk _ IH]; [done|].
  simpl in *. destruct (N.eqb_spec k c); [done|]. exact IH.
Qed.

Lemma decompose_ascii c : c < 128 → Unicode.decompose c = [c].
Proof.
  intros Hc. unfold Unicode.decompose.
  rewrite !assoc_None by (repeat constructor; simpl; lia).
  unfold in_range. destruct (N.leb_spec 192 c); [lia|done].
Qed.

Lemma unaccent_cu_ascii c : c < 128 → Unicode.unaccent_cu c = c.
Proof.
  intros Hc. unfold Unicode.unaccent_cu.
  rewrite !assoc_None by (repeat constructor; simpl; lia).
  unfold in_range. destruct (N.leb_spec 192 c); [lia|done].
Qed.

Lemma lower_ascii_lit (s : string) :
  Forall lower_ascii (lit s) → ∀ r prev k t, Forall lower_ascii t →
  Forall lower_ascii (replace_from r (lit s) prev k t).
Proof. intros Hs r prev k t Ht. by apply replace_from_Forall. Qed.

Ltac lower_ascii_lit := by repeat constructor.

(** X3: on Basic Latin input both normalizers return Basic Latin without
    capital letters. *)
Theorem normalize_ascii_lower s :
  Forall (λ c, c < 128) s →
  Forall lower_ascii (normalizeLocal s) ∧
  ∀ b, Forall lower_ascii (Sql.normalize_text_with b (Some s)).
Proof.
  intros Hs.
  assert (Forall lower_ascii (Unicode.toLowerCase s)) as Hl.
  { unfold Unicode.toLowerCase. apply Forall_forall. intros c Hc.
    apply list_elem_of_In, in_map_iff in Hc as (x & <- & Hx).
    apply to_lower_cu_ascii. rewrite Forall_forall in Hs.
    by apply Hs, list_elem_of_In. }
  split.
  - unfold normalizeLocal, replace_all. apply trim_both_Forall.
    repeat (apply replace_from_Forall; [lower_ascii_lit|]).
    unfold Unicode.normalize_NFKD. apply Forall_forall. intros c Hc.
    apply list_elem_of_In, in_flat_map in Hc as (x & Hx & Hc).
    rewrite Forall_forall in Hl. apply list_elem_of_In in Hx.
    specialize (Hl x Hx). rewrite decompose_ascii in Hc by apply Hl.
    destruct Hc as [<-|[]]. done.
  - intros b. unfold Sql.normalize_text_with, replace_all.
    repeat (apply replace_from_Forall; [lower_ascii_lit|]).
    unfold Unicode.unaccent. apply Forall_forall. intros c Hc.
    apply list_elem_of_In, in_map_iff in Hc as (x & <- & Hx).
    apply list_elem_of_In in Hx.
    assert (Forall lower_ascii (trim_both (N.eqb 32) (Unicode.lower s))) as Ht
      by by apply trim_both_Forall.
    rewrite Forall_forall in Ht. specialize (Ht x Hx).
    rewrite unaccent_cu_ascii by apply Ht. done.
Qed.

Lemma normalize_ascii_lower_witness :
  Forall lower_ascii (normalizeLocal (lit "Control 4  OS V3")) ∧
  ∀ b, Forall lower_ascii (Sql.normalize_text_with b (Some (lit "Control 4  OS V3"))).
Proof.
  apply (normalize_ascii_lower (lit "Control 4  OS V3")).
  repeat constructor.
Defined.

End NormalizeShape.

(** ** The handler, run step by step *)
Module RunFacts.
Import Edge Pipeline.
Local Open Scope Qc_scope.

Abbreviation unhandled e :=
  (json_response 500 (ErrorBody (lit "Unhandled error") (Some (JString e)) None)).

Lemma retrieve_not_POST w req t :
  method req ≠ "POST" →
  retrieve w req t
  = (Returned (json_response 405 (ErrorBody (lit "Use POST") None None)), t).
Proof.
  intros Hm. unfold retrieve.
  destruct (String.eqb_spec (method req) "POST"); done.
Qed.

Lemma retrieve_no_query w req t :
  method req = "POST" → health (body_of req) = false →
  (∀ q, Js.get (body_of req) "query" = Some (JString q) → q = []) →
  retrieve w req t
  = (Returned (json_response 400
                 (ErrorBody (lit "Missing 'query' (string)") None None)), t).
Proof.
  intros Hm Hh Hq. unfold retrieve. rewrite Hm.
  change (default (JObject ∅) (json_body req)) with (body_of req).
  rewrite Hh. cbn [negb String.eqb Ascii.eqb Bool.eqb].
  unfold require_query, mbind, M_bind, error_response, respond.
  destruct (Js.get (body_of req) "query") as [[| | |q| |]|]; try done.
  rewrite (Hq q eq_refl). done.
Qed.

Lemma require_env_configured w t :
  configured w → require_env w t = (Value tt, t).
Proof.
  intros (H1 & H2 & H3). unfold require_env.
  change (match env w !! "SERVICE_ROLE_KEY" with
          | Some v => v
          | None => default [] (env w !! "SUPABASE_SERVICE_ROLE_KEY")
          end) with (service_role w).
  by rewrite !bool_decide_false.
Qed.

Lemma require_env_missing w t :
  ¬ configured w →
  ∃ msg, require_env w t
         = (Returned (json_response 500 (ErrorBody (lit msg) None None)), t) ∧
         (default [] (env w !! "SUPABASE_URL") ≠ [] → service_role w = [] →
          msg = "Missing SERVICE_ROLE_KEY env").
Proof.
  intros Hc. unfold require_env.
  change (match env w !! "SERVICE_ROLE_KEY" with
          | Some v => v
          | None => default [] (env w !! "SUPABASE_SERVICE_ROLE_KEY")
          end) with (service_role w).
  unfold error_response, respond.
  repeat case_bool_decide; try (eexists; split; [reflexivity|]; done).
  destruct Hc. done.
Qed.

Lemma retrieve_prefix w req q t :
  valid_query req q →
  retrieve w req t
  = (_ ← require_env w;
     embedding ← embed w (normalizeLocal q);
     hits ← search w (search_args w (body_of req) q embedding);
     mret {| r_body := body_of req; r_query := q;
             r_topK := topK w (body_of req);
             r_sessionId := sessionId w (body_of req); r_hits := hits |}) t.
Proof.
  intros (Hm & Hh & Hq & Hne). unfold retrieve. rewrite Hm.
  change (default (JObject ∅) (json_body req)) with (body_of req).
  rewrite Hh, Hq. cbn [negb String.eqb Ascii.eqb Bool.eqb].
  unfold require_query. rewrite bool_decide_false by done. done.
Qed.

Lemma retrieve_not_configured w req q t :
  valid_query req q → ¬ configured w →
  ∃ msg, retrieve w req t
         = (Returned (json_response 500 (ErrorBody (lit msg) None None)), t) ∧
         (default [] (env w !! "SUPABASE_URL") ≠ [] → service_role w = [] →
          msg = "Missing SERVICE_ROLE_KEY env").
Proof.
  intros Hv Hc. rewrite (retrieve_prefix _ _ q) by done.
  destruct (require_env_missing w t Hc) as (msg & Hmsg & Hrole).
  exists msg. split; [|done]. unfold mbind, M_bind. by rewrite Hmsg.
Qed.

(** The first half of the handler on a valid request in a configured
    deployment. *)
Lemma retrieve_valid w req q t :
  valid_query req q → configured w →
  let qNorm := normalizeLocal q in
  retrieve w req t =
  match embeddings w qNorm with
  | EmbeddingsThrows e => (Thrown e, t ++ [CallEmbeddings qNorm])
  | EmbeddingsReplied st None err =>
    (Returned (json_response 502
                 (ErrorBody (lit "Failed to get embedding")
                    (Some (default JNull err)) (Some st))),
     t ++ [CallEmbeddings qNorm])
  | EmbeddingsReplied _ (Some embedding) _ =>
    let args := search_args w (body_of req) q embedding in
    match search_kb_hybrid_rpc w args with
    | RpcError msg =>
      (Returned (json_response 502
                   (ErrorBody (lit "Hybrid search failed")
                      (Some (JString msg)) None)),
       t ++ [CallEmbeddings qNorm; CallSearch args])
    | RpcData rows =>
      (Value {| r_body := body_of req; r_query := q;
                r_topK := topK w (body_of req);
                r_sessionId := sessionId w (body_of req);
                r_hits := default [] rows |},
       t ++ [CallEmbeddings qNorm; CallSearch args])
    end
  end.
Proof.
  intros Hv Hc qNorm. rewrite (retrieve_prefix _ _ q) by done. fold qNorm.
  unfold mbind, M_bind. rewrite require_env_configured by done.
  unfold embed, search, mbind, M_bind, perform, error_response, respond,
    throw, mret, M_ret.
  destruct (embeddings w qNorm) as [e|st [emb|] err]; try done.
  rewrite <- app_assoc. simpl app.
  destruct (search_kb_hybrid_rpc w _) as [msg|rows]; done.
Qed.

Lemma store_run w sessionId query answer t :
  store w sessionId query answer t
  = (Value tt, t ++ store_calls w sessionId query answer).
Proof.
  unfold store, store_calls, try_catch, insert, mbind, M_bind, perform, throw,
    mret, M_ret.
  fold (user_row w sessionId query). fold (assistant_row w sessionId answer).
  destruct (Js.truthy _); [|by rewrite app_nil_r].
  destruct (insert_message w (user_row _ _ _)); [done|].
  rewrite <- app_assoc.
  destruct (insert_message w (assistant_row _ _ _)); done.
Qed.

Lemma conversationHistory_run w sessionId n t :
  AskBotConversational.conversationHistory w sessionId n t
  = (Value (fetched_history w sessionId n), t ++ history_calls sessionId n).
Proof.
  unfold AskBotConversational.conversationHistory, fetched_history,
    history_calls, try_catch, mbind, M_bind, perform, throw, mret, M_ret.
  destruct (_ && _); [|by rewrite app_nil_r].
  destruct (select_history w sessionId _) as [e|msg|[h|]]; try done.
  do 2 f_equal. rewrite <- (list_fmap_id h) at 2.
  apply list_fmap_ext. by intros i [] _.
Qed.

Lemma AskBot_generate_run w r t :
  let creq := AskBot.completion w r in
  AskBot.generate w r t =
  match chat_completion w creq with
  | ChatThrows e => (Thrown e, t ++ [CallChat creq])
  | ChatReplied content =>
    (Value (json_response 200 (AnswerBody (AskBot.result r content))),
     t ++ CallChat creq
       :: store_calls w (r_sessionId r) (r_query r)
            (AskBot.answer content (r_hits r)))
  end.
Proof.
  intros creq. unfold AskBot.generate, chat, mbind, M_bind, perform, throw,
    mret, M_ret. fold creq.
  destruct (chat_completion w creq) as [e|content]; [done|].
  rewrite store_run, <- app_assoc. done.
Qed.

Lemma AskBotConversational_generate_run w r t :
  let n := AskBotConversational.maxHistoryMessages w (r_body r) in
  let h := fetched_history w (r_sessionId r) n in
  let creq := AskBotConversational.completion w r h in
  AskBotConversational.generate w r t =
  match chat_completion w creq with
  | ChatThrows e =>
    (Thrown e, t ++ history_calls (r_sessionId r) n ++ [CallChat creq])
  | ChatReplied content =>
    (Value (json_response 200
              (AnswerBody (AskBotConversational.result r content))),
     t ++ history_calls (r_sessionId r) n
       ++ CallChat creq
       :: store_calls w (r_sessionId r) (r_query r)
            (AskBotConversational.answer content (r_hits r)))
  end.
Proof.
  intros n h creq. unfold AskBotConversational.generate.
  unfold mbind at 1. unfold M_bind at 1. rewrite conversationHistory_run.
  fold n h creq.
  unfold chat, mbind, M_bind, perform, throw, mret, M_ret.
  destruct (chat_completion w creq) as [e|content].
  - by rewrite <- app_assoc.
  - rewrite store_run, <- !app_assoc. done.
Qed.

(** The whole handler in terms of its two halves. *)
Lemma serve_with_bind w g req :
  serve_with (λ req, retrieve w req ≫= g) req =
  if String.eqb (method req) "OPTIONS" then (json_response 204 NoBody, [])
  else
    match retrieve w req [] with
    | (Value r, t) =>
      match g r t with
      | (Value resp, t') | (Returned resp, t') => (resp, t')
      | (Thrown e, t') => (unhandled e, t')
      end
    | (Returned resp, t) => (resp, t)
    | (Thrown e, t) => (unhandled e, t)
    end.
Proof.
  unfold serve_with, run, try_catch, mbind, M_bind, mret, M_ret.
  destruct (String.eqb _ _); [done|].
  destruct (retrieve w req []) as [[r|resp|e] t]; try done.
  destruct (g r t) as [[resp|resp|e] t']; done.
Qed.

Lemma AskBot_serve_eq w req :
  AskBot.serve w req = serve_with (λ req, retrieve w req ≫= AskBot.generate w) req.
Proof. done. Qed.

Lemma AskBotConversational_serve_eq w req :
  AskBotConversational.serve w req
  = serve_with (λ req, retrieve w req ≫= AskBotConversational.generate w) req.
Proof. done. Qed.

End RunFacts.

(** ** The handler: error paths and the calls it makes *)
Module PipelineFacts.
Import Edge Pipeline RunFacts Examples Examples2.
Local Open Scope Qc_scope.

Lemma retrieve_health w req t :
  method req = "POST" → health (body_of req) = true →
  retrieve w req t = (Returned (json_response 200 OkTrue), t).
Proof.
  intros Hm Hh. unfold retrieve. rewrite Hm.
  change (default (JObject ∅) (json_body req)) with (body_of req).
  by rewrite Hh.
Qed.

Lemma query_cases req :
  (∃ q, Js.get (body_of req) "query" = Some (JString q) ∧ q ≠ []) ∨
  (∀ q, Js.get (body_of req) "query" = Some (JString q) → q = []).
Proof.
  destruct (Js.get (body_of req) "query") as [[| | |q| |]|];
    try (right; intros ? [=]; done).
  destruct (decide (q = [])) as [->|Hne]; [right; by intros ? [= <-]|].
  left. by exists q.
Qed.










(** *** Every way a request can go *)
Section cases.
Context (w : world) (req : request) (P : response * list call → Prop).

Hypothesis Hpreflight :
  method req = "OPTIONS" → P (json_response 204 NoBody, []).
Hypothesis Hmethod :
  method req ≠ "OPTIONS" → method req ≠ "POST" →
  P (json_response 405 (ErrorBody (lit "Use POST") None None), []).
Hypothesis Hhealth :
  method req = "POST" → health (body_of req) = true →
  P (json_response 200 OkTrue, []).
Hypothesis Hquery :
  method req = "POST" → health (body_of req) = false →
  (∀ q, Js.get (body_of req) "query" = Some (JString q) → q = []) →
  P (json_response 400 (ErrorBody (lit "Missing 'query' (string)") None None), []).
Hypothesis Henv :
  ∀ q msg, valid_query req q → ¬ configured w →
  P (json_response 500 (ErrorBody (lit msg) None None), []).
Hypothesis Hembed_throws :
  ∀ q e, valid_query req q → configured w →
  embeddings w (normalizeLocal q) = EmbeddingsThrows e →
  P (unhandled e, [CallEmbeddings (normalizeLocal q)]).
Hypothesis Hembed_fails :
  ∀ q st err, valid_query req q → configured w →
  embeddings w (normalizeLocal q) = EmbeddingsReplied st None err →
  P (json_response 502
       (ErrorBody (lit "Failed to get embedding")
          (Some (default JNull err)) (Some st)),
     [CallEmbeddings (normalizeLocal q)]).
Hypothesis Hsearch_fails :
  ∀ q st emb err msg, valid_query req q → configured w →
  embeddings w (normalizeLocal q) = EmbeddingsReplied st (Some emb) err →
  search_kb_hybrid_rpc w (search_args w (body_of req) q emb) = RpcError msg →
  P (json_response 502
       (ErrorBody (lit "Hybrid search failed") (Some (JString msg)) None),
     [CallEmbeddings (normalizeLocal q);
      CallSearch (search_args w (body_of req) q emb)]).

Lemma AskBot_serve_cases :
  (∀ q st emb err rows e, valid_query req q → configured w →
     embeddings w (normalizeLocal q) = EmbeddingsReplied st (Some emb) err →
     search_kb_hybrid_rpc w (search_args w (body_of req) q emb) = RpcData rows →
     let r := retrieved_of w req q rows in
     chat_completion w (AskBot.completion w r) = ChatThrows e →
     P (unhandled e,
        [CallEmbeddings (normalizeLocal q);
         CallSearch (search_args w (body_of req) q emb);
         CallChat (AskBot.completion w r)])) →
  (∀ q st emb err rows content, valid_query req q → configured w →
     embeddings w (normalizeLocal q) = EmbeddingsReplied st (Some emb) err →
     search_kb_hybrid_rpc w (search_args w (body_of req) q emb) = RpcData rows →
     let r := retrieved_of w req q rows in
     chat_completion w (AskBot.completion w r) = ChatReplied content →
     P (json_response 200 (AnswerBody (AskBot.result r content)),
        [CallEmbeddings (normalizeLocal q);
         CallSearch (search_args w (body_of req) q emb);
         CallChat (AskBot.completion w r)]
        ++ store_calls w (r_sessionId r) q (AskBot.answer content (r_hits r)))) →
  P (AskBot.serve w req).
Proof.
  intros Hchat_throws Hanswer.
  rewrite AskBot_serve_eq, serve_with_bind.
  destruct (String.eqb_spec (method req) "OPTIONS") as [Ho|Ho]; [by auto|].
  destruct (decide (method req = "POST")) as [Hm|Hm];
    [|rewrite retrieve_not_POST by done; by auto].
  destruct (health (body_of req)) eqn:Hh;
    [rewrite retrieve_health by done; by auto|].
  destruct (query_cases req) as [(q & Hq & Hne)|Hq];
    [|rewrite retrieve_no_query by done; by auto].
  assert (valid_query req q) as Hv by done.
  destruct (decide (configured w)) as [Hc|Hc].
  2:{ destruct (retrieve_not_configured w req q [] Hv Hc) as (msg & -> & _).
      by eauto. }
  rewrite (retrieve_valid w req q) by done. cbv zeta.
  destruct (embeddings w _) as [e|st [emb|] err] eqn:He; [by eauto| |by eauto].
  destruct (search_kb_hybrid_rpc w _) as [msg|rows] eqn:Hs; [by eauto|].
  rewrite AskBot_generate_run. cbv zeta.
  fold (retrieved_of w req q rows).
  destruct (chat_completion w _) as [e|content] eqn:Hchat.
  - by eapply Hchat_throws.
  - by eapply Hanswer.
Qed.

Lemma AskBotConversational_serve_cases :
  (∀ q st emb err rows e, valid_query req q → configured w →
     embeddings w (normalizeLocal q) = EmbeddingsReplied st (Some emb) err →
     search_kb_hybrid_rpc w (search_args w (body_of req) q emb) = RpcData rows →
     let r := retrieved_of w req q rows in
     let n := AskBotConversational.maxHistoryMessages w (body_of req) in
     let creq := AskBotConversational.completion w r
                   (fetched_history w (r_sessionId r) n) in
     chat_completion w creq = ChatThrows e →
     P (unhandled e,
        [CallEmbeddings (normalizeLocal q);
         CallSearch (search_args w (body_of req) q emb)]
        ++ history_calls (r_sessionId r) n ++ [CallChat creq])) →
  (∀ q st emb err rows content, valid_query req q → configured w →
     embeddings w (normalizeLocal q) = EmbeddingsReplied st (Some emb) err →
     search_kb_hybrid_rpc w (search_args w (body_of req) q emb) = RpcData rows →
     let r := retrieved_of w req q rows in
     let n := AskBotConversational.maxHistoryMessages w (body_of req) in
     let creq := AskBotConversational.completion w r
                   (fetched_history w (r_sessionId r) n) in
     chat_completion w creq = ChatReplied content →
     P (json_response 200 (AnswerBody (AskBotConversational.result r content)),
        [CallEmbeddings (normalizeLocal q);
         CallSearch (search_args w (body_of req) q emb)]
        ++ history_calls (r_sessionId r) n ++ [CallChat creq]
        ++ store_calls w (r_sessionId r) q
             (AskBotConversational.answer content (r_hits r)))) →
  P (AskBotConversational.serve w req).
Proof.
  intros Hchat_throws Hanswer.
  rewrite AskBotConversational_serve_eq, serve_with_bind.
  destruct (String.eqb_spec (method req) "OPTIONS") as [Ho|Ho]; [by auto|].
  destruct (decide (method req = "POST")) as [Hm|Hm];
    [|rewrite retrieve_not_POST by done; by auto].
  destruct (health (body_of req)) eqn:Hh;
    [rewrite retrieve_health by done; by auto|].
  destruct (query_cases req) as [(q & Hq & Hne)|Hq];
    [|rewrite retrieve_no_query by done; by auto].
  assert (valid_query req q) as Hv by done.
  destruct (decide (configured w)) as [Hc|Hc].
  2:{ destruct (retrieve_not_configured w req q [] Hv Hc) as (msg & -> & _).
      by eauto. }
  rewrite (retrieve_valid w req q) by done. cbv zeta.
  destruct (embeddings w _) as [e|st [emb|] err] eqn:He; [by eauto| |by eauto].
  destruct (search_kb_hybrid_rpc w _) as [msg|rows] eqn:Hs; [by eauto|].
  rewrite AskBotConversational_generate_run. cbv zeta.
  fold (retrieved_of w req q rows).
  destruct (chat_completion w _) as [e|content] eqn:Hchat.
  - by eapply Hchat_throws.
  - by eapply Hanswer.
Qed.
End cases.

Lemma store_calls_cases w sid q a :
  store_calls w sid q a = []
  ∨ Js.truthy (Some sid) = true ∧
    (store_calls w sid q a = [CallInsert (user_row w sid q)]
     ∨ store_calls w sid q a
       = [CallInsert (user_row w sid q); CallInsert (assistant_row w sid a)]).
Proof.
  unfold store_calls. destruct (Js.truthy _); [|by left].
  right. split; [done|]. destruct (insert_message w _); auto.
Qed.

Lemma history_calls_cases sid n :
  history_calls sid n = []
  ∨ Js.truthy (Some sid) = true ∧ Js.positive n = true ∧
    history_calls sid n = [CallHistory sid (Js.times n 2)].
Proof.
  unfold history_calls. destruct (Js.truthy _); [|by left].
  destruct (Js.positive n); [|by left]. by right.
Qed.

(** X8: each service is called at most once per request, in the order
    embeddings, search, (history,) chat, and the turn is stored last with
    at most two inserts. *)
Theorem call_sequence w req :
  (∃ n, service_of <$> (AskBot.serve w req).2
        = take n [Embeddings; Search; Chat; Insert; Insert]) ∧
  (∃ n, service_of <$> (AskBotConversational.serve w req).2
        = take n [Embeddings; Search; History; Chat; Insert; Insert]
      ∨ service_of <$> (AskBotConversational.serve w req).2
        = take n [Embeddings; Search; Chat; Insert; Insert]).
Proof.
  split.
  - apply AskBot_serve_cases; intros; cbn [snd];
      try (by exists 0%nat); try (by exists 1%nat); try (by exists 2%nat);
      try (by exists 3%nat).
    destruct (store_calls_cases w (r_sessionId r) q
                (AskBot.answer content (r_hits r))) as [->|[_ [->| ->]]].
    + by exists 3%nat.
    + by exists 4%nat.
    + by exists 5%nat.
  - apply AskBotConversational_serve_cases; intros; cbn [snd];
      try (by exists 0%nat; left); try (by exists 1%nat; left);
      try (by exists 2%nat; left).
    + destruct (history_calls_cases (r_sessionId r) n) as [->|(_ & _ & ->)].
      * exists 3%nat. by right.
      * exists 4%nat. by left.
    + destruct (history_calls_cases (r_sessionId r) n) as [->|(_ & _ & ->)];
        destruct (store_calls_cases w (r_sessionId r) q
                    (AskBotConversational.answer content (r_hits r)))
          as [->|[_ [->| ->]]].
      * exists 3%nat. by right.
      * exists 4%nat. by right.
      * exists 5%nat. by right.
      * exists 4%nat. by left.
      * exists 5%nat. by left.
      * exists 6%nat. by left.
Qed.

(** Membership in a log written out as a list. *)
Ltac elem_of_log H :=
  repeat first
    [ apply elem_of_nil in H; destruct H
    | apply elem_of_app in H as [H|H]
    | apply elem_of_cons in H as [H|H]; [try discriminate H|] ].

Lemma elem_of_store_calls w sid q a c :
  c ∈ store_calls w sid q a →
  Js.truthy (Some sid) = true ∧
  (c = CallInsert (user_row w sid q) ∨ c = CallInsert (assistant_row w sid a)).
Proof.
  destruct (store_calls_cases w sid q a) as [->|[Ht [->| ->]]];
    intros Hin; elem_of_log Hin; auto.
Qed.

Lemma elem_of_history_calls sid n c :
  c ∈ history_calls sid n →
  Js.truthy (Some sid) = true ∧ Js.positive n = true ∧
  c = CallHistory sid (Js.times n 2).
Proof.
  destruct (history_calls_cases sid n) as [->|(Ht & Hp & ->)];
    intros Hin; elem_of_log Hin; auto.
Qed.

(** X9: nothing is stored for a request that is not answered.  Every row
    written to [chat_messages] belongs to a 200 answer: it carries the
    session id of the response, and is either the user's row holding the
    query of the request or the assistant's row holding the returned
    answer. *)
Theorem stored_rows_belong_to_the_answer serve w req row :
  revision serve →
  CallInsert row ∈ (serve w req).2 →
  ∃ a, (serve w req).1 = json_response 200 (AnswerBody a) ∧
       row_session_id row = session_id a ∧
       Js.truthy (Some (session_id a)) = true ∧
       ((row_role row = lit "user" ∧
         Js.get (body_of req) "query" = Some (JString (row_message row))) ∨
        (row_role row = lit "assistant" ∧ row_message row = answer a)).
Proof.
  set (P := λ p : response * list call, ∀ row,
    CallInsert row ∈ p.2 →
    ∃ a, p.1 = json_response 200 (AnswerBody a) ∧
         row_session_id row = session_id a ∧
         Js.truthy (Some (session_id a)) = true ∧
         ((row_role row = lit "user" ∧
           Js.get (body_of req) "query" = Some (JString (row_message row))) ∨
          (row_role row = lit "assistant" ∧ row_message row = answer a))).
  intros Hrev. enough (P (serve w req)) as HP by (intros Hin; by apply HP).
  clear row. destruct Hrev as [-> | ->].
  - apply AskBot_serve_cases; unfold P;
      try (intros; cbn [fst snd] in *;
           match goal with H : CallInsert _ ∈ _ |- _ => by elem_of_log H end).
    intros q st emb err rows content Hv Hc He Hs Hchat row Hin.
    cbn [fst snd] in *. eexists. split; [reflexivity|].
    elem_of_log Hin.
    apply elem_of_store_calls in Hin as [Ht [[= ->]|[= ->]]]; simpl;
      (split; [done|]); (split; [done|]); [left|right]; split; try done.
    apply Hv.
  - apply AskBotConversational_serve_cases; unfold P;
      try (intros; cbn [fst snd] in *;
           match goal with H : CallInsert _ ∈ _ |- _ => by elem_of_log H end).
    + intros q st emb err rows e Hv Hc He Hs Hchat row Hin.
      cbn [fst snd] in *. elem_of_log Hin.
      by apply elem_of_history_calls in Hin as (_ & _ & [=]).
    + intros q st emb err rows content Hv Hc He Hs Hchat row Hin.
      cbn [fst snd] in *. eexists. split; [reflexivity|].
      elem_of_log Hin;
        [by apply elem_of_history_calls in Hin as (_ & _ & [=])|].
      apply elem_of_store_calls in Hin as [Ht [[= ->]|[= ->]]]; simpl;
        (split; [done|]); (split; [done|]); [left|right]; split; try done.
      apply Hv.
Qed.

Lemma stored_rows_belong_to_the_answer_witness :
  let row := user_row answering_world
               (JString (lit "3f2b6c1e-0000-4000-8000-000000000001"))
               (lit "reset my remote") in
  ∃ a, (AskBot.serve answering_world (ask "reset my remote")).1
       = json_response 200 (AnswerBody a) ∧
       row_session_id row = session_id a.
Proof.
  intros row.
  destruct (stored_rows_belong_to_the_answer AskBot.serve answering_world
              (ask "reset my remote") row) as (a & Ha & Hs & _).
  - by left.
  - vm_compute. right; right; right; left.
  - by exists a.
Defined.

Lemma filter_store_calls w sid q a :
  filter (λ c, service_of c ≠ Insert) (store_calls w sid q a) = [].
Proof.
  destruct (store_calls_cases w sid q a) as [->|[_ [->| ->]]]; done.
Qed.

(** X10: storing the turn is best effort.  Whatever the session store does
    with the inserts, the response is the same, and so are the calls to
    the other services. *)
Theorem storage_outcome_is_invisible serve w f req :
  revision serve →
  (serve (with_insert_message w f) req).1 = (serve w req).1 ∧
  filter (λ c, service_of c ≠ Insert) (serve (with_insert_message w f) req).2
  = filter (λ c, service_of c ≠ Insert) (serve w req).2.
Proof.
  set (w' := with_insert_message w f).
  intros [-> | ->].
  - rewrite !AskBot_serve_eq, !serve_with_bind.
    destruct (String.eqb _ _); [done|].
    change (retrieve w' req []) with (retrieve w req []).
    destruct (retrieve w req []) as [[r|resp|e] t]; [|done..].
    rewrite !AskBot_generate_run. cbv zeta.
    change (chat_completion w' (AskBot.completion w' r))
      with (chat_completion w (AskBot.completion w r)).
    change (AskBot.completion w' r) with (AskBot.completion w r).
    destruct (chat_completion w _) as [e|content]; [done|].
    split; [done|]. cbn [snd].
    rewrite !filter_app, !filter_cons_True, !filter_store_calls by done. done.
  - rewrite !AskBotConversational_serve_eq, !serve_with_bind.
    destruct (String.eqb _ _); [done|].
    change (retrieve w' req []) with (retrieve w req []).
    destruct (retrieve w req []) as [[r|resp|e] t]; [|done..].
    rewrite !AskBotConversational_generate_run. cbv zeta.
    change (AskBotConversational.maxHistoryMessages w' (r_body r))
      with (AskBotConversational.maxHistoryMessages w (r_body r)).
    set (n := AskBotConversational.maxHistoryMessages w (r_body r)).
    change (fetched_history w' (r_sessionId r) n)
      with (fetched_history w (r_sessionId r) n).
    set (h := fetched_history w (r_sessionId r) n).
    change (chat_completion w' (AskBotConversational.completion w' r h))
      with (chat_completion w (AskBotConversational.completion w r h)).
    change (AskBotConversational.completion w' r h)
      with (AskBotConversational.completion w r h).
    destruct (chat_completion w _) as [e|content]; [done|].
    split; [done|]. cbn [snd].
    rewrite !filter_app, !filter_cons_True, !filter_store_calls by done. done.
Qed.

Lemma storage_outcome_is_invisible_witness :
  (AskBot.serve (with_insert_message answering_world (λ _, Some (lit "down")))
     (ask "reset my remote")).1
  = (AskBot.serve answering_world (ask "reset my remote")).1.
Proof.
  apply (storage_outcome_is_invisible AskBot.serve answering_world
           (λ _, Some (lit "down")) (ask "reset my remote")).
  by left.
Defined.



(** X12: index.ts never reads the stored conversation.  The conversational
    revision queries it at most for the session of the request, only when
    the session id is truthy and [max_history] is positive, and asks for
    twice [max_history] rows (8 when the body has no [max_history]). *)
Theorem history_query_guard w req s l :
  (CallHistory s l ∉ (AskBot.serve w req).2) ∧
  (CallHistory s l ∈ (AskBotConversational.serve w req).2 →
   let n := AskBotConversational.maxHistoryMessages w (body_of req) in
   s = sessionId w (body_of req) ∧ Js.truthy (Some s) = true ∧
   Js.positive n = true ∧ l = Js.times n 2 ∧
   (Js.get (body_of req) "max_history" = None → l = Fin (Qc_of_Z 8))).
Proof.
  set (n := AskBotConversational.maxHistoryMessages w (body_of req)).
  assert (Js.get (body_of req) "max_history" = None →
          Js.times n 2 = Fin (Qc_of_Z 8)) as Hdefault.
  { intros Hnone. unfold n, AskBotConversational.maxHistoryMessages.
    rewrite Hnone. simpl. f_equal. apply Qc_is_canon. reflexivity. }
  set (P := λ p : response * list call,
    CallHistory s l ∈ p.2 →
    s = sessionId w (body_of req) ∧ Js.truthy (Some s) = true ∧
    Js.positive n = true ∧ l = Js.times n 2 ∧
    (Js.get (body_of req) "max_history" = None → l = Fin (Qc_of_Z 8))).
  split; [|change (P (AskBotConversational.serve w req))].
  - apply AskBot_serve_cases;
      try (intros; intros Hin; cbn [snd] in Hin; by elem_of_log Hin).
    intros q st emb err rows content Hv Hc He Hs r Hchat Hin.
    cbn [snd] in Hin. elem_of_log Hin.
    by apply elem_of_store_calls in Hin as [_ [Hin|Hin]].
  - apply AskBotConversational_serve_cases;
      try (intros; intros Hin; cbn [snd] in Hin; by elem_of_log Hin).
    + intros q st emb err rows e Hv Hc He Hs r n' creq Hchat Hin.
      cbn [snd] in Hin. elem_of_log Hin.
      apply elem_of_history_calls in Hin as (Ht & Hp & [= -> ->]).
      repeat split; done.
    + intros q st emb err rows content Hv Hc He Hs r n' creq Hchat Hin.
      cbn [snd] in Hin. elem_of_log Hin.
      * apply elem_of_history_calls in Hin as (Ht & Hp & [= -> ->]).
        repeat split; done.
      * by apply elem_of_store_calls in Hin as [_ [Hin|Hin]].
Qed.

Lemma history_query_guard_witness :
  (CallHistory (JString (lit "session-1")) (Js.times (Fin (Qc_of_Z 4)) 2)
   ∉ (AskBot.serve (history_world (ChatReplied None)) follow_up).2) ∧
  Js.positive (AskBotConversational.maxHistoryMessages
                 (history_world (ChatReplied None)) (body_of follow_up)) = true.
Proof.
  destruct (history_query_guard (history_world (ChatReplied None)) follow_up
              (JString (lit "session-1")) (Js.times (Fin (Qc_of_Z 4)) 2))
    as [H1 H2].
  split; [exact H1|]. apply H2.
  vm_compute. right; right; left.
Defined.

End PipelineFacts.

Module BlankQueryFacts.
Import Edge Pipeline RegexFacts RunFacts PipelineFacts Examples Examples2.










End BlankQueryFacts.

(** ** The phrase tests of the hand-off decision *)
Module PhraseFacts.
Import Edge.

Lemma exec_ChrI l prev s :
  exec (map ChrI l) prev s
  = if decide (map canonicalize (take (length l) s) = map canonicalize l)
    then Some (length l) else None.
Proof.
  revert prev s. induction l as [|c l IH]; intros prev s; [done|].
  destruct s as [|x s]; [done|]. cbn [map exec length take].
  rewrite IH. destruct (N.eqb_spec (canonicalize x) (canonicalize c)) as [Hx|Hx].
  - rewrite Hx. destruct (decide (map _ (take _ s) = _)) as [Hl|Hl].
    + rewrite Hl. by rewrite decide_True.
    + rewrite decide_False; [done|]. intros [=]. done.
  - rewrite decide_False; [done|]. intros [=]. done.
Qed.

Lemma test_from_ChrI l prev s :
  test_from (map ChrI l) prev s = true ↔ contains_ci l s.
Proof.
  split.
  - revert prev. induction s as [|x s IH]; intros prev; cbn [test_from];
      rewrite exec_ChrI.
    + case_decide as Hl; [|done]. intros _.
      exists [], [], []. split; [done|]. by rewrite take_nil in Hl.
    + case_decide as Hl.
      * intros _. exists [], (take (length l) (x :: s)), (drop (length l) (x :: s)).
        split; [|done]. by rewrite app_nil_l, take_drop.
      * intros H. apply IH in H as (pre & mid & post & -> & Hmid).
        by exists (x :: pre), mid, post.
  - intros (pre & mid & post & -> & Hmid). revert prev.
    assert (length mid = length l) as Hlen.
    { apply (f_equal length) in Hmid. by rewrite !length_map in Hmid. }
    induction pre as [|x pre IH]; intros prev.
    + simpl. destruct (mid ++ post) as [|y t] eqn:E; cbn [test_from];
        rewrite exec_ChrI, <- E, <- Hlen, take_app_length, decide_True; done.
    + cbn [app test_from]. destruct (exec _ _ _); [done|]. apply IH.
Qed.

Lemma some_test_chars_i (phrases : list string) s :
  existsb (λ pattern, test pattern s) (map chars_i phrases) = true ↔
  ∃ phrase, phrase ∈ phrases ∧ contains_ci (lit phrase) s.
Proof.
  rewrite existsb_exists. split.
  - intros (r & Hr & Ht). apply in_map_iff in Hr as (phrase & <- & Hin).
    exists phrase. split; [by apply list_elem_of_In|].
    by apply (test_from_ChrI _ None).
  - intros (phrase & Hin & Hc). exists (chars_i phrase). split.
    + apply in_map_iff. exists phrase. split; [done|]. by apply list_elem_of_In.
    + by apply (test_from_ChrI _ None).
Qed.

(** X14: an answer counts as a non-answer exactly when it contains one of
    the nine phrases of [noAnswerPatterns], letters compared without
    regard to case; index.ts asks for human help exactly for a non-answer
    or an empty result list. *)
Theorem non_answer_is_phrase_containment answer hits :
  (non_answer answer = true ↔
   ∃ phrase, phrase ∈ noAnswerPhrases ∧ contains_ci (lit phrase) answer) ∧
  (AskBot.needsHumanHelp answer hits = true ↔
   hits = [] ∨
   ∃ phrase, phrase ∈ noAnswerPhrases ∧ contains_ci (lit phrase) answer).
Proof.
  assert (non_answer answer = true ↔
          ∃ phrase, phrase ∈ noAnswerPhrases ∧ contains_ci (lit phrase) answer)
    as Hn by apply (some_test_chars_i noAnswerPhrases).
  split; [done|]. unfold AskBot.needsHumanHelp.
  rewrite orb_true_iff, Hn, bool_decide_eq_true, length_zero_iff_nil. tauto.
Qed.

(** X15: the conversational revision treats a query as social exactly when
    it contains one of the thirteen phrases of [socialPatterns] anywhere,
    letters compared without regard to case, and then never asks for human
    help: a query that contains "hey" inside another word is social. *)
Theorem social_gate_is_phrase_containment query :
  (AskBotConversational.isSocialQuestion query = true ↔
   ∃ phrase, phrase ∈ socialPhrases ∧ contains_ci (lit phrase) query) ∧
  (∀ phrase answer hits,
     phrase ∈ socialPhrases → contains_ci (lit phrase) query →
     AskBotConversational.needsHumanHelp query answer hits = false) ∧
  (∀ pre post, query = pre ++ lit "hey" ++ post →
     AskBotConversational.isSocialQuestion query = true).
Proof.
  assert (AskBotConversational.isSocialQuestion query = true ↔
          ∃ phrase, phrase ∈ socialPhrases ∧ contains_ci (lit phrase) query)
    as Hs by apply (some_test_chars_i socialPhrases).
  split; [done|]. split.
  - intros phrase answer hits Hin Hc. unfold AskBotConversational.needsHumanHelp.
    rewrite (proj2 Hs) by eauto. done.
  - intros pre post ->. apply Hs. exists "hey". split.
    + unfold socialPhrases. rewrite !elem_of_cons. tauto.
    + by exists pre, (lit "hey"), post.
Qed.

Lemma social_gate_is_phrase_containment_witness :
  AskBotConversational.isSocialQuestion (lit "they never pair") = true ∧
  AskBotConversational.needsHumanHelp (lit "they never pair")
    (lit "I don't know.") [] = false.
Proof.
  destruct (social_gate_is_phrase_containment (lit "they never pair"))
    as (_ & H2 & H3).
  split.
  - apply (H3 (lit "t") (lit " never pair")). reflexivity.
  - apply (H2 "hey").
    + unfold socialPhrases. rewrite !elem_of_cons. tauto.
    + exists (lit "t"), (lit "hey"), (lit " never pair"). split; reflexivity.
Defined.

End PhraseFacts.

(** ** Hybrid retrieval: how many rows, and which *)
Module FusionFacts.
Import HybridSearch HybridSearchFacts.
Local Open Scope Qc_scope.

Lemma length_left_join {A B} (on : A → B → bool) l r :
  (length l ≤ length (left_join on l r))%nat.
Proof.
  unfold left_join. induction l as [|a l IH]; [done|].
  cbn [flat_map]. rewrite length_app.
  destruct (filter _ r) as [|m ms]; [cbn [length]; lia|].
  rewrite length_fmap. cbn [length]. lia.
Qed.

Lemma left_join_unique {A B} (on : A → B → bool) l r :
  (∀ a, a ∈ l → (length (filter (λ b, on a b = true) r) ≤ 1)%nat) →
  fst <$> left_join on l r = l.
Proof.
  unfold left_join. induction l as [|a l IH]; intros Hu; [done|].
  cbn [flat_map]. rewrite fmap_app, IH by (intros; apply Hu; by right).
  specialize (Hu a ltac:(left)).
  destruct (filter _ r) as [|m [|m' ms]]; simpl in *; [done..|lia].
Qed.

Lemma filter_key_length (cands : list candidate) (i : Z) :
  NoDup (fst <$> cands) →
  (length (filter (λ b : candidate, (i =? b.1)%Z = true) cands) ≤ 1)%nat.
Proof.
  induction cands as [|[j v] cands IH]; intros Hnd; [simpl; lia|].
  apply NoDup_cons in Hnd as [Hj Hnd].
  destruct (Z.eqb_spec i j) as [<-|Hij].
  - rewrite filter_cons_True by (simpl; apply Z.eqb_refl).
    destruct (filter _ cands) as [|[j v'] ms] eqn:E; [simpl; lia|].
    assert ((j, v') ∈ filter (λ b : candidate, (i =? b.1)%Z = true) cands)
      as Hin by (rewrite E; left).
    apply list_elem_of_filter in Hin as [Heq Hin]. simpl in Heq.
    apply Z.eqb_eq in Heq as <-. destruct Hj.
    apply list_elem_of_fmap. by exists (i, v').
  - rewrite filter_cons_False; [by apply IH|].
    simpl. by intros ?%Z.eqb_eq.
Qed.

(** With unique candidate ids [fused] has one row per stored row, in the
    order of the table. *)
Lemma fused_ids kb c :
  NoDup (fst <$> sem c) → NoDup (fst <$> lex c) → NoDup (fst <$> tri c) →
  f_id <$> fused kb c = kb_id <$> kb.
Proof.
  intros Hs Hl Ht. unfold fused. rewrite <- list_fmap_compose.
  set (j1 := left_join (λ r s, (kb_id r =? s.1)%Z) kb (sem c)).
  set (j2 := left_join (λ '(r, _) l, (kb_id r =? l.1)%Z) j1 (lex c)).
  set (j3 := left_join (λ '(r, _, _) t, (kb_id r =? t.1)%Z) j2 (tri c)).
  assert (fst <$> j1 = kb) as H1
    by (apply left_join_unique; intros; by apply filter_key_length).
  assert (fst <$> j2 = j1) as H2.
  { apply left_join_unique. intros [r s] _. by apply filter_key_length. }
  assert (fst <$> j3 = j2) as H3.
  { apply left_join_unique. intros [[r s] l] _. by apply filter_key_length. }
  rewrite <- H1, <- H2, <- H3, <- !list_fmap_compose.
  apply list_fmap_ext. by intros i [[[r s] l] t] _.
Qed.

Lemma length_fused kb c : (length kb ≤ length (fused kb c))%nat.
Proof.
  unfold fused. rewrite length_fmap.
  etrans; [|apply length_left_join]. etrans; [|apply length_left_join].
  apply length_left_join.
Qed.

Section count.
Variable cosine_distance : kb_chunk → Qc.
Variable tsv_matches : kb_chunk → bool.
Variable ts_rank_cd : kb_chunk → Qc.
Variable trgm_matches : kb_chunk → bool.
Variable similarity : kb_chunk → Qc.
Variables w_semantic w_lexical w_trigram : Qc.
Variable k : Z.

#[local] Abbreviation select := (select w_semantic w_lexical w_trigram).
#[local] Abbreviation candidates_rel :=
  (candidates_rel cosine_distance tsv_matches ts_rank_cd trgm_matches
     similarity k).
#[local] Abbreviation search_kb_hybrid_rel :=
  (search_kb_hybrid_rel cosine_distance tsv_matches ts_rank_cd trgm_matches
     similarity w_semantic w_lexical w_trigram k).

Lemma candidates_rel_NoDup kb c :
  candidates_rel kb c → NoDup (kb_id <$> kb) →
  NoDup (fst <$> sem c) ∧ NoDup (fst <$> lex c) ∧ NoDup (fst <$> tri c).
Proof.
  intros (s & l & t & [Hs _] & [Hl _] & [Ht _] & ->) Hnd. simpl.
  unfold sem_rows, lex_rows, tri_rows, limit.
  rewrite <- !list_fmap_compose.
  assert (∀ (f : kb_chunk → Qc) n rows,
            NoDup (kb_id <$> rows) →
            NoDup (fst ∘ (λ c, (kb_id c, f c)) <$> take n rows)) as Htake.
  { intros f n rows Hrows. eapply sublist_NoDup; [exact Hrows|].
    apply fmap_sublist, sublist_take. }
  assert (∀ p : kb_chunk → bool,
            NoDup (kb_id <$> filter (λ r, p r = true) kb)) as Hfilter.
  { intros p. eapply sublist_NoDup; [exact Hnd|].
    apply fmap_sublist, sublist_filter. }
  repeat split; apply Htake.
  - by rewrite Hs.
  - rewrite Hl. apply Hfilter.
  - rewrite Ht. apply Hfilter.
Qed.

(** X16: the search never comes back empty-handed because nothing
    matched: it returns at least min(k, number of stored passages) rows and
    at most [k], so for a non-empty table and [k > 0] the result is not
    empty. *)
Theorem search_kb_hybrid_row_count kb out :
  search_kb_hybrid_rel kb out →
  (Z.to_nat k `min` length kb ≤ length out ≤ Z.to_nat k)%nat ∧
  (kb ≠ [] → (0 < k)%Z → out ≠ []).
Proof.
  intros (Hk & c & Hc & f & [Hp _] & ->).
  assert (Z.to_nat k `min` length kb ≤ length (limit k f) ≤ Z.to_nat k)%nat
    as Hlen.
  { unfold limit. rewrite length_take, Hp, length_fmap.
    pose proof (length_fused kb c). lia. }
  split; [done|]. intros Hkb Hpos Hout.
  rewrite Hout in Hlen. simpl in Hlen.
  destruct kb; [done|]. simpl in Hlen. lia.
Qed.

(** X17: when the ids of the stored passages are unique, the search returns
    exactly min(k, number of stored passages) rows and no passage twice. *)
Theorem search_kb_hybrid_unique_rows kb out :
  search_kb_hybrid_rel kb out → NoDup (kb_id <$> kb) →
  length out = (Z.to_nat k `min` length kb)%nat ∧ NoDup (id <$> out).
Proof.
  intros (Hk & c & Hc & f & [Hp _] & ->) Hnd.
  destruct (candidates_rel_NoDup kb c Hc Hnd) as (Hs & Hl & Ht).
  pose proof (fused_ids kb c Hs Hl Ht) as Hids.
  assert (id <$> f ≡ₚ kb_id <$> kb) as Hf.
  { rewrite Hp, <- list_fmap_compose, <- Hids. done. }
  split.
  - unfold limit. rewrite length_take.
    rewrite <- (length_fmap id f), Hf, length_fmap. done.
  - unfold limit. rewrite fmap_take. eapply sublist_NoDup; [|apply sublist_take].
    by rewrite Hf.
Qed.

(** X18: with non-negative weights the fused score is monotone in the three
    component scores: a passage that is at least as good on every signal
    never scores lower. *)
Theorem fused_score_monotone (a b : fused_row) :
  0 ≤ w_semantic → 0 ≤ w_lexical → 0 ≤ w_trigram →
  f_sem_score a ≤ f_sem_score b →
  f_lex_score a ≤ f_lex_score b →
  f_tri_score a ≤ f_tri_score b →
  score (select a) ≤ score (select b).
Proof.
  intros Hs Hl Ht Has Hal Hat. simpl.
  repeat apply Qcplus_le_compat; by apply Qcmult_le_mono_nonneg_l.
Qed.
End count.

Lemma search_kb_hybrid_row_count_witness :
  let out := rank (qc 55 100) (qc 35 100) (qc 1 10) 5 tie_kb
               (candidates_of tie_distance no_match no_score no_match no_score
                  5 tie_kb) in
  (Z.to_nat 5 `min` length tie_kb ≤ length out ≤ Z.to_nat 5)%nat ∧ out ≠ [].
Proof.
  intros out.
  assert (search_kb_hybrid_rel tie_distance no_match no_score no_match no_score
            (qc 55 100) (qc 35 100) (qc 1 10) 5 tie_kb out) as H.
  { apply search_kb_hybrid_sound. reflexivity. }
  destruct (search_kb_hybrid_row_count tie_distance no_match no_score no_match
              no_score (qc 55 100) (qc 35 100) (qc 1 10) 5 tie_kb out H)
    as [Hlen Hne].
  split; [exact Hlen|]. apply Hne; [discriminate|reflexivity].
Defined.

Lemma search_kb_hybrid_unique_rows_witness :
  let out := rank (qc 55 100) (qc 35 100) (qc 1 10) 3 far_kb
               (candidates_of far_distance no_match no_score no_match no_score
                  3 far_kb) in
  length out = 3%nat ∧ NoDup (id <$> out).
Proof.
  intros out.
  assert (search_kb_hybrid_rel far_distance no_match no_score no_match no_score
            (qc 55 100) (qc 35 100) (qc 1 10) 3 far_kb out) as H.
  { apply search_kb_hybrid_sound. reflexivity. }
  apply (search_kb_hybrid_unique_rows far_distance no_match no_score no_match
           no_score (qc 55 100) (qc 35 100) (qc 1 10) 3 far_kb out H).
  apply (bool_decide_unpack _). vm_compute. reflexivity.
Defined.

Lemma fused_score_monotone_witness :
  let a := {| f_id := 1; f_content := lit "a"; f_sem_score := qc 1 2;
              f_lex_score := 0; f_tri_score := qc 1 10 |} in
  let b := {| f_id := 2; f_content := lit "b"; f_sem_score := qc 3 4;
              f_lex_score := qc 1 5; f_tri_score := qc 1 10 |} in
  score (select (qc 55 100) (qc 35 100) (qc 1 10) a)
  ≤ score (select (qc 55 100) (qc 35 100) (qc 1 10) b).
Proof.
  intros a b.
  apply (fused_score_monotone (qc 55 100) (qc 35 100) (qc 1 10) a b);
    by vm_compute.
Defined.

End FusionFacts.

(** ** [corsHeaders] *)
Module CorsFacts.
Import Cors RegexFacts Examples Examples2.

Lemma split_not_nil sep s : split sep s ≠ [].
Proof.
  destruct s as [|x s]; simpl; [done|].
  destruct (x =? sep); [done|]. by destruct (split sep s).
Qed.

Lemma split_app sep x t :
  sep ∉ x →
  split sep (x ++ t)
  = match split sep t with
    | h :: r => (x ++ h) :: r
    | [] => [x]
    end.
Proof.
  induction x as [|c x IH]; intros Hx; simpl.
  - destruct (split sep t) eqn:E; [by apply split_not_nil in E|done].
  - apply not_elem_of_cons in Hx as [Hc Hx].
    destruct (N.eqb_spec c sep); [done|]. rewrite IH by done.
    by destruct (split sep t).
Qed.

Lemma split_join sep segs :
  segs ≠ [] → Forall (λ seg, sep ∉ seg) segs →
  split sep (Js.join [sep] segs) = segs.
Proof.
  induction segs as [|x segs IH]; intros Hne Hs; [done|].
  apply Forall_cons in Hs as [Hx Hs].
  destruct segs as [|y segs].
  - simpl. rewrite <- (app_nil_r x) at 1. rewrite split_app by done. simpl.
    by rewrite app_nil_r.
  - change (Js.join [sep] (x :: y :: segs))
      with (x ++ sep :: Js.join [sep] (y :: segs)).
    rewrite split_app by done. cbn [split]. rewrite N.eqb_refl, IH by done.
    by rewrite app_nil_r.
Qed.

Lemma trim_start_nil p s :
  trim_start p s = [] ↔ Forall (λ c, p c = true) s.
Proof.
  split; [|apply trim_start_Forall].
  induction s as [|x s IH]; simpl; [done|].
  destruct (p x) eqn:E; [|done]. intros H. constructor; auto.
Qed.

Lemma trim_both_nil p s :
  trim_both p s = [] ↔ Forall (λ c, p c = true) s.
Proof.
  unfold trim_both, trim_end. split.
  - intros H. apply (f_equal reverse) in H.
    rewrite reverse_involutive, reverse_nil in H.
    apply trim_start_nil in H. apply Forall_reverse in H.
    rewrite reverse_involutive in H.
    destruct (trim_start p s) as [|x t] eqn:E; [by apply trim_start_nil|].
    apply Forall_cons in H as [Hx _].
    assert (p x = false) by (apply (trim_start_head p s); by rewrite E).
    congruence.
  - intros H. by rewrite (trim_start_Forall p s H).
Qed.

Lemma split_blank (p : N → bool) sep s :
  Forall (Forall (λ c, p c = true)) (split sep s) ↔
  Forall (λ c, c = sep ∨ p c = true) s.
Proof.
  induction s as [|x s IH]; simpl.
  - split; intros _; repeat constructor.
  - destruct (N.eqb_spec x sep) as [->|Hx].
    + rewrite Forall_cons, IH, Forall_cons.
      split; intros [_ H]; (split; [auto|done]).
    + destruct (split sep s) as [|h t] eqn:E; [by apply split_not_nil in E|].
      rewrite !Forall_cons in *. rewrite <- IH.
      split.
      * intros [[Hx' Hh] Ht]. auto.
      * intros [[Hx'|Hx'] [Hh Ht]]; [done|auto].
Qed.

Lemma allowList_nil w :
  allowList w = [] ↔
  Forall (λ c, c = 44 ∨ js_space c = true)
    (default [] (env w !! "ALLOWED_ORIGINS")).
Proof.
  unfold allowList. rewrite <- split_blank.
  induction (split 44 _) as [|seg segs IH]; [done|].
  cbn [map]. rewrite Forall_cons, <- IH, <- trim_both_nil.
  destruct (decide (trim_both js_space seg = [])) as [Hs|Hs].
  - rewrite filter_cons_False by (by intros ?). tauto.
  - rewrite filter_cons_True by done. split; [done|]. by intros [? _].
Qed.

(** X19: the handler answers every origin with
    [Access-Control-Allow-Origin: *] exactly when ALLOWED_ORIGINS is
    unset or holds nothing but commas and white space. *)
Theorem cors_open_iff_unconfigured w :
  (∀ origin, Access_Control_Allow_Origin (corsHeaders w origin) = lit "*") ↔
  Forall (λ c, c = 44 ∨ js_space c = true)
    (default [] (env w !! "ALLOWED_ORIGINS")).
Proof.
  rewrite <- allowList_nil. unfold corsHeaders. cbn [Access_Control_Allow_Origin].
  split.
  - intros H. specialize (H None). case_bool_decide as Hl; [|done].
    by apply length_zero_iff_nil.
  - intros -> origin. done.
Qed.

(** X20: when ALLOWED_ORIGINS is a comma-separated list with at least one
    entry that is not blank, the allowed origins are its entries with
    surrounding white space removed; a request gets its own origin back
    when it is one of them and ["null"] otherwise. *)
Theorem cors_echoes_listed_origins w segs origin :
  segs ≠ [] → Forall (λ seg, 44 ∉ seg) segs →
  env w !! "ALLOWED_ORIGINS" = Some (Js.join [44] segs) →
  let origins := filter (λ o, o ≠ []) (map (trim_both js_space) segs) in
  origins ≠ [] →
  allowList w = origins ∧
  Access_Control_Allow_Origin (corsHeaders w origin)
  = match origin with
    | Some o => if bool_decide (o ∈ origins) then o else lit "null"
    | None => lit "null"
    end.
Proof.
  intros Hne Hs Henv origins Ho.
  assert (allowList w = origins) as Ha.
  { unfold allowList. rewrite Henv. simpl default. by rewrite split_join. }
  split; [done|]. unfold corsHeaders. cbn [Access_Control_Allow_Origin].
  rewrite Ha. rewrite bool_decide_false by (by rewrite length_zero_iff_nil).
  destruct origin as [o|]; [|done].
  destruct (decide (o = [])) as [->|Hnil].
  - rewrite bool_decide_true by done. simpl.
    rewrite bool_decide_false; [done|].
    unfold origins. intros Hin. by apply list_elem_of_filter in Hin as [? _].
  - by rewrite (bool_decide_false (o = [])) by done.
Qed.

Lemma cors_echoes_listed_origins_witness :
  let w := with_env answering_world two_origins_env in
  Access_Control_Allow_Origin (corsHeaders w (Some (lit "https://b.example")))
  = lit "https://b.example" ∧
  Access_Control_Allow_Origin (corsHeaders w (Some (lit "https://c.example")))
  = lit "null".
Proof.
  intros w.
  pose (segs := [lit "https://a.example"; lit " https://b.example"]).
  assert (segs ≠ []) as H1 by discriminate.
  assert (Forall (λ seg, 44 ∉ seg) segs) as H2.
  { repeat constructor; apply (bool_decide_unpack _); vm_compute; reflexivity. }
  assert (env w !! "ALLOWED_ORIGINS" = Some (Js.join [44] segs)) as H3
    by (vm_compute; reflexivity).
  assert (filter (λ o, o ≠ []) (map (trim_both js_space) segs) ≠ []) as H4
    by (vm_compute; discriminate).
  split.
  - apply (cors_echoes_listed_origins w segs (Some (lit "https://b.example"))
             H1 H2 H3 H4).
  - apply (cors_echoes_listed_origins w segs (Some (lit "https://c.example"))
             H1 H2 H3 H4).
Defined.

End CorsFacts.

(** ** The widgets against the handler *)
Module WidgetFacts.
Import Edge Pipeline RegexFacts RunFacts PipelineFacts Examples Examples2.
Local Open Scope Qc_scope.

(** X21: the first revision of the plain widget posts the question under
    [message], not [query]: whatever the question, both revisions of the
    handler answer 400 without calling a service, and the widget shows its
    fallback text. *)
Theorem first_widget_is_always_rejected serve w q sessionId :
  revision serve →
  serve w (PlainWidget.ask_first q sessionId)
  = (json_response 400 (ErrorBody (lit "Missing 'query' (string)") None None), []) ∧
  PlainWidget.shown_answer (serve w (PlainWidget.ask_first q sessionId)).1
  = lit "Sorry, I couldn" ++ [8217%N] ++ lit "t find that.".
Proof.
  intros Hrev.
  assert (serve w (PlainWidget.ask_first q sessionId)
          = (json_response 400
               (ErrorBody (lit "Missing 'query' (string)") None None), []))
    as ->; [|done].
  assert (retrieve w (PlainWidget.ask_first q sessionId) []
          = (Returned (json_response 400
               (ErrorBody (lit "Missing 'query' (string)") None None)), []))
    as Hr.
  { apply retrieve_no_query; [done|by vm_compute|].
    intros q' Hq'. vm_compute in Hq'. discriminate Hq'. }
  destruct Hrev as [-> | ->].
  - by rewrite AskBot_serve_eq, serve_with_bind, Hr.
  - by rewrite AskBotConversational_serve_eq, serve_with_bind, Hr.
Qed.

Lemma first_widget_is_always_rejected_witness :
  (AskBot.serve answering_world
     (PlainWidget.ask_first (lit "reset my remote") (lit "s1"))).2 = [].
Proof.
  refine (f_equal snd (proj1 (first_widget_is_always_rejected AskBot.serve
            answering_world (lit "reset my remote") (lit "s1") _))).
  by left.
Defined.

Lemma send_valid origin input sessionId req :
  ReactWidget.send origin input sessionId = Some req →
  valid_query req (trim_both js_space input) ∧
  Js.get (body_of req) "top_k" = Some (JNumber (Qc_of_Z 10)) ∧
  Js.get (body_of req) "session_id" = Some (JString sessionId).
Proof.
  unfold ReactWidget.send. case_bool_decide as Hq; [done|]. intros [= <-].
  repeat split; try done; by vm_compute.
Qed.

(** X22: a request of the React widget is never rejected by the handler
    (no 204, 400 or 405): it is a POST whose [query] is the trimmed,
    non-empty input.  It asks for ten passages, and the widget keeps its
    session id whatever the response. *)
Theorem react_widget_request_is_accepted serve w origin input sessionId req :
  revision serve →
  ReactWidget.send origin input sessionId = Some req →
  sessionId ≠ [] →
  valid_query req (trim_both js_space input) ∧
  topK w (body_of req) = Fin (Qc_of_Z 10) ∧
  (status (serve w req).1 ∉ [204; 400; 405]%N) ∧
  ReactWidget.next_session sessionId (serve w req).1 = sessionId.
Proof.
  intros Hrev Hsend Hsid.
  destruct (send_valid _ _ _ _ Hsend) as (Hv & Hk & Hs).
  split; [done|]. split.
  { unfold topK. rewrite Hk. simpl. f_equal; try (apply Qc_is_canon; reflexivity). }
  assert (sessionId0 : Edge.sessionId w (body_of req) = JString sessionId).
  { unfold Edge.sessionId. rewrite Hs. simpl.
    by rewrite bool_decide_false. }
  set (P := λ p : response * list call,
    (status p.1 ∉ [204; 400; 405]%N) ∧
    ReactWidget.next_session sessionId p.1 = sessionId).
  enough (P (serve w req)) by done.
  assert (∀ n : N, n ∉ [204; 400; 405]%N ↔ n ≠ 204%N ∧ n ≠ 400%N ∧ n ≠ 405%N)
    as Hnot.
  { intros n. rewrite !not_elem_of_cons. split; [tauto|].
    intros (? & ? & ?). repeat split; try done. apply not_elem_of_nil. }
  pose proof Hv as (Hm & Hh & Hq & Hne).
  assert (∀ st b, st ≠ 204%N → st ≠ 400%N → st ≠ 405%N →
                  (∀ a, b ≠ AnswerBody a) → ∀ t, P (json_response st b, t))
    as Hother.
  { intros st b ? ? ? Hb t. split; [by apply Hnot|].
    unfold ReactWidget.next_session. simpl.
    destruct b; try done. by destruct (Hb a). }
  assert (∀ a t, session_id a = JString sessionId →
                 P (json_response 200 (AnswerBody a), t)) as Hanswer.
  { intros a t Ha. split; [by apply Hnot|].
    unfold ReactWidget.next_session. simpl. rewrite Ha.
    by rewrite bool_decide_false. }
  destruct Hrev as [-> | ->].
  - apply AskBot_serve_cases.
    + intros Ho. by rewrite Hm in Ho.
    + done.
    + intros _ Hh'. congruence.
    + intros _ _ Hnq. destruct Hne. by apply Hnq.
    + intros. by apply Hother.
    + intros. by apply Hother.
    + intros. by apply Hother.
    + intros. by apply Hother.
    + intros. by apply Hother.
    + intros. by apply Hanswer.
  - apply AskBotConversational_serve_cases.
    + intros Ho. by rewrite Hm in Ho.
    + done.
    + intros _ Hh'. congruence.
    + intros _ _ Hnq. destruct Hne. by apply Hnq.
    + intros. by apply Hother.
    + intros. by apply Hother.
    + intros. by apply Hother.
    + intros. by apply Hother.
    + intros. by apply Hother.
    + intros. by apply Hanswer.
Qed.

Lemma react_widget_request_is_accepted_witness :
  ∃ req,
    ReactWidget.send None (lit "  reset my remote ") (lit "s1") = Some req ∧
    valid_query req (lit "reset my remote") ∧
    ReactWidget.next_session (lit "s1") (AskBot.serve answering_world req).1
    = lit "s1".
Proof.
  eexists. split; [reflexivity|].
  destruct (react_widget_request_is_accepted AskBot.serve answering_world None
              (lit "  reset my remote ") (lit "s1") _
              ltac:(by left) eq_refl ltac:(discriminate))
    as (Hv & _ & _ & Hs).
  split; [exact Hv|exact Hs].
Defined.

(** X23: the table [search_kb_hybrid] returns has no [source_url] and no
    [source_title], so every citation built from its rows has the title
    "Knowledge Base Article" and the url "#"; the React widget, which
    keeps http(s) links only, and the plain widget, which drops "#", show
    none of them. *)
Theorem citations_of_search_rows_are_hidden ellipsis out topK :
  let cs := citations ellipsis (topForLLM (row_of_result <$> out) topK) in
  Forall (λ c, url c = lit "#" ∧ title c = lit "Knowledge Base Article") cs ∧
  ReactWidget.shown_citations cs = [] ∧
  PlainWidget.citeUrls cs = [].
Proof.
  intros cs.
  assert (Forall (λ c, url c = lit "#" ∧ title c = lit "Knowledge Base Article") cs)
    as Hcs.
  { apply Forall_lookup. intros i c Hc. unfold cs, citations in Hc.
    rewrite list_lookup_imap in Hc.
    destruct (topForLLM _ _ !! i) as [r|] eqn:Er; [|done].
    injection Hc as <-. unfold topForLLM, Js.slice_to in Er.
    apply lookup_take_Some in Er as [Er _].
    rewrite list_lookup_fmap in Er.
    destruct (out !! i) as [res|]; [|done]. by injection Er as <-. }
  split; [done|]. split.
  - unfold ReactWidget.shown_citations.
    induction Hcs as [|c cs' [Hu _] _ IH]; [done|].
    rewrite filter_cons_False; [done|]. rewrite Hu. by intros [_ ?].
  - unfold PlainWidget.citeUrls.
    induction Hcs as [|c cs' [Hu _] _ IH]; [done|].
    cbn [map]. rewrite filter_cons_False; [done|]. rewrite Hu. by intros [_ ?].
Qed.

End WidgetFacts.

(** ** [chunk] of kb-sync *)
Module KbSyncFacts.
Import KbSync.
Local Open Scope nat_scope.

(** The [k]-th chunk of the loop started at [i], when the fuel lets the
    loop reach the end of the text. *)
Lemma chunk_from_lookup text max step fuel i k :
  0 < step → length text ≤ i + fuel →
  chunk_from fuel text max step i !! k
  = if decide (i + k * step < length text)
    then Some (take max (drop (i + k * step) text)) else None.
Proof.
  intros Hstep. revert i k. induction fuel as [|fuel IH]; intros i k Hfuel.
  - simpl. rewrite decide_False by nia. done.
  - simpl. case_bool_decide as Hi.
    + destruct k as [|k]; simpl.
      * rewrite Nat.add_0_r, decide_True by done. done.
      * rewrite IH by lia.
        replace (i + step + k * step) with (i + (step + k * step)) by lia.
        done.
    + rewrite decide_False by nia. done.
Qed.

Lemma chunk_lookup text max overlap k :
  chunk text max overlap !! k
  = if decide (k * Nat.max 1 (max - overlap) < length text)
    then Some (take max (drop (k * Nat.max 1 (max - overlap)) text))
    else None.
Proof. unfold chunk. rewrite chunk_from_lookup by lia. done. Qed.

(** X24: the [k]-th chunk is the slice of [max] code units that starts at
    [k] times the step [max(1, max - overlap)], for as long as that start
    lies inside the text; so the empty text has no chunk, and for
    [max ≥ 1] every chunk is non-empty and at most [max] long.  More fuel
    than [text.length] iterations changes nothing. *)
Theorem chunk_slices text max overlap :
  let step := Nat.max 1 (max - overlap) in
  (∀ k, chunk text max overlap !! k
        = if decide (k * step < length text)
          then Some (take max (drop (k * step) text)) else None) ∧
  (text = [] → chunk text max overlap = []) ∧
  (1 ≤ max → Forall (λ part, 1 ≤ length part ≤ max) (chunk text max overlap)) ∧
  (∀ fuel, length text ≤ fuel →
           chunk_from fuel text max step 0 = chunk text max overlap).
Proof.
  intros step. split; [|split; [|split]].
  - apply chunk_lookup.
  - by intros ->.
  - intros Hmax. apply Forall_lookup. intros k part Hk.
    rewrite chunk_lookup in Hk. case_decide as Hlt; [|done].
    injection Hk as <-. rewrite length_take, length_drop. fold step. lia.
  - intros fuel Hfuel. apply list_eq. intros k.
    rewrite chunk_lookup, chunk_from_lookup by (unfold step; lia). done.
Qed.

Lemma chunk_slices_witness :
  Forall (λ part, 1 ≤ length part ≤ 4) (chunk (lit "abcdefghij") 4 1).
Proof.
  destruct (chunk_slices (lit "abcdefghij") 4 1) as (_ & _ & H & _).
  apply H. lia.
Defined.

Lemma flat_map_drop_chunk_from text max overlap fuel i :
  overlap < max → length text ≤ i + fuel →
  flat_map (drop overlap) (chunk_from fuel text max (max - overlap) i)
  = drop (i + overlap) text.
Proof.
  intros Hov. revert i. induction fuel as [|fuel IH]; intros i Hfuel.
  - simpl. rewrite drop_ge by lia. done.
  - simpl. case_bool_decide as Hi.
    + cbn [flat_map]. rewrite IH by lia.
      rewrite skipn_firstn_comm.
      replace (drop overlap (drop i text)) with (drop (i + overlap) text)
        by (rewrite drop_drop; f_equal; lia).
      replace (drop (i + (max - overlap) + overlap) text)
        with (drop (max - overlap) (drop (i + overlap) text))
        by (rewrite drop_drop; f_equal; lia).
      apply take_drop.
    + simpl. rewrite drop_ge by lia. done.
Qed.

(** X25: when the overlap is smaller than the chunk size, nothing of the
    text is lost and nothing is out of order: the first chunk followed by
    every later chunk without its first [overlap] code units is the
    text. *)
Theorem chunk_reassemble text max overlap :
  overlap < max → reassemble overlap (chunk text max overlap) = text.
Proof.
  intros Hov. unfold chunk.
  replace (Nat.max 1 (max - overlap)) with (max - overlap) by lia.
  destruct text as [|c text]; [done|].
  cbn [length chunk_from]. rewrite bool_decide_true by lia.
  cbn [reassemble]. rewrite flat_map_drop_chunk_from by (simpl; lia).
  rewrite drop_0.
  replace (0 + (max - overlap) + overlap) with max by lia.
  apply take_drop.
Qed.

Lemma chunk_reassemble_witness :
  reassemble 1 (chunk (lit "abcdefghij") 4 1) = lit "abcdefghij".
Proof. apply (chunk_reassemble (lit "abcdefghij") 4 1). lia. Defined.

(** X26: with the parameters of the call in the sync ([max] 1200,
    [overlap] 200) a text of up to 1000 code units is one chunk, and a
    text of 1001 to 1200 code units gives two chunks of which the second
    repeats the end of the first. *)
Theorem chunk_default_short_texts text :
  (1 ≤ length text ≤ 1000 → chunk text 1200 200 = [text]) ∧
  (1000 < length text ≤ 1200 → chunk text 1200 200 = [text; drop 1000 text]).
Proof.
  split; intros Hlen; apply list_eq; intros k; rewrite chunk_lookup;
    change (Nat.max 1 (1200 - 200)) with 1000.
  - destruct k as [|k].
    + rewrite decide_True by lia. change (0 * 1000) with 0.
      rewrite drop_0, take_ge by lia. done.
    + rewrite decide_False by lia. by destruct k.
  - destruct k as [|[|k]].
    + rewrite decide_True by lia. change (0 * 1000) with 0.
      rewrite drop_0, take_ge by lia. done.
    + rewrite decide_True by lia. change (1 * 1000) with 1000.
      rewrite take_ge; [done|]. rewrite length_drop. lia.
    + rewrite decide_False by lia. done.
Qed.

Lemma chunk_default_short_texts_witness :
  chunk (replicate 1100 97%N) 1200 200
  = [replicate 1100 97%N; drop 1000 (replicate 1100 97%N)].
Proof.
  apply (chunk_default_short_texts (replicate 1100 97%N)).
  rewrite length_replicate. lia.
Defined.

End KbSyncFacts.

(** ** [escapeHtml] of the React widget *)
Module EscapeFacts.
Import ReactWidget.

Lemma replace_from_Chr c rep s prev :
  replace_from [Chr c] rep prev 0 s
  = flat_map (λ x, if x =? c then rep else [x]) s.
Proof.
  revert prev. induction s as [|x s IH]; intros prev; [done|].
  cbn [replace_from exec flat_map]. destruct (x =? c); simpl; by rewrite IH.
Qed.

Lemma flat_map_flat_map {A B C} (f : A → list B) (g : B → list C) l :
  flat_map g (flat_map f l) = flat_map (λ x, flat_map g (f x)) l.
Proof.
  induction l as [|x l IH]; [done|]. simpl. by rewrite flat_map_app, IH.
Qed.

Lemma escapeHtml_flat_map s : escapeHtml s = flat_map entity s.
Proof.
  unfold escapeHtml, replace_all. rewrite !replace_from_Chr, !flat_map_flat_map.
  apply flat_map_ext. intros x. unfold entity.
  destruct (N.eqb_spec x 38) as [->|H38]; [done|].
  destruct (N.eqb_spec x 60) as [->|H60]; [done|].
  destruct (N.eqb_spec x 62) as [->|H62]; [done|].
  destruct (N.eqb_spec x 34) as [->|H34]; [done|].
  destruct (N.eqb_spec x 39) as [->|H39]; [done|].
  simpl. rewrite !(proj2 (N.eqb_neq _ _)) by done. simpl.
  rewrite !(proj2 (N.eqb_neq _ _)) by done. simpl.
  rewrite !(proj2 (N.eqb_neq _ _)) by done. simpl.
  rewrite !(proj2 (N.eqb_neq _ _)) by done. done.
Qed.

Lemma entity_cases c :
  (c = 38 ∧ entity c = lit "&amp;") ∨ (c = 60 ∧ entity c = lit "&lt;") ∨
  (c = 62 ∧ entity c = lit "&gt;") ∨ (c = 34 ∧ entity c = lit "&quot;") ∨
  (c = 39 ∧ entity c = lit "&#039;") ∨
  (c ≠ 38 ∧ c ≠ 60 ∧ c ≠ 62 ∧ c ≠ 34 ∧ c ≠ 39 ∧ entity c = [c]).
Proof.
  unfold entity.
  destruct (N.eqb_spec c 38); [by left|].
  destruct (N.eqb_spec c 60); [by right; left|].
  destruct (N.eqb_spec c 62); [by right; right; left|].
  destruct (N.eqb_spec c 34); [by right; right; right; left|].
  destruct (N.eqb_spec c 39); [by right; right; right; right; left|].
  by repeat right.
Qed.

Lemma entity_prefix_free x y s t :
  entity x ++ s = entity y ++ t → x = y ∧ s = t.
Proof.
  destruct (entity_cases x) as [[-> ->]|[[-> ->]|[[-> ->]|[[-> ->]|[[-> ->]|
    (?&?&?&?&?& ->)]]]]];
  destruct (entity_cases y) as [[-> ->]|[[-> ->]|[[-> ->]|[[-> ->]|[[-> ->]|
    (?&?&?&?&?& ->)]]]]];
  intros Heq; simplify_eq/=; done.
Qed.

Lemma escapeHtml_one_pass_safe s :
  Forall (λ c, c ∉ [60; 62; 34; 39]) (escapeHtml s).
Proof.
  rewrite escapeHtml_flat_map. apply Forall_forall. intros c Hc.
  apply list_elem_of_In, in_flat_map in Hc as (x & _ & Hc).
  apply list_elem_of_In in Hc. rewrite !not_elem_of_cons.
  destruct (entity_cases x) as [[-> Hx]|[[-> Hx]|[[-> Hx]|[[-> Hx]|[[-> Hx]|
    (?&?&?&?&?& Hx)]]]]]; rewrite Hx in Hc;
    repeat (apply elem_of_cons in Hc as [-> |Hc]);
    try (by apply elem_of_nil in Hc);
    (repeat split; [done..|apply not_elem_of_nil]).
Qed.

(** X27: [escapeHtml] acts as one pass that replaces each of the five
    characters by its entity (the replacement of the ampersand comes first,
    so no entity is escaped twice); its result holds none of [<], [>],
    the double and the single quote, and no two texts have the same
    escaped form. *)
Theorem escapeHtml_one_pass s :
  escapeHtml s = flat_map entity s ∧
  Forall (λ c, c ∉ [60; 62; 34; 39]) (escapeHtml s) ∧
  (∀ t, escapeHtml s = escapeHtml t → s = t).
Proof.
  split; [apply escapeHtml_flat_map|]. split.
  - apply escapeHtml_one_pass_safe.
  - intros t. rewrite !escapeHtml_flat_map. revert t.
    induction s as [|x s IH]; intros [|y t]; simpl; intros H.
    + done.
    + destruct (entity_cases y) as [[_ Hy]|[[_ Hy]|[[_ Hy]|[[_ Hy]|[[_ Hy]|
        (_&_&_&_&_& Hy)]]]]]; by rewrite Hy in H.
    + destruct (entity_cases x) as [[_ Hx]|[[_ Hx]|[[_ Hx]|[[_ Hx]|[[_ Hx]|
        (_&_&_&_&_& Hx)]]]]]; by rewrite Hx in H.
    + apply entity_prefix_free in H as [-> H]. f_equal. by apply IH.
Qed.

End EscapeFacts.

(** ** [renderAnswerHtml] of the React widget *)
Module RenderFacts.
Import ReactWidget EscapeFacts.

Lemma exec_Star_Chr p c prev s n :
  exec [Star p; Chr c] prev s = Some n →
  ∃ ds rest, s = ds ++ c :: rest ∧ Forall (λ d, p d = true) ds ∧
             n = S (length ds).
Proof.
  assert (∀ prev s n, exec [Chr c] prev s = Some n →
                      ∃ rest, s = c :: rest ∧ n = 1%nat) as Hchr.
  { intros prev' [|x s'] n'; simpl; [done|].
    destruct (N.eqb_spec x c) as [->|]; [|done]. intros [= <-]. by eexists. }
  revert prev n. induction s as [|x s IH]; intros prev n.
  - intros H. by simpl in H.
  - change (exec [Star p; Chr c] prev (x :: s))
      with (if p x then
              match exec [Star p; Chr c] (Some x) s with
              | Some n => Some (S n)
              | None => exec [Chr c] prev (x :: s)
              end
            else exec [Chr c] prev (x :: s)).
    destruct (p x) eqn:Hx.
    + destruct (exec [Star p; Chr c] (Some x) s) as [m|] eqn:E.
      * intros [= <-]. destruct (IH _ _ E) as (ds & rest & -> & Hds & ->).
        exists (x :: ds), rest. split; [done|]. split; [by constructor|done].
      * intros H. apply Hchr in H as (rest & [= -> ->] & ->).
        by exists [], rest.
    + intros H. apply Hchr in H as (rest & [= -> ->] & ->). by exists [], rest.
Qed.

(** A match of the marker pattern. *)
Lemma exec_marker prev s n :
  exec re_marker prev s = Some n →
  ∃ ds rest, s = [91; 35] ++ ds ++ 93 :: rest ∧ ds ≠ [] ∧
             Forall (λ d, is_digit d = true) ds ∧ n = (length ds + 3)%nat.
Proof.
  destruct s as [|a [|b [|d s]]].
  - done.
  - unfold re_marker. cbn [exec]. by destruct (a =? 91).
  - unfold re_marker. cbn [exec]. destruct (a =? 91); [|done]. simpl.
    by destruct (b =? 35).
  - change (exec re_marker prev (a :: b :: d :: s))
      with (if a =? 91 then
              S <$> (if b =? 35 then
                       S <$> (if is_digit d then
                                S <$> exec [Star is_digit; Chr 93] (Some d) s
                              else None)
                     else None)
            else None).
    destruct (N.eqb_spec a 91) as [->|]; [|done].
    destruct (N.eqb_spec b 35) as [->|]; [|done].
    destruct (is_digit d) eqn:Hd; [|done].
    destruct (exec [Star is_digit; Chr 93] (Some d) s) as [m|] eqn:E; [|done].
    intros [= <-]. apply exec_Star_Chr in E as (ds & rest & -> & Hds & ->).
    exists (d :: ds), rest. split; [done|]. split; [done|].
    split; [by constructor|simpl; lia].
Qed.

Lemma sup_marker ds :
  sup ([91; 35] ++ ds ++ [93]) = lit "<sup>[" ++ ds ++ lit "]</sup>".
Proof.
  unfold sup.
  assert (Nat.sub (length ([91; 35] ++ ds ++ [93])) 3 = length ds) as ->
    by (rewrite !length_app; simpl; lia).
  change (drop 2 ([91; 35] ++ ds ++ [93])) with (ds ++ [93]).
  by rewrite take_app_length.
Qed.

(** The text between the pieces is kept, the matches become markers. *)
Lemma replace_with_marker_pieces s prev k :
  Forall (λ c, c ∉ [60; 62; 34; 39]) s →
  ∃ ps, replace_with re_marker sup prev k s = concat ps ∧
        Forall (λ p, (∃ c, p = [c] ∧ c ∉ [60; 62; 34; 39]) ∨
                     (∃ ds, ds ≠ [] ∧ Forall (λ d, is_digit d = true) ds ∧
                            p = lit "<sup>[" ++ ds ++ lit "]</sup>")) ps.
Proof.
  revert prev k. induction s as [|x s IH]; intros prev k Hs.
  - exists []. split; [|constructor]. simpl.
    destruct k; [|done]. destruct (exec re_marker prev []) eqn:E; [|done].
    by apply exec_marker in E as (ds & rest & ? & _).
  - apply Forall_cons in Hs as [Hx Hs]. cbn [replace_with].
    destruct k as [|k]; [|by apply IH].
    destruct (exec re_marker prev (x :: s)) as [[|n]|] eqn:E.
    + apply exec_marker in E as (ds & rest & _ & _ & _ & ?). lia.
    + apply exec_marker in E as (ds & rest & Heq & Hne & Hds & Hn).
      destruct (IH (Some x) n Hs) as (ps & -> & Hps).
      exists ((lit "<sup>[" ++ ds ++ lit "]</sup>") :: ps). split.
      * cbn [concat]. f_equal. rewrite Heq.
        replace (S n) with (length ([91; 35] ++ ds ++ [93]))
          by (rewrite !length_app; simpl; lia).
        replace ([91; 35] ++ ds ++ 93 :: rest)
          with (([91; 35] ++ ds ++ [93]) ++ rest)
          by (by rewrite <- !app_assoc).
        rewrite take_app_length. apply sup_marker.
      * constructor; [|done]. right. by exists ds.
    + destruct (IH (Some x) 0%nat Hs) as (ps & -> & Hps).
      exists ([x] :: ps). split; [done|]. constructor; [|done]. left. by exists x.
Qed.

(** X28: whatever the answer text, the HTML [renderAnswerHtml] returns is
    made of three kinds of pieces only: single code units other than [<],
    [>], the two quotes and the line feed, the line break [<br/>], and
    [<sup>[n]</sup>] around a decimal number; so the answer cannot bring
    in a tag or an attribute of its own. *)
Theorem renderAnswerHtml_pieces raw :
  ∃ ps, renderAnswerHtml raw = concat ps ∧ Forall piece ps.
Proof.
  unfold renderAnswerHtml.
  pose proof (escapeHtml_one_pass_safe raw) as Hsafe.
  destruct (replace_with_marker_pieces (escapeHtml raw) None 0 Hsafe)
    as (ps & -> & Hps).
  unfold replace_all. rewrite replace_from_Chr.
  induction Hps as [|p ps Hp _ (qs & IH & Hqs)].
  - exists []. split; [done|constructor].
  - cbn [concat]. rewrite flat_map_app, IH.
    destruct Hp as [(c & -> & Hc)|(ds & Hne & Hds & ->)].
    + destruct (N.eqb_spec c 10) as [->|Hc10].
      * exists (lit "<br/>" :: qs). split; [done|]. constructor; [|done].
        apply piece_br.
      * exists ([c] :: qs). split.
        { simpl. by rewrite (proj2 (N.eqb_neq _ _)) by done. }
        constructor; [|done]. apply piece_text.
        rewrite !not_elem_of_cons in *. tauto.
    + exists ((lit "<sup>[" ++ ds ++ lit "]</sup>") :: qs). split.
      * cbn [concat]. f_equal. rewrite !flat_map_app.
        assert (flat_map (λ x, if x =? 10 then lit "<br/>" else [x]) ds = ds)
          as ->.
        { clear -Hds. induction Hds as [|d ds Hd _ IH]; [done|].
          simpl. rewrite IH. destruct (N.eqb_spec d 10) as [->|]; [|done].
          by vm_compute in Hd. }
        done.
      * constructor; [|done]. by apply piece_sup.
Qed.

End RenderFacts.

(** ** The ticket handler *)
Module CreateTicketFacts.
Import Pipeline CreateTicket.

Ltac in_log H :=
  repeat first
    [ apply elem_of_nil in H; destruct H
    | apply elem_of_cons in H as [H|H]; [try discriminate H|] ].

Lemma truthy_fields (a b c d e f : bool) :
  negb a || negb b || negb c || negb d || negb e || negb f = false →
  a = true ∧ b = true ∧ c = true ∧ d = true ∧ e = true ∧ f = true.
Proof. by destruct a, b, c, d, e, f. Qed.

(** X29: a Freshdesk ticket is created only for a POST that carries all
    six fields with truthy values and a transcript that is an array.  The
    ticket holds the name, email, subject and session id of the request,
    with status 2 (open), priority 2 and source 3, and it is the first call
    of the request. *)
Theorem ticket_only_from_complete_requests w req fd :
  CallFreshdesk fd ∈ (serve w req).2 →
  let body := body_of req in
  method req = "POST" ∧
  Forall (given body)
    ["name"; "email"; "subject"; "description"; "transcript"; "session_id"] ∧
  (∃ l, Js.get body "transcript" = Some (JArray l)) ∧
  Js.get body "name" = Some (td_name (fd_body fd)) ∧
  Js.get body "email" = Some (td_email (fd_body fd)) ∧
  Js.get body "subject" = Some (td_subject (fd_body fd)) ∧
  Js.get body "session_id" = Some (td_session_id (fd_body fd)) ∧
  td_status (fd_body fd) = 2 ∧ td_priority (fd_body fd) = 2 ∧
  td_source (fd_body fd) = 3 ∧
  head (serve w req).2 = Some (CallFreshdesk fd).
Proof.
  intros Hin body. unfold serve, unhandled in *. cbv zeta in *.
  change (default (JObject ∅) (json_body req)) with body in *.
  destruct (String.eqb_spec (method req) "OPTIONS") as [|_];
    [by apply elem_of_nil in Hin|].
  destruct (String.eqb_spec (method req) "POST") as [Hm|];
    [|by apply elem_of_nil in Hin].
  cbn [negb] in *.
  destruct (is_null body); [by apply elem_of_nil in Hin|].
  destruct (Js.get body "name") as [name|] eqn:Hname;
  destruct (Js.get body "email") as [email|] eqn:Hemail;
  destruct (Js.get body "subject") as [subject|] eqn:Hsubject;
  destruct (Js.get body "description") as [description|] eqn:Hdescription;
  destruct (Js.get body "transcript") as [transcript|] eqn:Htranscript;
  destruct (Js.get body "session_id") as [session_id|] eqn:Hsession;
    try (by apply elem_of_nil in Hin).
  destruct (negb (Js.truthy (Some name)) || negb (Js.truthy (Some email))
            || negb (Js.truthy (Some subject))
            || negb (Js.truthy (Some description))
            || negb (Js.truthy (Some transcript))
            || negb (Js.truthy (Some session_id))) eqn:Htruthy;
    [by apply elem_of_nil in Hin|].
  apply truthy_fields in Htruthy as (? & ? & ? & ? & ? & ?).
  destruct (bool_decide _ || bool_decide _); [by apply elem_of_nil in Hin|].
  assert (∃ l, transcript = JArray l) as [l ->].
  { destruct transcript; try (by apply elem_of_nil in Hin). by eexists. }
  split; [done|]. split.
  { repeat (constructor;
      [unfold given;
       by rewrite ?Hname, ?Hemail, ?Hsubject, ?Hdescription, ?Htranscript,
         ?Hsession|]).
    constructor. }
  split; [by eexists|].
  destruct (formattedTranscript w (JArray l)); [|by apply elem_of_nil in Hin].
  destruct (ticketDescription w description _);
    [|by apply elem_of_nil in Hin].
  destruct (btoa w _); [|by apply elem_of_nil in Hin].
  match type of Hin with
  | context [freshdesk w ?r] => set (fd0 := r) in *
  end.
  enough (fd = fd0 ∧
          ∃ rest, (match freshdesk w fd0 with
                   | FreshdeskThrows e => _
                   | FreshdeskReplied st r => _
                   end).2 = CallFreshdesk fd0 :: rest) as [-> [rest ->]]
    by done.
  destruct (freshdesk w fd0) as [e|st result].
  { in_log Hin. injection Hin as ->. eauto. }
  destruct (negb (in_range 200 299 st)).
  { destruct (negb (in_range 200 599 st)), (st =? 304);
      in_log Hin; injection Hin as ->; eauto. }
  destruct (is_null result); [in_log Hin; injection Hin as ->; by eauto|].
  destruct (negb _ && negb _).
  - destruct (insert_ticket w _); [|destruct (ToString_opt w _)];
      in_log Hin; injection Hin as ->; eauto.
  - destruct (ToString_opt w _); in_log Hin; injection Hin as ->; eauto.
Qed.

Lemma ticket_only_from_complete_requests_witness :
  ∃ fd, head (serve accepting_world form_request).2 = Some (CallFreshdesk fd) ∧
        td_status (fd_body fd) = 2.
Proof.
  eexists.
  refine ((λ H, conj (proj2 (proj2 (proj2 (proj2 (proj2 (proj2 (proj2 (proj2
            (proj2 (proj2 H))))))))))
                     (proj1 (proj2 (proj2 (proj2 (proj2 (proj2 (proj2 (proj2 H)))))))))
          (ticket_only_from_complete_requests accepting_world form_request _ _)).
  vm_compute. left.
Defined.


End CreateTicketFacts.
